(** * boja: hyperparameter search, prediction and visualisation drivers

    A shallow embedding of the three driver scripts of the repository

      - [src/vision/train/hparam_search.py]  (module [HparamSearch]),
      - [src/vision/predict/predict_spin.py] (module [PredictSpin]),
      - [src/vision/train/visualize.py]      (module [Visualize]),

    together with the Python built-ins they rely on (module [Py]) and the
    sampling primitives of [_hparams] (module [Hparams]).

    Conventions.  A Python exception is a value of [Py.exn]; a call that may
    raise returns a [Py.result].  Code that logs, draws random numbers or
    calls the training function threads an explicit state.  Collaborators
    whose code is outside the three scripts (torch, matplotlib, the training
    function, the model factory) are Section variables. *)

From Stdlib Require Import Reals Lra Floats.
From stdpp Require Import gmap strings list sorting pretty.

Set Warnings "-register-all".

Set Warnings "-inexact-float".
Local Open Scope Z_scope.

(* ===================================================================== *)
(** ** Python built-ins *)
(* ===================================================================== *)

Module Py.

(** Exceptions.  The built-in classes that the scripts name or that the
    modelled operations raise have a constructor each, with the text of
    [str(e)] where a handler formats it; an exception of any other class,
    a subclass of these among them, is an [OtherException] with the name
    of its class, the names of the classes above it and its text. *)
Inductive exn : Type :=
| RuntimeError (err : string)
| KeyboardInterrupt
| KeyError (key : string)
| IndexError
| ValueError (err : string)
| OtherException (cls : string) (bases : list string) (err : string).

(** [type(e).__name__] *)
Definition class_of (e : exn) : string :=
  match e with
  | RuntimeError _ => "RuntimeError"
  | KeyboardInterrupt => "KeyboardInterrupt"
  | KeyError _ => "KeyError"
  | IndexError => "IndexError"
  | ValueError _ => "ValueError"
  | OtherException cls _ _ => cls
  end.

(** The classes above the class of [e]. *)
Definition bases_of (e : exn) : list string :=
  match e with
  | RuntimeError _ | ValueError _ => ["Exception"; "BaseException"]
  | KeyboardInterrupt => ["BaseException"]
  | KeyError _ | IndexError => ["LookupError"; "Exception"; "BaseException"]
  | OtherException _ bases _ => bases
  end.

(** [isinstance(e, cls)], which is what [except cls] tests: the class of
    [e] is [cls] or a subclass of it. *)
Definition isinstance (e : exn) (cls : string) : bool :=
  existsb (String.eqb cls) (class_of e :: bases_of e).

(** [str(e)], for the exceptions that a handler of the scripts formats;
    the ones with no text here are instances of none of the classes
    handled. *)
Definition exn_str (e : exn) : string :=
  match e with
  | RuntimeError err | ValueError err | OtherException _ _ err => err
  | KeyboardInterrupt | KeyError _ | IndexError => ""
  end.

Inductive result (A : Type) : Type :=
| Return (a : A)
| Raise (e : exn).
Arguments Return {A} a.
Arguments Raise {A} e.

#[export] Instance result_ret : MRet result := fun A a => Return a.
#[export] Instance result_bind : MBind result := fun A B f r =>
  match r with
  | Return a => f a
  | Raise e => Raise e
  end.

Definition returns {A} (r : result A) : Prop := ∃ a, r = Return a.

(** Code with effects: a computation over a state [S] that returns or
    raises, the state as it is at that point. *)
Definition St (S A : Type) : Type := S → result A * S.

#[export] Instance St_ret {S} : MRet (St S) := λ A a s, (Return a, s).
#[export] Instance St_bind {S} : MBind (St S) := λ A B f m s,
  match m s with
  | (Return a, s') => f a s'
  | (Raise e, s') => (Raise e, s')
  end.

Definition raise {S A} (e : exn) : St S A := λ s, (Raise e, s).

(** [try: body] as a value: what the body did, for the handlers to
    inspect. *)
Definition try {S A} (body : St S A) : St S (result A) :=
  λ s, let '(r, s') := body s in (Return r, s').

(** A pure call that may raise. *)
Definition lift {S A} (r : result A) : St S A := λ s, (r, s).

(** A [dict] whose order of insertion matters: [d[k] = v] replaces the
    value of a key that is present and appends a new key at the end. *)
Fixpoint dict_setitem {V} (k : nat) (v : V) (d : list (nat * V)) : list (nat * V) :=
  match d with
  | [] => [(k, v)]
  | (k', v') :: d' =>
      if bool_decide (k = k') then (k, v) :: d'
      else (k', v') :: dict_setitem k v d'
  end.

Fixpoint dict_get {V} (k : nat) (d : list (nat * V)) : option V :=
  match d with
  | [] => None
  | (k', v') :: d' => if bool_decide (k = k') then Some v' else dict_get k d'
  end.

(** [str]: a Python string as its sequence of Unicode code points. *)
Definition str : Type := list N.

Definition str_of_string (s : string) : str :=
  Ascii.N_of_ascii <$> String.list_ascii_of_string s.

(** The line boundaries of [str.splitlines]: \n, \r, \v, \f, \x1c, \x1d,
    \x1e, \x85, \u2028 and \u2029 (and the pair \r\n, below). *)
Definition is_linebreak (c : N) : bool :=
  bool_decide (c ∈ [10; 13; 11; 12; 28; 29; 30; 133; 8232; 8233]%N).

(** [line] is the part of the current line read so far. *)
Fixpoint splitlines_from (line : str) (s : str) : list str :=
  match s with
  | [] => match line with [] => [] | _ => [line] end
  | c :: s' =>
      if is_linebreak c then
        line :: match s' with
                | c' :: s'' =>
                    if ((c =? 13) && (c' =? 10))%N
                    then splitlines_from [] s''
                    else splitlines_from [] s'
                | [] => splitlines_from [] s'
                end
      else splitlines_from (line ++ [c]) s'
  end.

(** [s.splitlines()] *)
Definition splitlines (s : str) : list str := splitlines_from [] s.

(** [l[j]] on a sequence. *)
Definition getitem {A} (l : list A) (j : nat) : result A :=
  match l !! j with
  | Some a => Return a
  | None => Raise IndexError
  end.

(** [range(n)] for an [int] n: empty when [n <= 0]. *)
Definition range (n : Z) : list nat := seq 0 (Z.to_nat n).

(** [zip( *rows )] over a list of 3-tuples: one tuple per column, none at
    all when there is no row. *)
Definition zip_star {A B C} (rows : list (A * B * C))
  : list (list A) * list (list B) * list (list C) :=
  match rows with
  | [] => ([], [], [])
  | _ => ([(λ r, r.1.1) <$> rows], [(λ r, r.1.2) <$> rows], [(λ r, r.2) <$> rows])
  end.

(** [a, b, c = zip( *rows )]: unpacking to three targets raises
    [ValueError] unless the iterator yields exactly three items. *)
Definition unpack3_zip_star {A B C} (rows : list (A * B * C))
  : result (list A * list B * list C) :=
  match zip_star rows with
  | ([a], [b], [c]) => Return (a, b, c)
  | _ => Raise (ValueError "not enough values to unpack (expected 3, got 0)")
  end.

End Py.

Import Py.

(* ===================================================================== *)
(** ** Filtering of the model's detections (both display loops) *)
(* ===================================================================== *)

Module Inference.

(** A bounding box: four coordinates. *)
Definition box : Type := (float * float * float * float)%type.

(** [outputs[0]]: the dictionary of the three tensors the detection model
    returns for one image.  The labels are an integer tensor; the scores
    are a [float32] tensor, as the model computes them from the [float32]
    image it is given. *)
Record detections : Type := Detections {
  boxes : list box;
  labels : list Z;
  scores : list float
}.

Definition detection : Type := (box * Z * float)%type.

(** A number as [float32] has it: the binary32 number nearest to it, ties
    to even; the numbers of a [float32] tensor are their own nearest. *)
Definition float32 (x : float) : spec_float :=
  match Prim2SF x with
  | S754_finite s m e => binary_round 24 128 s m e
  | sf => sf
  end.

(** [s > threshold] for an element [s] of a [float32] tensor and a Python
    float: torch converts the float to the type of the tensor and compares
    there. *)
Definition tensor_gt (s threshold : float) : bool :=
  SFltb (float32 threshold) (float32 s).

(** The body of the comprehension at index [j]:
    [(boxes[j], labels[j], scores[j]) if scores[j] > threshold and
    labels[j] > 0]; [and] evaluates its right operand only when the left
    one holds. *)
Definition filtered_at (o : detections) (threshold : float) (j : nat)
  : result (option detection) :=
  s ← getitem (scores o) j;
  if tensor_gt s threshold then
    l ← getitem (labels o) j;
    if 0 <? l then
      b ← getitem (boxes o) j;
      mret (Some (b, l, s))
    else mret None
  else mret None.

Fixpoint comprehension (o : detections) (threshold : float) (js : list nat)
  : result (list detection) :=
  match js with
  | [] => mret []
  | j :: js' =>
      d ← filtered_at o threshold j;
      rest ← comprehension o threshold js';
      mret (match d with Some x => x :: rest | None => rest end)
  end.

(** [filtered_output = [... for j in range(len(outputs[0]["boxes"])) if ...]] *)
Definition filtered_output (o : detections) (threshold : float)
  : result (list detection) :=
  comprehension o threshold (range (Z.of_nat (length (boxes o)))).

(** [zip( *filtered_output ) if len(filtered_output) > 0 else ([], [], [])] *)
Definition inference_unzip (filtered : list detection)
  : result (list box * list Z * list float) :=
  if bool_decide (0 < length filtered)%nat
  then unpack3_zip_star filtered
  else Return ([], [], []).

(** The arguments of the [draw_bboxes] call on the inference axes. *)
Record draw_call : Type := DrawBboxes {
  draw_boxes : list box;
  draw_labels : list Z;
  draw_label_names : list str;
  draw_scores : list float
}.

(** From the model's output to the [draw_bboxes] call of one iteration. *)
Definition render (label_names : list str) (o : detections) (threshold : float)
  : result draw_call :=
  filtered ← filtered_output o threshold;
  '(inference_boxes, inference_labels, inference_scores) ← inference_unzip filtered;
  mret (DrawBboxes inference_boxes inference_labels label_names inference_scores).

(** The detections of one image, index by index. *)
Definition outputs_of (o : detections) : list detection :=
  zip (zip (boxes o) (labels o)) (scores o).

(** The model returns one label and one score per box. *)
Definition well_formed (o : detections) : Prop :=
  length (labels o) = length (boxes o) ∧ length (scores o) = length (boxes o).

Definition passes (threshold : float) (d : detection) : bool :=
  tensor_gt d.2 threshold && (0 <? d.1.2).

End Inference.

(* ===================================================================== *)
(** ** The arguments of the model factory *)
(* ===================================================================== *)

(** [_models.__dict__[network](num_classes, box_score_thresh=..., min_size=...,
    max_size=..., box_nms_thresh=...)]: the factory is outside the scripts,
    a construction is the record of its arguments. *)
Record model_request : Type := ModelRequest {
  request_network : string;
  request_num_classes : nat;
  request_box_score_thresh : float;
  request_min_size : Z;
  request_max_size : Z;
  request_box_nms_thresh : float
}.

(** The text "background" that both scripts insert at index 0. *)
Definition background : str := str_of_string "background".

(* ===================================================================== *)
(** ** predict_spin.py *)
(* ===================================================================== *)

Module PredictSpin.
Import Inference.

Record Args : Type := {
  s3_bucket_name : option string;
  model_path : option string;
  network : string;
  threshold : float
}.

(** One turn of the acquisition loop, as the outside world decides it:
    [get_newest_image] returns [None], or an image comes with the model's
    output for it and with whether escape was pressed during the pause. *)
Inductive frame : Type :=
| NoImage
| Image (o : detections) (escape : bool).

(** What [main] reads from outside: the label file ([None] when
    [os.path.isfile] is false, else the text [read()] returns), the newest
    saved model, the number of cameras, the frames of the first camera. *)
Record Env : Type := {
  label_file : option str;
  newest_saved_model_path : option string;
  num_cameras : nat;
  frames : list frame
}.

(** [while continue_streaming[0]: ...] *)
Fixpoint stream (labels : list str) (threshold : float) (fs : list frame)
  : result (list draw_call) :=
  match fs with
  | [] => mret []
  | NoImage :: _ => mret []
  | Image o escape :: fs' =>
      d ← render labels o threshold;
      ds ← (if escape then mret [] else stream labels threshold fs');
      mret (d :: ds)
  end.

(** [display_images(cam, labels, network_type, saved_model_file_path,
    threshold)]: the model it constructs and the boxes it draws. *)
Definition display_images (fs : list frame) (labels : list str)
    (network_type : string) (threshold : float)
  : result (model_request * list draw_call) :=
  let model := ModelRequest network_type (length labels) threshold 600 800 0.3%float in
  ds ← stream labels threshold fs;
  mret (model, ds).

Inductive outcome : Type :=
| MissingFile
| NoLabelCategories
| NoSavedModel
| NotEnoughCameras
| Exiting (labels : list str) (model : model_request) (drawn : list draw_call).

Definition main (args : Args) (env : Env) : result outcome :=
  match label_file env with
  | None => mret MissingFile
  | Some text =>
      let labels := splitlines text in
      if bool_decide (length labels = 0%nat) then mret NoLabelCategories
      else
        let labels := background :: labels in
        let saved_model_file_path :=
          match model_path args with
          | Some p => Some p
          | None => newest_saved_model_path env
          end in
        match saved_model_file_path with
        | None => mret NoSavedModel
        | Some _ =>
            if bool_decide (num_cameras env = 0%nat) then mret NotEnoughCameras
            else
              '(model, drawn) ← display_images (frames env) labels
                                   (network args) (threshold args);
              mret (Exiting labels model drawn)
        end
  end.

(** [main] constructed a model with these labels. *)
Definition constructs (r : result outcome) (labels : list str) (m : model_request)
  : Prop :=
  ∃ drawn, r = Return (Exiting labels m drawn).

End PredictSpin.

(* ===================================================================== *)
(** ** visualize.py *)
(* ===================================================================== *)

Module Visualize.
Import Inference.

Record Args : Type := {
  s3_bucket_name : option string;
  manifest_path : option string;
  model_path : option string;
  network : string;
  threshold : float
}.

(** An item of the data set: the ground truth of the image and the model's
    output for it. *)
Record item : Type := {
  target_boxes : list box;
  target_labels : list Z;
  outputs : detections
}.

Record Env : Type := {
  label_file : option str;
  newest_manifest_path : option string;
  newest_saved_model_path : option string;
  dataset : list str → list item
}.

(** The body of [for data in dataset]: the ground-truth call of
    [draw_bboxes] (no scores), then the inference one. *)
Definition show (labels : list str) (threshold : float) (d : item)
  : result (draw_call * draw_call) :=
  let truth := DrawBboxes (target_boxes d) (target_labels d) labels [] in
  inferred ← render labels (outputs d) threshold;
  mret (truth, inferred).

Fixpoint for_dataset (labels : list str) (threshold : float) (ds : list item)
  : result (list (draw_call * draw_call)) :=
  match ds with
  | [] => mret []
  | d :: ds' =>
      x ← show labels threshold d;
      xs ← for_dataset labels threshold ds';
      mret (x :: xs)
  end.

Inductive outcome : Type :=
| MissingFile
| NoLabelCategories
| NoManifest
| NoSavedModel
| Complete (labels : list str) (model : model_request)
           (drawn : list (draw_call * draw_call)).

Definition main (args : Args) (env : Env) : result outcome :=
  match label_file env with
  | None => mret MissingFile
  | Some text =>
      let labels := splitlines text in
      if bool_decide (length labels = 0%nat) then mret NoLabelCategories
      else
        let labels := background :: labels in
        let manifest_file_path :=
          match manifest_path args with
          | Some p => Some p
          | None => newest_manifest_path env
          end in
        match manifest_file_path with
        | None => mret NoManifest
        | Some _ =>
            let saved_model_file_path :=
              match model_path args with
              | Some p => Some p
              | None => newest_saved_model_path env
              end in
            match saved_model_file_path with
            | None => mret NoSavedModel
            | Some _ =>
                let num_classes := length labels in
                let data := dataset env labels in
                let model := ModelRequest (network args) num_classes
                               (threshold args) 600 800 0.3%float in
                drawn ← for_dataset labels (threshold args) data;
                mret (Complete labels model drawn)
            end
        end
  end.

Definition constructs (r : result outcome) (labels : list str) (m : model_request)
  : Prop :=
  ∃ drawn, r = Return (Complete labels m drawn).

End Visualize.

(* ===================================================================== *)
(** ** _hparams: the sampling primitives *)
(* ===================================================================== *)

Module Hparams.

(** A literal or sampled value of an option. *)
Inductive value : Type :=
| NoneV
| Bool (b : bool)
| Int (z : Z)
| Float (x : R).

(** The number a value stands for, as [==] and [<=] read it. *)
Definition number (v : value) : option R :=
  match v with
  | Int z => Some (IZR z)
  | Float x => Some x
  | _ => None
  end.

(** The keyword arguments of a constructor, and the attributes an object
    reports: a [dict] in insertion order. *)
Definition kwargs : Type := list (string * value).

(** Modelled from the spec: the distributions of [_hparams], which is not
    among the sources.  [Const] is a literal alternative of a choice. *)
Inductive hparam : Type :=
| Const (v : value)
| RandomUniform (min_val max_val : R)
| RandomExponential (min_val max_val : R)
| RandomExponentialDiff (scale min_val max_val : R)
| RandomInt (min_val max_val : Z)
| RandomHPChoices (choices : list hparam).

(** The process-wide random source: the [k]-th draw as a fraction of the
    unit interval and as a natural number. *)
Record Random : Type := {
  fraction : nat → R;
  natural : nat → nat
}.

Definition unit_interval (src : Random) : Prop :=
  ∀ k, (0 <= fraction src k <= 1)%R.

(** The state of the source: the number of draws made so far. *)
Definition Sampler (A : Type) : Type := St nat A.

(** uniform(a, b) *)
Definition uniform (src : Random) (a b : R) : Sampler R :=
  λ k, (Return (a + (b - a) * fraction src k)%R, S k).

(** An index below [n]. *)
Definition randbelow (src : Random) (n : nat) : Sampler nat :=
  λ k, (Return (natural src k mod n)%nat, S k).

(** Modelled from the spec: one alternative of a choice, uniformly at
    random; an empty sequence has none. *)
Definition choose {A} (src : Random) (choices : list A) : Sampler A :=
  i ← randbelow src (length choices);
  lift (getitem choices i).

(** Modelled from the spec: [sample()] of each distribution.
    [RandomExponential] is exp(uniform(log(min), log(max))),
    [RandomExponentialDiff] is scale - exp(uniform(log(min), log(max))),
    a choice picks one alternative and resolves it when it is itself a
    distribution. *)
Fixpoint get_next (src : Random) (h : hparam) {struct h} : Sampler value :=
  match h with
  | Const v => mret v
  | RandomUniform min_val max_val =>
      x ← uniform src min_val max_val; mret (Float x)
  | RandomExponential min_val max_val =>
      x ← uniform src (ln min_val) (ln max_val); mret (Float (exp x))
  | RandomExponentialDiff scale min_val max_val =>
      x ← uniform src (ln min_val) (ln max_val); mret (Float (scale - exp x))
  | RandomInt min_val max_val =>
      i ← randbelow src (Z.to_nat (max_val - min_val + 1));
      mret (Int (min_val + Z.of_nat i))
  | RandomHPChoices choices =>
      i ← randbelow src (length choices);
      (fix pick (l : list hparam) (i : nat) : Sampler value :=
         match l, i with
         | [], _ => raise IndexError
         | c :: _, O => get_next src c
         | _ :: l', S i' => pick l' i'
         end) choices i
  end.

(** Modelled from the spec: a [HyperparameterSpec], the kind of an
    optimizer or of a scheduler with the distribution of each option. *)
Record Spec : Type := {
  name : string;
  options : list (string * hparam)
}.

(** Modelled from the spec: every option's distribution is sampled exactly
    once, in the order of the options. *)
Fixpoint resolve (src : Random) (opts : list (string * hparam)) : Sampler kwargs :=
  match opts with
  | [] => mret []
  | (key, h) :: opts' =>
      v ← get_next src h;
      rest ← resolve src opts';
      mret ((key, v) :: rest)
  end.

(** Modelled from the spec: materializing a bound spec resolves its
    options and constructs the object of that kind on the target with
    them; [construct] is the constructor of the optimizer or scheduler
    library. *)
Definition materialize {T O} (src : Random) (construct : string → T → kwargs → O)
    (spec : Spec) (target : T) : Sampler (kwargs * O) :=
  resolved ← resolve src (options spec);
  mret (resolved, construct (name spec) target resolved).

(** Modelled from the spec: the scenario
    [HyperparameterSpec("SGD", {"lr": LogUniform(0.0005, 0.1),
    "momentum": Choice([0, LogUniformOffset(1.0, 0.01, 0.5)])})]. *)
Definition sgd_scenario : Spec :=
  {| name := "SGD";
     options :=
       [ ("lr", RandomExponential 0.0005 0.1);
         ("momentum",
           RandomHPChoices [Const (Int 0); RandomExponentialDiff 1.0 0.01 0.5]) ] |}.

(** [kw[key]] *)
Definition lookup_kw (key : string) (kw : kwargs) : option value :=
  match list_find (λ p, p.1 = key) kw with
  | Some (_, p) => Some p.2
  | None => None
  end.

End Hparams.

(* ===================================================================== *)
(** ** hparam_search.py *)
(* ===================================================================== *)

Module HparamSearch.
Import Hparams.

Record Args : Type := {
  s3_bucket_name : option string;
  network : string;
  num_data_workers : Z;
  num_epochs : Z;
  num_trials : Z
}.

(** The metrics mapping the training function returns. *)
Abbreviation metrics := (gmap string (list float)).

(** [stat_totals]: per metric label, the series of each trial. *)
Abbreviation totals := (gmap string (list (nat * list float))).

(** The message given to [log_and_print], before it is formatted as
    ["Trial [%d]: %s"]. *)
Inductive message : Type :=
| StartTime (run_time : Z)
| ModelIs (network : string)
| OptimizerChoice (name : string)
| OptimizerProperties (defaults : kwargs)
| LRSchedulerChoice (name : string)
| LRSchedulerProperties (attributes : kwargs)
| TrainingFailed (err : string)
| UserInitiatedTermination
| Stat (label : string) (series : list float).

Inductive plot : Type := AP | AR.

Section Search.

(** The objects of the optimizer library. *)
Context {optimizer lr_scheduler : Type}.

(** What happens outside the script, in the order it happens. *)
Inductive event : Type :=
| SyncS3
| LogAndPrint (trial_num : nat) (m : message)
| TrainModel (trial_num : nat) (opt : optimizer) (sched : option lr_scheduler)
             (num_epochs batch_size num_workers : Z)
| Print (text : string)
| CreateOutputDir
| PltPlot (series : list float) (label : nat)
| PltLegend
| PltTitle (label : string)
| PltXlabel (text : string)
| PltSavefig (which : plot)
| PltClf
| LogFileClose
| PltClose
| S3UploadFiles.

(** The state the script threads: the draws made from the random source
    and the events so far, oldest first. *)
Record state : Type := State {
  draws : nat;
  events : list event
}.

Abbreviation M := (St state).

(** The outside world of one session: what the objects of the optimizer
    library report ([optimizer.defaults], [lr_scheduler.__dict__]);
    their constructors [torch.optim.<name>(params, **kwargs)], on the
    parameters of the model of a trial, and
    [torch.optim.lr_scheduler.<name>(optimizer, **kwargs)]; the random
    source; the clock at the start of a trial; the bucket and the
    devices; [train.train_model] as called in trial [i], which returns
    the metrics of the trial or raises; the labels of the two
    statistics, constants of [_settings]; the arguments of the script. *)
Record World : Type := {
  optimizer_defaults : optimizer → kwargs;
  scheduler_dict : lr_scheduler → kwargs;
  torch_optim : string → nat → kwargs → optimizer;
  torch_lr_scheduler : string → optimizer → kwargs → lr_scheduler;
  src : Random;
  time_time : nat → Z;
  s3_bucket_exists : bool;
  cuda_device_count : Z;
  train_model : nat → optimizer → option lr_scheduler → result metrics;
  AVERAGE_PRECISION_STAT_LABEL : string;
  AVERAGE_RECALL_STAT_LABEL : string;
  args : Args
}.

Variable w : World.

Definition emit (e : event) : M () :=
  λ st, (Return (), State (draws st) (events st ++ [e])).

Definition sample {A} (x : Sampler A) : M A :=
  λ st, let '(r, k) := x (draws st) in (r, State k (events st)).

Definition log_and_print (trial_num : nat) (m : message) : M () :=
  emit (LogAndPrint trial_num m).

(** The search space of the script. *)
Definition weight_decay_choices : hparam :=
  RandomHPChoices [Const (Int 0); Const (Float 1e-2); Const (Float 1e-4)].

Definition sgd : Spec :=
  {| name := "SGD";
     options :=
       [ ("lr", RandomExponential 0.0005 0.1);
         ("momentum",
           RandomHPChoices [Const (Int 0); RandomExponentialDiff 1.0 0.01 0.5]);
         ("weight_decay", weight_decay_choices) ] |}.

Definition adam : Spec :=
  {| name := "Adam";
     options :=
       [ ("lr", RandomExponential 0.0005 0.1);
         ("weight_decay", weight_decay_choices) ] |}.

Definition adamw : Spec :=
  {| name := "AdamW";
     options :=
       [ ("lr", RandomExponential 0.0005 0.1);
         ("weight_decay", weight_decay_choices) ] |}.

Definition optimizer_choices : list Spec := [sgd; adam; adamw].

Definition lr_scheduler_choices : list (option Spec) := [None].

(** [metrics[label]] *)
Definition metrics_getitem (m : metrics) (label : string) : M (list float) :=
  match m !! label with
  | Some series => mret series
  | None => raise (KeyError label)
  end.

(** [stat_totals[label][i] = series] *)
Definition totals_setitem (t : totals) (label : string) (i : nat)
    (series : list float) : M totals :=
  match t !! label with
  | Some per_trial => mret (<[label := dict_setitem i series per_trial]> t)
  | None => raise (KeyError label)
  end.

(** How one turn of the [for] loop ends. *)
Inductive control : Type := Next | Continue | Break.

(** [batch_size = 1 if torch.cuda.device_count() == 0 else 2 * ...] *)
Definition batch_size : Z :=
  if bool_decide (cuda_device_count w = 0) then 1 else 2 * cuda_device_count w.

(** The attributes of the scheduler that are logged:
    [{key: value for key, value in lr_scheduler.__dict__.items()
      if key != "optimizer"}] *)
Definition scheduler_properties (s : lr_scheduler) : kwargs :=
  filter (λ p, p.1 ≠ "optimizer") (scheduler_dict w s).

(** The loop body up to the [try]: the model, the optimizer and the
    scheduler of trial [i], each logged as it is chosen.  The two
    search spaces are arguments, [configure] below is the script's. *)
Definition configure_from (optimizers : list Spec) (schedulers : list (option Spec))
    (i : nat) : M (optimizer * option lr_scheduler) :=
  log_and_print i (StartTime (time_time w i));;
  log_and_print i (ModelIs (network (args w)));;
  optimizer_choice ← sample (choose (src w) optimizers);
  '(_, opt) ← sample (materialize (src w) (torch_optim w) optimizer_choice i);
  log_and_print i (OptimizerChoice (name optimizer_choice));;
  log_and_print i (OptimizerProperties (optimizer_defaults w opt));;
  lr_scheduler_choice ← sample (choose (src w) schedulers);
  match lr_scheduler_choice with
  | Some choice =>
      '(_, sched) ← sample (materialize (src w) (torch_lr_scheduler w) choice opt);
      log_and_print i (LRSchedulerChoice (name choice));;
      log_and_print i (LRSchedulerProperties (scheduler_properties sched));;
      mret (opt, Some sched)
  | None => mret (opt, None)
  end.

Definition configure (i : nat) : M (optimizer * option lr_scheduler) :=
  configure_from optimizer_choices lr_scheduler_choices i.

(** The call [train.train_model(model, dataset, dataset_test, optimizer,
    lr_scheduler, num_epochs=..., batch_size=..., num_workers=...)]. *)
Definition call_train_model (i : nat) (opt : optimizer)
    (sched : option lr_scheduler) : M metrics :=
  emit (TrainModel i opt sched (num_epochs (args w)) batch_size
          (num_data_workers (args w)));;
  lift (train_model w i opt sched).

(** The statements after the [try]: both series are logged, then both
    are stored under the index of the trial. *)
Definition record_metrics (i : nat) (m : metrics) (t : totals) : M totals :=
  ap ← metrics_getitem m (AVERAGE_PRECISION_STAT_LABEL w);
  log_and_print i (Stat (AVERAGE_PRECISION_STAT_LABEL w) ap);;
  ar ← metrics_getitem m (AVERAGE_RECALL_STAT_LABEL w);
  log_and_print i (Stat (AVERAGE_RECALL_STAT_LABEL w) ar);;
  ap ← metrics_getitem m (AVERAGE_PRECISION_STAT_LABEL w);
  t ← totals_setitem t (AVERAGE_PRECISION_STAT_LABEL w) i ap;
  ar ← metrics_getitem m (AVERAGE_RECALL_STAT_LABEL w);
  totals_setitem t (AVERAGE_RECALL_STAT_LABEL w) i ar.

(** The [try] statement with its two handlers, then the statements after
    it.  A handler matches the instances of its class, subclasses
    included, and the first that matches is taken; an exception that is an
    instance of neither [RuntimeError] nor [KeyboardInterrupt] leaves the
    loop. *)
Definition attempt (i : nat) (opt : optimizer) (sched : option lr_scheduler)
    (t : totals) : M (control * totals) :=
  r ← try (call_train_model i opt sched);
  match r with
  | Raise e =>
      if isinstance e "RuntimeError" then
        log_and_print i (TrainingFailed (exn_str e));;
        mret (Continue, t)
      else if isinstance e "KeyboardInterrupt" then
        log_and_print i UserInitiatedTermination;;
        mret (Break, t)
      else raise e
  | Return m =>
      t ← record_metrics i m t;
      mret (Next, t)
  end.

(** The body of [for i in range(args.num_trials)]. *)
Definition trial (i : nat) (t : totals) : M (control * totals) :=
  '(opt, sched) ← configure i;
  attempt i opt sched t.

(** [for i in trials: ...]: the result tells whether the loop ended by
    [break] ([Break]) or by exhausting its indices ([Next]). *)
Fixpoint for_trials (trials : list nat) (t : totals) : M (control * totals) :=
  match trials with
  | [] => mret (Next, t)
  | i :: trials' =>
      '(c, t) ← trial i t;
      match c with
      | Break => mret (Break, t)
      | Next | Continue => for_trials trials' t
      end
  end.

(** [for k, v in stat_totals[label].items(): plt.plot(v, label=str(k))] *)
Fixpoint plot_items (items : list (nat * list float)) : M () :=
  match items with
  | [] => mret ()
  | (k, v) :: items' => emit (PltPlot v k);; plot_items items'
  end.

(** One plot of the report: its lines, legend, title, axis and file. *)
Definition create_plot (t : totals) (label : string) (which : plot) : M () :=
  match t !! label with
  | Some items => plot_items items
  | None => raise (KeyError label)
  end;;
  emit PltLegend;;
  emit (PltTitle label);;
  emit (PltXlabel "Epoch");;
  emit (PltSavefig which).

(** Lines 219-260: the report of the session.  The calls of the plotting
    library, of the file and of S3 are taken to return; what they do is
    the event. *)
Definition report (use_s3 : bool) (t : totals) : M () :=
  emit (Print "Training session complete");;
  emit CreateOutputDir;;
  create_plot t (AVERAGE_PRECISION_STAT_LABEL w) AP;;
  emit PltClf;;
  create_plot t (AVERAGE_RECALL_STAT_LABEL w) AR;;
  emit LogFileClose;;
  emit PltClose;;
  if use_s3 then emit S3UploadFiles else mret ().

(** [stat_totals = {AVERAGE_PRECISION_STAT_LABEL: {}, AVERAGE_RECALL_STAT_LABEL: {}}] *)
Definition empty_totals : totals :=
  <[AVERAGE_RECALL_STAT_LABEL w := []]> (<[AVERAGE_PRECISION_STAT_LABEL w := []]> ∅).

(** The trial loop of the session. *)
Definition trial_loop : M (control * totals) :=
  for_trials (range (num_trials (args w))) empty_totals.

Definition use_s3 : bool :=
  match s3_bucket_name (args w) with
  | Some _ => s3_bucket_exists w
  | None => false
  end.

(** The statements before the loop that leave a trace. *)
Definition prologue : M () :=
  if use_s3 then emit SyncS3 else mret ().

(** [main(args)]; the value returned is [stat_totals] as the report used
    it. *)
Definition main : M totals :=
  prologue;;
  '(_, t) ← trial_loop;
  report use_s3 t;;
  mret t.

(** The events of a report of [t] that runs to its end. *)
Definition plot_events (items : list (nat * list float)) : list event :=
  (λ kv, PltPlot kv.2 kv.1) <$> items.

Definition report_events (ap ar : list (nat * list float)) : list event :=
  [Print "Training session complete"; CreateOutputDir]
  ++ plot_events ap
  ++ [PltLegend; PltTitle (AVERAGE_PRECISION_STAT_LABEL w); PltXlabel "Epoch";
      PltSavefig AP; PltClf]
  ++ plot_events ar
  ++ [PltLegend; PltTitle (AVERAGE_RECALL_STAT_LABEL w); PltXlabel "Epoch";
      PltSavefig AR; LogFileClose; PltClose]
  ++ (if use_s3 then [S3UploadFiles] else []).

(** Running from the start of the process. *)
Definition initial : state := State 0 [].

(** The content of the log file: the messages written, in order. *)
Definition log_file (es : list event) : list (nat * message) :=
  omap (λ e, match e with LogAndPrint i m => Some (i, m) | _ => None end) es.

(** The trials whose training call was made. *)
Definition attempted (es : list event) : list nat :=
  omap (λ e, match e with TrainModel i _ _ _ _ _ => Some i | _ => None end) es.

(** The trials started: those whose start time was logged. *)
Definition started (es : list event) : list nat :=
  omap (λ e, match e with LogAndPrint i (StartTime _) => Some i | _ => None end) es.

(** The state after the events [es]. *)
Definition after (st : state) (es : list event) : state :=
  State (draws st) (events st ++ es).

(** The training call of trial [i], as an event. *)
Definition train_event (i : nat) (opt : optimizer) (sched : option lr_scheduler) : event :=
  TrainModel i opt sched (num_epochs (args w)) batch_size (num_data_workers (args w)).

(** Both labels are keys of the totals. *)
Definition has_labels (t : totals) : Prop :=
  is_Some (t !! AVERAGE_PRECISION_STAT_LABEL w) ∧
  is_Some (t !! AVERAGE_RECALL_STAT_LABEL w).

(** The exceptions that neither handler matches. *)
Definition unhandled (e : exn) : Prop :=
  isinstance e "RuntimeError" = false ∧ isinstance e "KeyboardInterrupt" = false.

(** The totals after the two assignments of a trial. *)
Definition recorded (i : nat) (ap ar : list float) (t : totals) : totals :=
  let t1 := <[AVERAGE_PRECISION_STAT_LABEL w :=
                dict_setitem i ap (default [] (t !! AVERAGE_PRECISION_STAT_LABEL w))]> t in
  <[AVERAGE_RECALL_STAT_LABEL w :=
      dict_setitem i ar (default [] (t1 !! AVERAGE_RECALL_STAT_LABEL w))]> t1.

(** The four messages every trial logs before it trains. *)
Definition configured_events (i : nat) (spec : Spec) (opt : optimizer) : list event :=
  [LogAndPrint i (StartTime (time_time w i));
   LogAndPrint i (ModelIs (network (args w)));
   LogAndPrint i (OptimizerChoice (name spec));
   LogAndPrint i (OptimizerProperties (optimizer_defaults w opt))].

(** The two more it logs when a scheduler was chosen. *)
Definition scheduler_events (i : nat) (choice : Spec) (sched : lr_scheduler) : list event :=
  [LogAndPrint i (LRSchedulerChoice (name choice));
   LogAndPrint i (LRSchedulerProperties (scheduler_properties sched))].

(** The training call of trial [i] does not end the session: it raises a
    [RuntimeError], or it returns metrics with both series. *)
Definition survivable (i : nat) : Prop :=
  ∀ opt sched,
    match train_model w i opt sched with
    | Raise (RuntimeError _) => True
    | Raise _ => False
    | Return m =>
        is_Some (m !! AVERAGE_PRECISION_STAT_LABEL w) ∧
        is_Some (m !! AVERAGE_RECALL_STAT_LABEL w)
    end.

(** The trace of the statements before the loop. *)
Definition prologue_events : list event :=
  if use_s3 then [SyncS3] else [].

(** The session reaches trial [i], after the trials [before] and with the
    trials [rest] still to come, with the totals [t] and in the state [st]:
    no earlier trial has left the loop. *)
Definition reaches (before : list nat) (i : nat) (rest : list nat)
    (t : totals) (st : state) : Prop :=
  range (num_trials (args w)) = before ++ i :: rest ∧
  for_trials before empty_totals (after initial prologue_events) = (Return (Next, t), st).

(** What the [try] statement and the statements after it do, by what the
    training call does. *)
Definition attempt_outcome (i : nat) (opt : optimizer) (sched : option lr_scheduler)
    (t : totals) (st : state) : result (control * totals) * state :=
  let train := train_event i opt sched in
  match train_model w i opt sched with
  | Raise e =>
      if isinstance e "RuntimeError" then
        (Return (Continue, t),
         after st [train; LogAndPrint i (TrainingFailed (exn_str e))])
      else if isinstance e "KeyboardInterrupt" then
        (Return (Break, t), after st [train; LogAndPrint i UserInitiatedTermination])
      else (Raise e, after st [train])
  | Return m =>
      match m !! AVERAGE_PRECISION_STAT_LABEL w, m !! AVERAGE_RECALL_STAT_LABEL w with
      | Some ap, Some ar =>
          (Return (Next, recorded i ap ar t),
           after st [train;
                     LogAndPrint i (Stat (AVERAGE_PRECISION_STAT_LABEL w) ap);
                     LogAndPrint i (Stat (AVERAGE_RECALL_STAT_LABEL w) ar)])
      | Some ap, None =>
          (Raise (KeyError (AVERAGE_RECALL_STAT_LABEL w)),
           after st [train; LogAndPrint i (Stat (AVERAGE_PRECISION_STAT_LABEL w) ap)])
      | None, _ =>
          (Raise (KeyError (AVERAGE_PRECISION_STAT_LABEL w)), after st [train])
      end
  end.

(** The training calls made, each with the index of its trial and with the
    optimizer and scheduler it was given. *)
Definition train_calls (es : list event) : list (nat * optimizer * option lr_scheduler) :=
  omap (λ e, match e with
             | TrainModel i opt sched _ _ _ => Some (i, opt, sched)
             | _ => None
             end) es.

(** [stat_totals[label][i]], when it is there. *)
Definition recorded_series (t : totals) (label : string) (i : nat) : option (list float) :=
  per ← t !! label; dict_get i per.

(** The training call of trial [i] was made and returned normally, with
    [series] under [label]. *)
Definition returned_series (es : list event) (label : string) (i : nat)
    (series : list float) : Prop :=
  ∃ opt sched m,
    (i, opt, sched) ∈ train_calls es ∧
    train_model w i opt sched = Return m ∧
    m !! label = Some series.

(** The totals hold, under both labels, the series of exactly the training
    calls that returned; each trial trained at most once, and what returned
    had both series. *)
Definition totals_inv (t : totals) (es : list event) : Prop :=
  has_labels t ∧
  NoDup (attempted es) ∧
  (∀ i opt sched m,
     (i, opt, sched) ∈ train_calls es → train_model w i opt sched = Return m →
     is_Some (m !! AVERAGE_PRECISION_STAT_LABEL w) ∧
     is_Some (m !! AVERAGE_RECALL_STAT_LABEL w)) ∧
  ∀ label,
    label = AVERAGE_PRECISION_STAT_LABEL w ∨ label = AVERAGE_RECALL_STAT_LABEL w →
    ∀ i series,
      recorded_series t label i = Some series ↔ returned_series es label i series.

End Search.

End HparamSearch.

(* ===================================================================== *)
(** ** A concrete session, for the examples *)
(* ===================================================================== *)

Module Demo.
Import Hparams HparamSearch.

(** An optimizer in the manner of [torch.optim.SGD]: it keeps the keyword
    arguments it was given, and its [defaults] report them together with
    the defaults the constructor fills in itself. *)
Record optimizer : Type := { kind : string; given : kwargs }.

Definition torch_optim (name : string) (trial : nat) (kw : kwargs) : optimizer :=
  {| kind := name; given := kw |}.

Definition optimizer_defaults (o : optimizer) : kwargs :=
  given o ++ [("dampening", Int 0); ("nesterov", Bool false)].

Record lr_scheduler : Type := { scheduler_kind : string; attributes : kwargs }.

Definition torch_lr_scheduler (name : string) (o : optimizer) (kw : kwargs)
  : lr_scheduler :=
  {| scheduler_kind := name; attributes := ("optimizer", NoneV) :: kw |}.

Definition scheduler_dict (s : lr_scheduler) : kwargs := attributes s.

(** A random source whose every draw is the least one. *)
Definition src : Random := {| fraction := λ _, 0%R; natural := λ _, 0%nat |}.

Definition precision : string := "average precision".
Definition recall : string := "average recall".

Definition series (i : nat) : metrics :=
  <[recall := [0.25; 0.5]%float]> (<[precision := [0.5; 0.75]%float]> ∅).

(** The training function of a session whose trial [bad] raises [e]. *)
Definition train_model (bad : nat) (e : exn) (i : nat) (o : optimizer)
    (s : option lr_scheduler) : result metrics :=
  if bool_decide (i = bad) then Raise e else Return (series i).

Definition args (n : Z) : Args :=
  {| s3_bucket_name := None; network := "fasterrcnn_resnet50";
     num_data_workers := 1; num_epochs := 10; num_trials := n |}.

(** The world of a session of [n] trials whose trial [bad] raises [e]. *)
Definition world (n : Z) (bad : nat) (e : exn) : World :=
  {| HparamSearch.optimizer_defaults := optimizer_defaults;
     HparamSearch.scheduler_dict := scheduler_dict;
     HparamSearch.torch_optim := torch_optim;
     HparamSearch.torch_lr_scheduler := torch_lr_scheduler;
     HparamSearch.src := src;
     time_time := λ i, 1600000000 + Z.of_nat i;
     s3_bucket_exists := false;
     cuda_device_count := 0;
     HparamSearch.train_model := train_model bad e;
     AVERAGE_PRECISION_STAT_LABEL := precision;
     AVERAGE_RECALL_STAT_LABEL := recall;
     HparamSearch.args := args n |}.

Definition session (n : Z) (bad : nat) (e : exn) : result totals * state :=
  main (world n bad e) initial.


End Demo.

(* ===================================================================== *)
(** ** hparam_search.py: what a session leaves behind *)
(* ===================================================================== *)

Module SearchTrace.
Import Hparams HparamSearch.

Section Trace.
Context {optimizer lr_scheduler : Type}.
Variable w : @World optimizer lr_scheduler.

(** What one training call adds to [stat_totals[label]]: the series it
    returned under the label, keyed by its trial; nothing when it raised. *)
Definition contribution (label : string)
    (c : nat * optimizer * option lr_scheduler) : option (nat * list float) :=
  match train_model w c.1.1 c.1.2 c.2 with
  | Return m => (λ series, (c.1.1, series)) <$> m !! label
  | Raise _ => None
  end.

(** The contributions of the training calls of a trace, in their order. *)
Definition contributions (label : string) (es : list event) : list (nat * list float) :=
  omap (contribution label) (train_calls es).

(** An event of trial [i] of the script: a message logged under [i] that
    is not about a scheduler, or the training call of [i] without a
    scheduler. *)
Definition trial_event (i : nat) (e : @event optimizer lr_scheduler) : Prop :=
  match e with
  | LogAndPrint j (LRSchedulerChoice _ | LRSchedulerProperties _) => False
  | LogAndPrint j _ => j = i
  | TrainModel j _ None _ _ _ => j = i
  | _ => False
  end.

(** The index an event carries, when it is an event of a trial. *)
Definition event_trial (e : @event optimizer lr_scheduler) : option nat :=
  match e with
  | LogAndPrint j _ => Some j
  | TrainModel j _ _ _ _ _ => Some j
  | _ => None
  end.

(** The labels of the lines plotted, in the order of the [plt.plot] calls. *)
Definition plotted (es : list (@event optimizer lr_scheduler)) : list nat :=
  omap (λ e, match e with PltPlot _ k => Some k | _ => None end) es.

(** The events of the report and of the S3 transfers. *)
Definition reporting_event (e : @event optimizer lr_scheduler) : Prop :=
  match e with
  | LogAndPrint _ _ | TrainModel _ _ _ _ _ _ => False
  | _ => True
  end.

(** From its training call on, trial [i] raises [e] past both handlers:
    the call raises [e], an instance of neither class handled; or it
    returns metrics that lack one of the two series, and [e] is the
    [KeyError] of the lookup after the [try]. *)
Definition raises_past_handlers (i : nat) (opt : optimizer) (e : exn) : Prop :=
  match train_model w i opt None with
  | Raise e' => e' = e ∧ unhandled e
  | Return m =>
      match m !! AVERAGE_PRECISION_STAT_LABEL w, m !! AVERAGE_RECALL_STAT_LABEL w with
      | Some _, Some _ => False
      | Some _, None => e = KeyError (AVERAGE_RECALL_STAT_LABEL w)
      | None, _ => e = KeyError (AVERAGE_PRECISION_STAT_LABEL w)
      end
  end.

(** Under both labels the totals are the contributions of the training
    calls made so far. *)
Definition items_inv (t : totals) (es : list event) : Prop :=
  ∀ label,
    label = AVERAGE_PRECISION_STAT_LABEL w ∨ label = AVERAGE_RECALL_STAT_LABEL w →
    t !! label = Some (contributions label es).

End Trace.

End SearchTrace.

(* ===================================================================== *)
(** ** The display loops: malformed outputs *)
(* ===================================================================== *)

Module Malformed.
Import Inference.

(** The comprehension cannot read what it needs at index [j]: there is no
    score there, or the score passes the threshold, as torch compares the
    two, and there is no label there. *)
Definition missing_at (o : detections) (threshold : float) (j : nat) : bool :=
  match scores o !! j with
  | None => true
  | Some s => tensor_gt s threshold && bool_decide (labels o !! j = None)
  end.

(** Some index of a box is one the comprehension cannot read. *)
Definition unreadable (o : detections) (threshold : float) : bool :=
  existsb (missing_at o threshold) (seq 0 (length (boxes o))).

End Malformed.

(* ===================================================================== *)
(** ** predict_spin.py: the camera *)
(* ===================================================================== *)

(** The script with the calls it makes on the camera system, in their
    order.  The messages it prints are left out, the one of the handler of
    [get_newest_image] apart.  The calls to the outside are taken to
    return, those of [get_newest_image] apart, which meet what an
    [acquisition] says. *)
Module Spin.
Import Inference.

Record Args : Type := {
  s3_bucket_name : option string;
  model_path : option string;
  network : string;
  threshold : float;
  frame_rate : float
}.

Inductive event : Type :=
| S3DownloadHighestNumberedFile (bucket : string)
| SystemGetInstance
| SystemGetCameras
| CamListClear
| SystemReleaseInstance
| Input
| CamInit
| CamDeInit
| StreamBufferHandlingMode (entry : string)
| StreamBufferCountMode (entry : string)
| StreamBufferCountManual (n : Z)
| AcquisitionFrameRateEnable (b : bool)
| AcquisitionFrameRate (r : float)
| LoadModel (m : model_request) (path : string)
| AcquisitionModeContinuous
| BeginAcquisition
| EndAcquisition
| GetNextImage
| ImageRelease
| PrintErr (err : string)
| DrawBboxesOnAxes (call : draw_call).

(** What one call of [get_newest_image] meets: [cam.GetNextImage()] raises;
    it returns an image and the construction of the [RGB8Image] raises; or
    the image is retrieved, and then comes with the model's output for it
    and the keys pressed during the pause of the turn. *)
Inductive acquisition : Type :=
| GetNextImageRaises (e : exn)
| RGB8ImageRaises (e : exn)
| Retrieved (o : detections) (keys : list string).

(** What [main] reads from outside: whether a bucket exists, the label file
    ([None] when [os.path.isfile] is false, else the text [read()]
    returns), the newest saved model, the number of cameras, the highest
    frame rate of the first camera, and what the successive calls of
    [get_newest_image] meet, as far as the session is observed. *)
Record Env : Type := {
  s3_bucket_exists : string → bool;
  label_file : option str;
  newest_saved_model_path : option string;
  num_cameras : nat;
  acquisition_frame_rate_max : float;
  acquisitions : list acquisition
}.

Abbreviation M := (St (list event)).

Definition emit (e : event) : M () := λ tr, (Return (), tr ++ [e]).

(** [get_newest_image(cam, pixel_format)]; its handler matches the
    instances of [ValueError], subclasses included. *)
Definition get_newest_image (a : acquisition) : M (option (detections * list string)) :=
  r ← try (match a with
           | GetNextImageRaises e => raise e
           | RGB8ImageRaises e => emit GetNextImage;; raise e
           | Retrieved o keys => emit GetNextImage;; emit ImageRelease;; mret (o, keys)
           end);
  match r with
  | Return retrieved_image => mret (Some retrieved_image)
  | Raise e =>
      if isinstance e "ValueError" then emit (PrintErr (exn_str e));; mret None
      else raise e
  end.

(** [key_press(event, continue_streaming)], on [continue_streaming[0]]. *)
Definition key_press (key : string) (continue_streaming : bool) : bool :=
  if bool_decide (key = "escape") then false else continue_streaming.

(** [min(a, b)] on two floats: [b] when [b < a], else [a]. *)
Definition py_min (a b : float) : float := if PrimFloat.ltb b a then b else a.

(** [apply_camera_settings(cam, framerate)] *)
Definition apply_camera_settings (env : Env) (framerate : float) : M () :=
  emit (StreamBufferHandlingMode "NewestOnly");;
  emit (StreamBufferCountMode "Manual");;
  emit (StreamBufferCountManual 3);;
  emit (AcquisitionFrameRateEnable true);;
  emit (AcquisitionFrameRate (py_min framerate (acquisition_frame_rate_max env))).

(** [while continue_streaming[0]: ...], entered with the flag set.  The
    result tells whether the loop ended: [false] when what is observed of
    the session is used up and the loop still runs. *)
Fixpoint stream (labels : list str) (threshold : float) (acqs : list acquisition)
  : M bool :=
  match acqs with
  | [] => mret false
  | a :: acqs' =>
      retrieved_image ← get_newest_image a;
      match retrieved_image with
      | None => mret true
      | Some (o, keys) =>
          call ← lift (render labels o threshold);
          emit (DrawBboxesOnAxes call);;
          if foldl (λ c key, key_press key c) true keys
          then stream labels threshold acqs'
          else mret true
      end
  end.

(** [display_images(cam, labels, network_type, saved_model_file_path,
    threshold)] *)
Definition display_images (env : Env) (labels : list str) (network_type : string)
    (saved_model_file_path : string) (threshold : float) : M bool :=
  emit (LoadModel (ModelRequest network_type (length labels) threshold 600 800 0.3%float)
          saved_model_file_path);;
  emit AcquisitionModeContinuous;;
  emit BeginAcquisition;;
  ended ← stream labels threshold (acquisitions env);
  if ended : bool then emit EndAcquisition;; mret true else mret false.

Inductive outcome : Type :=
| MissingFile
| NoLabelCategories
| NoSavedModel
| NotEnoughCameras
| Exiting
| Streaming.

(** [main(args)]; [apply_camera_settings(cam)] is called with the default
    of its [framerate], 30.0. *)
Definition main (args : Args) (env : Env) : M outcome :=
  match s3_bucket_name args with
  | Some bucket =>
      if s3_bucket_exists env bucket
      then emit (S3DownloadHighestNumberedFile bucket)
      else mret ()
  | None => mret ()
  end;;
  match label_file env with
  | None => mret MissingFile
  | Some text =>
      let labels := splitlines text in
      if bool_decide (length labels = 0%nat) then mret NoLabelCategories
      else
        let labels := background :: labels in
        let saved_model_file_path :=
          match model_path args with
          | Some p => Some p
          | None => newest_saved_model_path env
          end in
        match saved_model_file_path with
        | None => mret NoSavedModel
        | Some saved_model_file_path =>
            emit SystemGetInstance;;
            emit SystemGetCameras;;
            if bool_decide (num_cameras env = 0%nat) then
              emit CamListClear;;
              emit SystemReleaseInstance;;
              emit Input;;
              mret NotEnoughCameras
            else
              emit CamInit;;
              apply_camera_settings env 30.0%float;;
              ended ← display_images env labels (network args) saved_model_file_path
                        (threshold args);
              if ended : bool then
                emit CamDeInit;;
                emit CamListClear;;
                emit SystemReleaseInstance;;
                mret Exiting
              else mret Streaming
        end
  end.

(** The same call of the system, for the calls without arguments. *)
Definition same (k e : event) : bool :=
  match k, e with
  | SystemGetInstance, SystemGetInstance
  | SystemGetCameras, SystemGetCameras
  | CamListClear, CamListClear
  | SystemReleaseInstance, SystemReleaseInstance
  | CamInit, CamInit
  | CamDeInit, CamDeInit
  | BeginAcquisition, BeginAcquisition
  | EndAcquisition, EndAcquisition
  | GetNextImage, GetNextImage
  | ImageRelease, ImageRelease => true
  | _, _ => false
  end.

(** A trace read for one resource, taken by [acquire] and given back by
    [release], from [h], whether it is held: [None] when the trace takes
    what is held or gives back what is not; else whether the resource is
    held at the end. *)
Fixpoint holds (acquire release : event) (h : bool) (tr : list event) : option bool :=
  match tr with
  | [] => Some h
  | e :: tr' =>
      if same acquire e then
        if h then None else holds acquire release true tr'
      else if same release e then
        if h then holds acquire release false tr' else None
      else holds acquire release h tr'
  end.

(** The events of the acquisition loop. *)
Definition loop_event (e : event) : bool :=
  match e with
  | GetNextImage | ImageRelease | PrintErr _ | DrawBboxesOnAxes _ => true
  | _ => false
  end.

(** The [draw_bboxes] calls of a trace, in their order. *)
Definition drawn (tr : list event) : list draw_call :=
  omap (λ e, match e with DrawBboxesOnAxes call => Some call | _ => None end) tr.

(** The frame rates set in a trace. *)
Definition frame_rates (tr : list event) : list float :=
  omap (λ e, match e with AcquisitionFrameRate r => Some r | _ => None end) tr.

(** The turn of the loop as [PredictSpin] sees it. *)
Definition frame_of (a : acquisition) : PredictSpin.frame :=
  match a with
  | Retrieved o keys => PredictSpin.Image o (bool_decide ("escape" ∈ keys))
  | _ => PredictSpin.NoImage
  end.

(** A turn during whose pause escape was not pressed. *)
Definition no_escape (a : acquisition) : Prop :=
  match a with
  | Retrieved _ keys => "escape" ∉ keys
  | _ => True
  end.

(** The turn on [a] ends the loop before anything is drawn, with [r]: no
    image is retrieved, by an instance of [ValueError] that the handler
    turns into [None] or by another exception, that leaves the loop; or
    the comprehension raises on the output for the image. *)
Definition stops (labels : list str) (threshold : float) (a : acquisition)
    (r : result bool) : Prop :=
  match a with
  | GetNextImageRaises e | RGB8ImageRaises e =>
      if isinstance e "ValueError" then r = Return true else r = Raise e
  | Retrieved o _ =>
      match render labels o threshold with
      | Return _ => False
      | Raise e => r = Raise e
      end
  end.

(** The events [evs] of a run of the loop over [acqs] that ends with [r]:
    the frames drawn are the first turns, in their order, each retrieved
    and rendered, escape pressed in none but at most the last; the loop
    still runs when the turns are used up; it ended on escape during the
    pause of the last frame drawn; or the turn after the last frame drawn
    stopped it. *)
Definition loop_trace (labels : list str) (threshold : float)
    (acqs : list acquisition) (r : result bool) (evs : list event) : Prop :=
  let n := length (drawn evs) in
  Forall (λ e, loop_event e = true) evs ∧
  (∃ b, holds GetNextImage ImageRelease false evs = Some b ∧
        (r = Return false → b = false)) ∧
  Forall2 (λ a call, ∃ o keys, a = Retrieved o keys ∧
                               render labels o threshold = Return call)
    (take n acqs) (drawn evs) ∧
  Forall no_escape (take (pred n) acqs) ∧
  ((r = Return false ∧ n = length acqs ∧ Forall no_escape acqs) ∨
   (r = Return true ∧
    ∃ o keys, acqs !! pred n = Some (Retrieved o keys) ∧ (0 < n)%nat ∧
              "escape" ∈ keys) ∨
   (Forall no_escape (take n acqs) ∧
    ∃ a, acqs !! n = Some a ∧ stops labels threshold a r)).

(** An acquisition that raises nothing but an instance of [ValueError]. *)
Definition only_value_error (a : acquisition) : Prop :=
  match a with
  | GetNextImageRaises e | RGB8ImageRaises e => isinstance e "ValueError" = true
  | Retrieved _ _ => True
  end.

(** The arguments and the outside of [main] as [PredictSpin] has them. *)
Definition args_of (args : Args) : PredictSpin.Args :=
  {| PredictSpin.s3_bucket_name := s3_bucket_name args;
     PredictSpin.model_path := model_path args;
     PredictSpin.network := network args;
     PredictSpin.threshold := threshold args |}.

Definition env_of (env : Env) : PredictSpin.Env :=
  {| PredictSpin.label_file := label_file env;
     PredictSpin.newest_saved_model_path := newest_saved_model_path env;
     PredictSpin.num_cameras := num_cameras env;
     PredictSpin.frames := frame_of <$> acquisitions env |}.

End Spin.

(** A camera session to run. *)
Module SpinDemo.
Import Inference Spin.

Definition args (rate : float) : Args :=
  {| s3_bucket_name := Some "bucket";
     model_path := None;
     network := "fasterrcnn_resnet50";
     threshold := 0.5%float;
     frame_rate := rate |}.

(** A confident detection and a background box. *)
Definition detected : detections :=
  Detections [(0, 0, 10, 10)%float; (5, 5, 9, 9)%float] [2; 0] [0.9; 0.8]%float.

(** A confident score without a label. *)
Definition unlabelled : detections :=
  Detections [(0, 0, 10, 10)%float] [] [0.9%float].

(** Two labels in the file, one camera, of at most 24 frames a second. *)
Definition env (acqs : list acquisition) : Env :=
  {| s3_bucket_exists := λ _, true;
     label_file := Some (str_of_string "cat" ++ [10%N] ++ str_of_string "dog");
     newest_saved_model_path := Some "model_3.pt";
     num_cameras := 1;
     acquisition_frame_rate_max := 24.0%float;
     acquisitions := acqs |}.

End SpinDemo.

(* ===================================================================== *)
(** * Properties *)
(* ===================================================================== *)

(** ** Python built-ins *)

Section PyFacts.
Import Py.

Lemma getitem_Some {A} (l : list A) j a : l !! j = Some a → getitem l j = Return a.
Proof. intros H. unfold getitem. by rewrite H. Qed.

Lemma splitlines_from_nonempty line s :
  line ≠ [] ∨ s ≠ [] → splitlines_from line s ≠ [].
Proof.
  revert line. induction s as [|c s IH]; intros line [H|H]; simpl.
  - by destruct line.
  - done.
  - destruct (is_linebreak c); [done|].
    apply IH. left. by destruct line.
  - destruct (is_linebreak c); [done|].
    apply IH. left. by destruct line.
Qed.

(** A text that is not empty has at least one line. *)
Lemma splitlines_nonempty s : s ≠ [] → splitlines s ≠ [].
Proof. intros H. apply splitlines_from_nonempty. by right. Qed.

Lemma splitlines_empty : splitlines [] = [].
Proof. reflexivity. Qed.

Lemma splitlines_nil_inv s : splitlines s = [] → s = [].
Proof.
  intros H. destruct s as [|c s]; [done|].
  by destruct (splitlines_nonempty (c :: s)).
Qed.

Lemma unpack3_zip_star_cons {A B C} (r : A * B * C) rows :
  unpack3_zip_star (r :: rows) =
    Return ((λ r, r.1.1) <$> (r :: rows), (λ r, r.1.2) <$> (r :: rows),
            (λ r, r.2) <$> (r :: rows)).
Proof. reflexivity. Qed.

(** Without its guard, the unpacking of no row at all raises. *)
Lemma unpack3_zip_star_nil {A B C} :
  ∃ e, unpack3_zip_star (@nil (A * B * C)) = Raise e.
Proof. eexists. reflexivity. Qed.

Lemma dict_get_setitem_eq {V} (k : nat) (v : V) d :
  dict_get k (dict_setitem k v d) = Some v.
Proof.
  induction d as [|[k' v'] d IH]; simpl.
  - by rewrite bool_decide_eq_true_2.
  - case_bool_decide as Hk; simpl.
    + by rewrite bool_decide_eq_true_2.
    + by rewrite bool_decide_eq_false_2.
Qed.

Lemma dict_get_setitem_ne {V} (j k : nat) (v : V) d :
  j ≠ k → dict_get j (dict_setitem k v d) = dict_get j d.
Proof.
  intros Hjk. induction d as [|[k' v'] d IH]; simpl.
  - by rewrite bool_decide_eq_false_2.
  - case_bool_decide as Hk; simpl.
    + subst k'. by rewrite !bool_decide_eq_false_2.
    + case_bool_decide; [done|apply IH].
Qed.

End PyFacts.

(** ** The filter of the display loops *)

Section InferenceFacts.
Import Inference.

Lemma outputs_of_lookup o j b l s :
  outputs_of o !! j = Some (b, l, s) ↔
  boxes o !! j = Some b ∧ labels o !! j = Some l ∧ scores o !! j = Some s.
Proof.
  unfold outputs_of. split.
  - intros H. apply lookup_zip_with_Some in H as ([b' l'] & s' & Heq & H1 & H2).
    apply lookup_zip_with_Some in H1 as (b'' & l'' & Heq' & H3 & H4).
    simplify_eq. done.
  - intros (Hb & Hl & Hs). apply lookup_zip_with_Some.
    exists (b, l), s. split_and!; [done| |done].
    apply lookup_zip_with_Some. by exists b, l.
Qed.

Lemma length_outputs_of o :
  well_formed o → length (outputs_of o) = length (boxes o).
Proof.
  intros [Hl Hs]. unfold outputs_of. rewrite !length_zip_with. lia.
Qed.

Lemma filtered_at_lookup o threshold j d :
  outputs_of o !! j = Some d →
  filtered_at o threshold j = Return (if passes threshold d then Some d else None).
Proof.
  destruct d as [[b l] s]. intros (Hb & Hl & Hs)%outputs_of_lookup.
  unfold filtered_at, passes. simpl.
  rewrite (getitem_Some _ _ _ Hs). simpl.
  destruct (tensor_gt s threshold); simpl; [|done].
  rewrite (getitem_Some _ _ _ Hl). simpl.
  destruct (0 <? l); simpl; [|done].
  by rewrite (getitem_Some _ _ _ Hb).
Qed.

Lemma comprehension_seq o threshold n a :
  (a + n ≤ length (outputs_of o))%nat →
  comprehension o threshold (seq a n) =
    Return (filter (λ d, Is_true (passes threshold d)) (take n (drop a (outputs_of o)))).
Proof.
  revert a. induction n as [|n IH]; intros a Hlen; simpl.
  - done.
  - destruct (lookup_lt_is_Some_2 (outputs_of o) a) as [d Hd]; [lia|].
    rewrite (filtered_at_lookup _ _ _ _ Hd). simpl.
    rewrite IH by lia. simpl.
    rewrite (drop_S _ _ _ Hd). simpl.
    rewrite filter_cons. by destruct (passes threshold d).
Qed.

(** The comprehension is the filter of the model's outputs, in their
    order. *)
Lemma filtered_output_filter o threshold :
  well_formed o →
  filtered_output o threshold =
    Return (filter (λ d, Is_true (passes threshold d)) (outputs_of o)).
Proof.
  intros Hwf. unfold filtered_output, range.
  rewrite Nat2Z.id, comprehension_seq by (rewrite length_outputs_of; [lia|done]).
  rewrite drop_0, take_ge; [done|]. by rewrite length_outputs_of.
Qed.

Lemma passes_spec threshold d :
  Is_true (passes threshold d) ↔ tensor_gt d.2 threshold = true ∧ 0 < d.1.2.
Proof.
  unfold passes. rewrite andb_True, Is_true_true.
  by rewrite (Is_true_true (0 <? _)), Z.ltb_lt.
Qed.

(** The unzip step never raises. *)
Lemma inference_unzip_returns filtered :
  inference_unzip filtered =
    Return ((λ r, r.1.1) <$> filtered, (λ r, r.1.2) <$> filtered, (λ r, r.2) <$> filtered).
Proof. by destruct filtered. Qed.

Lemma render_returns label_names o threshold :
  well_formed o →
  render label_names o threshold =
    let kept := filter (λ d, Is_true (passes threshold d)) (outputs_of o) in
    Return (DrawBboxes ((λ r, r.1.1) <$> kept) ((λ r, r.1.2) <$> kept) label_names
                       ((λ r, r.2) <$> kept)).
Proof.
  intros Hwf. unfold render. rewrite filtered_output_filter by done. simpl.
  by rewrite inference_unzip_returns.
Qed.

End InferenceFacts.

(** ** The label list and the class count (predict_spin.py, visualize.py) *)

Section LabelFacts.

Lemma predict_main_constructs args env labels m :
  PredictSpin.constructs (PredictSpin.main args env) labels m →
  ∃ text, PredictSpin.label_file env = Some text ∧ text ≠ [] ∧
          labels = background :: splitlines text ∧
          request_num_classes m = S (length (splitlines text)).
Proof.
  intros [drawn H]. unfold PredictSpin.main in H.
  destruct (PredictSpin.label_file env) as [text|]; [|done].
  exists text. case_bool_decide as Hlen; [done|].
  destruct (match PredictSpin.model_path args with
            | Some p => Some p
            | None => PredictSpin.newest_saved_model_path env
            end); [|done].
  case_bool_decide; [done|].
  unfold PredictSpin.display_images in H.
  destruct (PredictSpin.stream _ _ _) as [ds|e]; simpl in H; [|done].
  unfold mret, result_ret in H. simplify_eq. split_and!; try done.
  intros ->. by apply Hlen.
Qed.

Lemma visualize_main_constructs args env labels m :
  Visualize.constructs (Visualize.main args env) labels m →
  ∃ text, Visualize.label_file env = Some text ∧ text ≠ [] ∧
          labels = background :: splitlines text ∧
          request_num_classes m = S (length (splitlines text)).
Proof.
  intros [drawn H]. unfold Visualize.main in H.
  destruct (Visualize.label_file env) as [text|]; [|done].
  exists text. case_bool_decide as Hlen; [done|].
  destruct (match Visualize.manifest_path args with
            | Some p => Some p
            | None => Visualize.newest_manifest_path env
            end); [|done].
  destruct (match Visualize.model_path args with
            | Some p => Some p
            | None => Visualize.newest_saved_model_path env
            end); [|done].
  destruct (Visualize.for_dataset _ _ _) as [ds|e]; simpl in H; [|done].
  unfold mret, result_ret in H. simplify_eq. split_and!; try done.
  intros ->. by apply Hlen.
Qed.

Lemma predict_main_early args env :
  PredictSpin.label_file env = None ∨ PredictSpin.label_file env = Some [] →
  PredictSpin.main args env = Return PredictSpin.MissingFile ∨
  PredictSpin.main args env = Return PredictSpin.NoLabelCategories.
Proof. unfold PredictSpin.main. intros [-> | ->]; [by left|by right]. Qed.

Lemma visualize_main_early args env :
  Visualize.label_file env = None ∨ Visualize.label_file env = Some [] →
  Visualize.main args env = Return Visualize.MissingFile ∨
  Visualize.main args env = Return Visualize.NoLabelCategories.
Proof. unfold Visualize.main. intros [-> | ->]; [by left|by right]. Qed.

End LabelFacts.

(** C9.  In [predict_spin.py] and in [visualize.py] alike: when the label
    file has the text [text], which is not empty, and a saved model (and for
    the visualisation a manifest) is at hand, the model is constructed for
    the label list that has "background" at index 0 followed by the lines of
    the file in their order, and for as many classes as the file has lines
    plus one; whenever [main] constructs a model at all, it is for such a
    list; and when the label file is missing or empty, [main] returns early,
    from one of its two first exits, and constructs no model. *)
Theorem labels_background_then_file_lines
    (pargs : PredictSpin.Args) (penv : PredictSpin.Env)
    (vargs : Visualize.Args) (venv : Visualize.Env)
    (text : str) (model manifest : string) :
  text ≠ [] →
  PredictSpin.label_file penv = Some text →
  Visualize.label_file venv = Some text →
  PredictSpin.model_path pargs = Some model →
  Visualize.model_path vargs = Some model →
  Visualize.manifest_path vargs = Some manifest →
  PredictSpin.num_cameras penv ≠ 0%nat →
  let labels := background :: splitlines text in
  (* the list and the class count of the model that is constructed *)
  labels !! 0%nat = Some background ∧
  (∀ j, labels !! S j = splitlines text !! j) ∧
  (∀ drawn, PredictSpin.stream labels (PredictSpin.threshold pargs)
              (PredictSpin.frames penv) = Return drawn →
     PredictSpin.main pargs penv =
       Return (PredictSpin.Exiting labels
                 (ModelRequest (PredictSpin.network pargs)
                    (S (length (splitlines text)))
                    (PredictSpin.threshold pargs) 600 800 0.3%float) drawn)) ∧
  (∀ drawn, Visualize.for_dataset labels (Visualize.threshold vargs)
              (Visualize.dataset venv labels) = Return drawn →
     Visualize.main vargs venv =
       Return (Visualize.Complete labels
                 (ModelRequest (Visualize.network vargs)
                    (S (length (splitlines text)))
                    (Visualize.threshold vargs) 600 800 0.3%float) drawn)) ∧
  (* every construction is of this kind *)
  (∀ args env labels' m,
     PredictSpin.constructs (PredictSpin.main args env) labels' m →
     ∃ text', PredictSpin.label_file env = Some text' ∧ text' ≠ [] ∧
              labels' = background :: splitlines text' ∧
              request_num_classes m = S (length (splitlines text'))) ∧
  (∀ args env labels' m,
     Visualize.constructs (Visualize.main args env) labels' m →
     ∃ text', Visualize.label_file env = Some text' ∧ text' ≠ [] ∧
              labels' = background :: splitlines text' ∧
              request_num_classes m = S (length (splitlines text'))) ∧
  (* a missing or empty label file *)
  (∀ args env,
     PredictSpin.label_file env = None ∨ PredictSpin.label_file env = Some [] →
     PredictSpin.main args env = Return PredictSpin.MissingFile ∨
     PredictSpin.main args env = Return PredictSpin.NoLabelCategories) ∧
  (∀ args env,
     Visualize.label_file env = None ∨ Visualize.label_file env = Some [] →
     Visualize.main args env = Return Visualize.MissingFile ∨
     Visualize.main args env = Return Visualize.NoLabelCategories).
Proof.
  intros Htext Hp Hv Hpm Hvm Hvmf Hcam labels.
  assert (Hlines : length (splitlines text) ≠ 0%nat).
  { intros Hl. apply Htext, splitlines_nil_inv. by destruct (splitlines text). }
  split_and!.
  - done.
  - done.
  - intros drawn Hs. unfold PredictSpin.main.
    rewrite Hp, Hpm. rewrite bool_decide_eq_false_2 by done.
    rewrite bool_decide_eq_false_2 by done.
    unfold PredictSpin.display_images. fold labels. by rewrite Hs.
  - intros drawn Hs. unfold Visualize.main.
    rewrite Hv, Hvm, Hvmf. rewrite bool_decide_eq_false_2 by done.
    fold labels. by rewrite Hs.
  - apply predict_main_constructs.
  - apply visualize_main_constructs.
  - apply predict_main_early.
  - apply visualize_main_early.
Qed.

(** The labels of a file with the two lines "cat" and "dog". *)
Lemma labels_background_then_file_lines_witness :
  let text := str_of_string "cat" ++ [10%N] ++ str_of_string "dog" ++ [10%N] in
  let labels := [background; str_of_string "cat"; str_of_string "dog"] in
  PredictSpin.main
    {| PredictSpin.s3_bucket_name := None; PredictSpin.model_path := Some "model.pt";
       PredictSpin.network := "fasterrcnn"; PredictSpin.threshold := 0.5%float |}
    {| PredictSpin.label_file := Some text; PredictSpin.newest_saved_model_path := None;
       PredictSpin.num_cameras := 1; PredictSpin.frames := [] |}
  = Return (PredictSpin.Exiting labels
              (ModelRequest "fasterrcnn" 3 0.5%float 600 800 0.3%float) []).
Proof.
  intros text labels.
  pose (pargs := {| PredictSpin.s3_bucket_name := None;
                    PredictSpin.model_path := Some "model.pt";
                    PredictSpin.network := "fasterrcnn";
                    PredictSpin.threshold := 0.5%float |}).
  pose (penv := {| PredictSpin.label_file := Some text;
                   PredictSpin.newest_saved_model_path := None;
                   PredictSpin.num_cameras := 1; PredictSpin.frames := [] |}).
  pose (vargs := {| Visualize.s3_bucket_name := None;
                    Visualize.manifest_path := Some "manifest.txt";
                    Visualize.model_path := Some "model.pt";
                    Visualize.network := "fasterrcnn";
                    Visualize.threshold := 0.5%float |}).
  pose (venv := {| Visualize.label_file := Some text;
                   Visualize.newest_manifest_path := None;
                   Visualize.newest_saved_model_path := None;
                   Visualize.dataset := λ _, [] |}).
  assert (Htext : text ≠ []) by discriminate.
  assert (Hcam : PredictSpin.num_cameras penv ≠ 0%nat) by discriminate.
  destruct (labels_background_then_file_lines pargs penv vargs venv text
              "model.pt" "manifest.txt" Htext eq_refl eq_refl eq_refl eq_refl
              eq_refl Hcam)
    as (_ & _ & Hmain & _).
  exact (Hmain [] eq_refl).
Defined.

(** ** The detections that are drawn *)

(** C10, as the scripts have it.  In the loop of [display_images] and in
    the loop of the visualisation, for a model output with one label and
    one score per box: the comprehension returns, in their order, exactly
    the outputs whose score is greater than the threshold as torch compares
    the two, in [float32] after the conversion of the threshold to it, and
    whose label is greater than 0; as labels are class indices (none is
    negative), these are the outputs with such a score and a label that is
    not the background's 0.  The unzip step never raises, and when nothing
    is kept it yields three empty sequences, with which [draw_bboxes] is
    called. *)
Theorem filtered_output_exact
    (label_names : list str) (o : Inference.detections) (threshold : float)
    (escape : bool) (truth_boxes : list Inference.box) (truth_labels : list Z) :
  Inference.well_formed o →
  (∀ l, l ∈ Inference.labels o → 0 ≤ l) →
  ∃ kept,
    Inference.filtered_output o threshold = Return kept ∧
    kept = filter (λ d, Is_true (Inference.passes threshold d)) (Inference.outputs_of o) ∧
    (∀ d, d ∈ kept ↔
          d ∈ Inference.outputs_of o ∧ Inference.tensor_gt d.2 threshold = true ∧ 0 < d.1.2) ∧
    (∀ d, d ∈ kept ↔
          d ∈ Inference.outputs_of o ∧ Inference.tensor_gt d.2 threshold = true ∧ d.1.2 ≠ 0) ∧
    (∃ call,
       Inference.inference_unzip kept
         = Return (Inference.draw_boxes call, Inference.draw_labels call,
                   Inference.draw_scores call) ∧
       Inference.draw_label_names call = label_names ∧
       length (Inference.draw_boxes call) = length kept ∧
       length (Inference.draw_labels call) = length kept ∧
       length (Inference.draw_scores call) = length kept ∧
       PredictSpin.stream label_names threshold [PredictSpin.Image o escape]
         = Return [call] ∧
       Visualize.show label_names threshold
         {| Visualize.target_boxes := truth_boxes;
            Visualize.target_labels := truth_labels;
            Visualize.outputs := o |}
         = Return (Inference.DrawBboxes truth_boxes truth_labels label_names [], call)) ∧
    (kept = [] →
       Inference.inference_unzip kept = Return ([], [], []) ∧
       Inference.render label_names o threshold
         = Return (Inference.DrawBboxes [] [] label_names [])).
Proof.
  intros Hwf Hnonneg.
  exists (filter (λ d, Is_true (Inference.passes threshold d)) (Inference.outputs_of o)).
  split_and!.
  - by apply filtered_output_filter.
  - done.
  - intros d. rewrite list_elem_of_filter, passes_spec. tauto.
  - intros d. rewrite list_elem_of_filter, passes_spec.
    split; [intros ((? & ?) & ?); split_and!; [done..|lia]|].
    intros (Hin & Hs & Hl). split_and!; [done| |done].
    destruct d as [[b l] s]. simpl in *.
    assert (0 ≤ l); [|lia].
    apply Hnonneg.
    apply list_elem_of_lookup in Hin as [j Hj].
    apply outputs_of_lookup in Hj as (_ & Hj & _).
    apply list_elem_of_lookup. by exists j.
  - eexists (Inference.DrawBboxes _ _ label_names _).
    rewrite inference_unzip_returns. split_and!; [done|done|..].
    + apply length_fmap.
    + apply length_fmap.
    + apply length_fmap.
    + unfold PredictSpin.stream. rewrite render_returns by done.
      by destruct escape.
    + unfold Visualize.show. by rewrite render_returns by done.
  - intros Hnil. rewrite render_returns by done. simpl. by rewrite Hnil.
Qed.

(** A frame with a confident detection of class 2, a weak one of class 1 and
    a confident background box. *)
Lemma filtered_output_exact_witness :
  let b : Inference.box := (0, 0, 10, 10)%float in
  let o := Inference.Detections [b; b; b] [2; 1; 0] [0.9; 0.3; 0.8]%float in
  Inference.filtered_output o 0.5%float = Return [(b, 2, 0.9%float)].
Proof.
  intros b o.
  destruct (filtered_output_exact [] o 0.5%float false [] [])
    as (kept & -> & -> & _).
  - split; reflexivity.
  - intros l Hl. repeat (apply elem_of_cons in Hl as [->|Hl]; [lia|]).
    by apply elem_of_nil in Hl.
  - reflexivity.
Defined.

(** C10 as stated fails: at the threshold 0.3, a detection of class 1 whose
    score is the [float32] nearest to 0.3, a number strictly greater than
    the threshold, is not in the filtered set: the threshold becomes that
    very number when torch converts it. *)
Lemma score_above_threshold_is_dropped :
  let b : Inference.box := (0, 0, 10, 10)%float in
  let o := Inference.Detections [b] [1] [0.30000001192092896%float] in
  Inference.well_formed o ∧
  PrimFloat.ltb 0.3 0.30000001192092896 = true ∧
  SF2Prim (Inference.float32 0.30000001192092896) = 0.30000001192092896%float ∧
  Inference.filtered_output o 0.3%float = Return [].
Proof. intros b o. split_and!; [by split|vm_compute; reflexivity..]. Qed.

(** ** Sampling *)

(** One step of a computation in [St]: the binds and returns in head
    position are reduced. *)
Ltac st_run :=
  unfold mbind, mret, St_bind, St_ret, result_bind, result_ret, raise, lift, try;
  cbn beta iota.

(** The handlers of the trial loop, in their order, on the exception [e]. *)
Ltac handlers e :=
  destruct (isinstance e "RuntimeError") eqn:?;
  [|destruct (isinstance e "KeyboardInterrupt") eqn:?].

Section HparamsFacts.
Import Hparams.
Local Open Scope R_scope.

Lemma exp_le x y : x <= y → exp x <= exp y.
Proof.
  intros [Hlt| ->]; [|apply Rle_refl].
  left. by apply exp_increasing.
Qed.

Lemma ln_le x y : 0 < x → x <= y → ln x <= ln y.
Proof.
  intros Hx [Hlt| ->]; [|apply Rle_refl].
  left. by apply ln_increasing.
Qed.

(** A point of the segment from [a] to [b]. *)
Lemma segment_between a b f :
  a <= b → 0 <= f <= 1 → a <= a + (b - a) * f <= b.
Proof. intros Hab [H0 H1]. split; nra. Qed.

(** exp(uniform(log a, log b)) lies between [a] and [b]. *)
Lemma exp_segment_between a b f :
  0 < a → a <= b → 0 <= f <= 1 →
  a <= exp (ln a + (ln b - ln a) * f) <= b.
Proof.
  intros Ha Hab Hf.
  destruct (segment_between (ln a) (ln b) f) as [Hlo Hhi];
    [by apply ln_le|done|].
  split.
  - rewrite <-(exp_ln a) at 1 by done. by apply exp_le.
  - rewrite <-(exp_ln b) at 2 by lra. by apply exp_le.
Qed.

Section Source.
Variable src : Random.
Hypothesis Hsrc : unit_interval src.

Lemma get_next_RandomUniform a b k :
  a <= b →
  ∃ x, get_next src (RandomUniform a b) k = (Return (Float x), S k) ∧ a <= x <= b.
Proof.
  intros Hab. eexists. split; [reflexivity|].
  by apply segment_between.
Qed.

Lemma get_next_RandomExponential a b k :
  0 < a → a <= b →
  ∃ x, get_next src (RandomExponential a b) k = (Return (Float x), S k) ∧ a <= x <= b.
Proof.
  intros Ha Hab. eexists. split; [reflexivity|].
  by apply exp_segment_between.
Qed.

Lemma get_next_RandomExponentialDiff scale a b k :
  0 < a → a <= b →
  ∃ x, get_next src (RandomExponentialDiff scale a b) k = (Return (Float x), S k) ∧
       scale - b <= x <= scale - a.
Proof.
  intros Ha Hab. eexists. split; [reflexivity|].
  destruct (exp_segment_between a b (fraction src k)); [done..|].
  split; lra.
Qed.

(** A choice draws an index, then resolves the alternative there. *)
Lemma get_next_RandomHPChoices choices k :
  get_next src (RandomHPChoices choices) k =
    match choices !! (natural src k mod length choices)%nat with
    | Some c => get_next src c (S k)
    | None => (Raise IndexError, S k)
    end.
Proof.
  cbn [get_next]. unfold randbelow, mbind, St_bind. cbn beta iota.
  generalize (natural src k mod length choices)%nat as i.
  induction choices as [|c cs IH]; intros [|i]; simpl; try done.
Qed.

(** The momentum of the SGD space: the literal 0, or a draw that is
    close to 1. *)
Lemma get_next_momentum k :
  ∃ v k' x,
    get_next src (RandomHPChoices [Const (Int 0); RandomExponentialDiff 1.0 0.01 0.5]) k
      = (Return v, k') ∧
    number v = Some x ∧ (x = 0 ∨ 0.5 <= x <= 0.99).
Proof.
  rewrite get_next_RandomHPChoices. cbn [length].
  pose proof (Nat.mod_upper_bound (natural src k) 2 ltac:(lia)) as Hm.
  destruct (natural src k mod 2)%nat as [|[|i]]; [| |lia]; cbn [lookup list_lookup].
  - exists (Int 0), (S k), 0. split_and!; [done|done|by left].
  - destruct (get_next_RandomExponentialDiff 1.0 0.01 0.5 (S k))
      as (x & Hx & Hb); [lra..|].
    exists (Float x), (S (S k)), x. split_and!; [done|done|].
    right. lra.
Qed.

(** A choice among literals returns one of them. *)
Lemma get_next_literals (vs : list value) k :
  vs ≠ [] →
  ∃ v, get_next src (RandomHPChoices (Const <$> vs)) k = (Return v, S k) ∧ v ∈ vs.
Proof.
  intros Hvs. rewrite get_next_RandomHPChoices, length_fmap.
  assert (natural src k mod length vs < length vs)%nat as Hlt.
  { apply Nat.mod_upper_bound. by destruct vs. }
  apply lookup_lt_is_Some_2 in Hlt as [v Hv].
  rewrite list_lookup_fmap, Hv. simpl.
  exists v. split; [done|]. by eapply list_elem_of_lookup_2.
Qed.

(** A choice returns when it has an alternative and each one returns. *)
Lemma get_next_RandomHPChoices_returns choices k :
  choices ≠ [] →
  (∀ c, c ∈ choices → ∃ v k', get_next src c (S k) = (Return v, k')) →
  ∃ v k', get_next src (RandomHPChoices choices) k = (Return v, k').
Proof.
  intros Hne Hall. rewrite get_next_RandomHPChoices.
  assert (natural src k mod length choices < length choices)%nat as Hlt.
  { apply Nat.mod_upper_bound. by destruct choices. }
  apply lookup_lt_is_Some_2 in Hlt as [c Hc]. rewrite Hc.
  apply Hall. by eapply list_elem_of_lookup_2.
Qed.

Lemma choose_returns {A} (choices : list A) k :
  choices ≠ [] →
  ∃ a, choose src choices k = (Return a, S k) ∧ a ∈ choices.
Proof.
  intros Hne. unfold choose, randbelow. st_run.
  assert (natural src k mod length choices < length choices)%nat as Hlt.
  { apply Nat.mod_upper_bound. by destruct choices. }
  apply lookup_lt_is_Some_2 in Hlt as [a Ha].
  exists a. unfold getitem. rewrite Ha. split; [done|].
  by eapply list_elem_of_lookup_2.
Qed.

Lemma choose_inv {A} (choices : list A) k a k' :
  choose src choices k = (Return a, k') → a ∈ choices ∧ k' = S k.
Proof.
  unfold choose, randbelow, getitem. st_run.
  destruct (choices !! _) as [a'|] eqn:Ha; [|done].
  intros [= <- <-]. split; [|done]. by eapply list_elem_of_lookup_2.
Qed.

(** The options of the three optimizers of the script always resolve. *)
Lemma resolve_optimizer_choices spec k :
  spec ∈ HparamSearch.optimizer_choices →
  ∃ kw k', resolve src (options spec) k = (Return kw, k').
Proof.
  assert (Hlr : ∀ k, ∃ v, get_next src (RandomExponential 0.0005 0.1) k = (Return v, S k))
    by (intros; by eexists).
  assert (Hwd : ∀ k, ∃ v, get_next src HparamSearch.weight_decay_choices k = (Return v, S k)).
  { intros k0.
    destruct (get_next_literals [Int 0; Float 1e-2; Float 1e-4] k0) as (v & Hv & _); [done|].
    by exists v. }
  assert (Hmom : ∀ k, ∃ v k',
    get_next src (RandomHPChoices [Const (Int 0); RandomExponentialDiff 1.0 0.01 0.5]) k
      = (Return v, k')).
  { intros k0. apply get_next_RandomHPChoices_returns; [done|].
    intros c Hc. repeat (apply elem_of_cons in Hc as [->|Hc]; [by eexists _, _|]).
    by apply elem_of_nil in Hc. }
  unfold HparamSearch.optimizer_choices.
  intros Hspec. repeat (apply elem_of_cons in Hspec as [->|Hspec]).
  - destruct (Hlr k) as [lr Hlr']. destruct (Hmom (S k)) as (mom & k1 & Hmom').
    destruct (Hwd k1) as [wd Hwd'].
    cbn [HparamSearch.sgd options resolve]. st_run.
    rewrite Hlr'. st_run. rewrite Hmom'. st_run. rewrite Hwd'. st_run.
    by eexists _, _.
  - destruct (Hlr k) as [lr Hlr']. destruct (Hwd (S k)) as [wd Hwd'].
    cbn [HparamSearch.adam options resolve]. st_run.
    rewrite Hlr'. st_run. rewrite Hwd'. st_run.
    by eexists _, _.
  - destruct (Hlr k) as [lr Hlr']. destruct (Hwd (S k)) as [wd Hwd'].
    cbn [HparamSearch.adamw options resolve]. st_run.
    rewrite Hlr'. st_run. rewrite Hwd'. st_run.
    by eexists _, _.
  - by apply elem_of_nil in Hspec.
Qed.

End Source.

End HparamsFacts.

Lemma St_bind_Return {S A B} (m : St S A) (f : A → St S B) s a s' :
  m s = (Return a, s') → (m ≫= f) s = f a s'.
Proof. intros H. unfold mbind, St_bind. by rewrite H. Qed.

Lemma St_bind_Raise {S A B} (m : St S A) (f : A → St S B) s e s' :
  m s = (Raise e, s') → (m ≫= f) s = (Raise e, s').
Proof. intros H. unfold mbind, St_bind. by rewrite H. Qed.

(** C8.  With [RandomExponential] sampling exp(uniform(log min, log max)) and
    [RandomExponentialDiff] sampling scale - exp(uniform(log min, log max)),
    from a random source whose fractions lie in the unit interval:
    materializing the SGD scenario always returns, with the two resolved
    values [lr] and [momentum] such that 0.0005 <= lr <= 0.1 and momentum is
    0 or 0.5 <= momentum <= 0.99; the SGD space of the script, which has the
    same two options before its weight decay, resolves to the same two
    values. *)
Theorem sgd_materialize_bounds {T O : Type} (src : Hparams.Random)
    (construct : string → T → Hparams.kwargs → O) (target : T) (k : nat) :
  Hparams.unit_interval src →
  ∃ (lr : R) (momentum : Hparams.value) (x : R) (k' : nat),
    Hparams.materialize src construct Hparams.sgd_scenario target k
      = (Return ([("lr", Hparams.Float lr); ("momentum", momentum)],
                 construct "SGD" target
                   [("lr", Hparams.Float lr); ("momentum", momentum)]), k') ∧
    (0.0005 <= lr <= 0.1)%R ∧
    Hparams.number momentum = Some x ∧
    (x = 0 ∨ 0.5 <= x <= 0.99)%R ∧
    ∃ kw k'',
      Hparams.resolve src (Hparams.options HparamSearch.sgd) k = (Return kw, k'') ∧
      Hparams.lookup_kw "lr" kw = Some (Hparams.Float lr) ∧
      Hparams.lookup_kw "momentum" kw = Some momentum.
Proof.
  intros Hsrc.
  destruct (get_next_RandomExponential src Hsrc 0.0005 0.1 k)
    as (lr & Hlr & Hlr_bounds); [lra..|].
  destruct (get_next_momentum src Hsrc (S k)) as (momentum & k' & x & Hm & Hx & Hx_bounds).
  destruct (get_next_literals src
              [Hparams.Int 0; Hparams.Float 1e-2; Hparams.Float 1e-4] k')
    as (wd & Hwd & _); [done|].
  exists lr, momentum, x, k'.
  split; [|split; [done|split; [done|split; [done|]]]].
  - unfold Hparams.materialize, Hparams.sgd_scenario.
    cbn [Hparams.options Hparams.name Hparams.resolve].
    st_run. rewrite Hlr. st_run. rewrite Hm. by st_run.
  - exists [("lr", Hparams.Float lr); ("momentum", momentum); ("weight_decay", wd)], (S k').
    split; [|done].
    unfold HparamSearch.sgd. cbn [Hparams.options Hparams.resolve].
    st_run. rewrite Hlr. st_run. rewrite Hm. st_run.
    unfold HparamSearch.weight_decay_choices. change (Hparams.RandomHPChoices _)
      with (Hparams.RandomHPChoices
              (Hparams.Const <$> [Hparams.Int 0; Hparams.Float 1e-2; Hparams.Float 1e-4])).
    rewrite Hwd. by st_run.
Qed.

(** The scenario on the source whose draws are all the least ones. *)
Lemma sgd_materialize_bounds_witness :
  ∃ (lr : R) (momentum : Hparams.value) (x : R) (k' : nat),
    Hparams.materialize Demo.src Demo.torch_optim Hparams.sgd_scenario 0%nat 0%nat
      = (Return ([("lr", Hparams.Float lr); ("momentum", momentum)],
                 Demo.torch_optim "SGD" 0%nat
                   [("lr", Hparams.Float lr); ("momentum", momentum)]), k') ∧
    (0.0005 <= lr <= 0.1)%R ∧
    Hparams.number momentum = Some x ∧
    (x = 0 ∨ 0.5 <= x <= 0.99)%R ∧
    ∃ kw k'',
      Hparams.resolve Demo.src (Hparams.options HparamSearch.sgd) 0%nat = (Return kw, k'') ∧
      Hparams.lookup_kw "lr" kw = Some (Hparams.Float lr) ∧
      Hparams.lookup_kw "momentum" kw = Some momentum.
Proof.
  apply (sgd_materialize_bounds Demo.src Demo.torch_optim 0%nat 0%nat).
  intros k. simpl. lra.
Defined.

(** ** The trial loop *)

Section SearchFacts.
Import Hparams HparamSearch.

Context {optimizer lr_scheduler : Type}.
Variable w : @World optimizer lr_scheduler.

Implicit Types (st : @state optimizer lr_scheduler) (t : totals) (i : nat).

Lemma after_nil st : after st [] = st.
Proof. destruct st. unfold after. simpl. by rewrite app_nil_r. Qed.

Lemma after_after st es1 es2 : after (after st es1) es2 = after st (es1 ++ es2).
Proof. unfold after. simpl. by rewrite app_assoc. Qed.

Lemma emit_run (e : event) st : emit e st = (Return (), after st [e]).
Proof. reflexivity. Qed.

(** *** The training call and its handlers *)

(** A handler that matches: the instances of [RuntimeError] are logged and
    the loop goes on; those of [KeyboardInterrupt] that the first handler
    did not match end the loop. *)
Lemma attempt_except_RuntimeError i opt sched t st e :
  train_model w i opt sched = Raise e →
  isinstance e "RuntimeError" = true →
  attempt w i opt sched t st =
    (Return (Continue, t),
     after st [train_event w i opt sched; LogAndPrint i (TrainingFailed (exn_str e))]).
Proof.
  intros H He. unfold attempt, call_train_model. st_run.
  rewrite !emit_run. cbn [draws events after]. rewrite H. cbn beta iota. rewrite He.
  unfold log_and_print. rewrite emit_run. by rewrite after_after.
Qed.

Lemma attempt_except_KeyboardInterrupt i opt sched t st e :
  train_model w i opt sched = Raise e →
  isinstance e "RuntimeError" = false →
  isinstance e "KeyboardInterrupt" = true →
  attempt w i opt sched t st =
    (Return (Break, t),
     after st [train_event w i opt sched; LogAndPrint i UserInitiatedTermination]).
Proof.
  intros H He1 He2. unfold attempt, call_train_model. st_run.
  rewrite !emit_run. cbn [draws events after]. rewrite H. cbn beta iota.
  rewrite He1, He2.
  unfold log_and_print. rewrite emit_run. by rewrite after_after.
Qed.

Lemma attempt_RuntimeError i opt sched t st err :
  train_model w i opt sched = Raise (RuntimeError err) →
  attempt w i opt sched t st =
    (Return (Continue, t),
     after st [train_event w i opt sched; LogAndPrint i (TrainingFailed err)]).
Proof. intros H. by rewrite (attempt_except_RuntimeError _ _ _ _ _ _ H). Qed.

Lemma attempt_KeyboardInterrupt i opt sched t st :
  train_model w i opt sched = Raise KeyboardInterrupt →
  attempt w i opt sched t st =
    (Return (Break, t),
     after st [train_event w i opt sched; LogAndPrint i UserInitiatedTermination]).
Proof. intros H. by rewrite (attempt_except_KeyboardInterrupt _ _ _ _ _ _ H). Qed.

Lemma attempt_unhandled i opt sched t st e :
  train_model w i opt sched = Raise e → unhandled e →
  attempt w i opt sched t st = (Raise e, after st [train_event w i opt sched]).
Proof.
  intros H [He1 He2]. unfold attempt, call_train_model. st_run.
  rewrite !emit_run. cbn [draws events after]. rewrite H. cbn beta iota.
  by rewrite He1, He2.
Qed.

Lemma has_labels_recorded i ap ar t : has_labels w t → has_labels w (recorded w i ap ar t).
Proof.
  intros [H1 H2]. unfold recorded, has_labels.
  split; rewrite !lookup_insert; repeat case_decide; eauto.
Qed.

Lemma has_labels_empty : has_labels w (empty_totals w).
Proof.
  unfold has_labels, empty_totals.
  split; rewrite !lookup_insert; repeat case_decide; eauto; congruence.
Qed.

Lemma record_metrics_run i m t st ap ar :
  has_labels w t →
  m !! AVERAGE_PRECISION_STAT_LABEL w = Some ap →
  m !! AVERAGE_RECALL_STAT_LABEL w = Some ar →
  record_metrics w i m t st =
    (Return (recorded w i ap ar t),
     after st [LogAndPrint i (Stat (AVERAGE_PRECISION_STAT_LABEL w) ap);
               LogAndPrint i (Stat (AVERAGE_RECALL_STAT_LABEL w) ar)]).
Proof.
  intros [[pap Hpap] [par Hpar]] Hap Har.
  unfold record_metrics, metrics_getitem, totals_setitem, log_and_print.
  rewrite Hap, Har, Hpap. st_run. rewrite !emit_run.
  unfold recorded. rewrite Hpap. cbn [default from_option Datatypes.id].
  destruct (<[_ := _]> t !! AVERAGE_RECALL_STAT_LABEL w) as [per|] eqn:Hper.
  - cbn [default from_option Datatypes.id]. by rewrite after_after.
  - rewrite lookup_insert in Hper. by case_decide; simplify_eq.
Qed.

Lemma attempt_Return i opt sched t st m ap ar :
  has_labels w t →
  train_model w i opt sched = Return m →
  m !! AVERAGE_PRECISION_STAT_LABEL w = Some ap →
  m !! AVERAGE_RECALL_STAT_LABEL w = Some ar →
  attempt w i opt sched t st =
    (Return (Next, recorded w i ap ar t),
     after st [train_event w i opt sched;
               LogAndPrint i (Stat (AVERAGE_PRECISION_STAT_LABEL w) ap);
               LogAndPrint i (Stat (AVERAGE_RECALL_STAT_LABEL w) ar)]).
Proof.
  intros Ht H Hap Har. unfold attempt, call_train_model. st_run.
  rewrite !emit_run. cbn [draws events after]. rewrite H.
  erewrite record_metrics_run by done. by rewrite after_after.
Qed.

(** A metrics mapping without one of the two keys: the lookup raises
    outside the [try]. *)
Lemma attempt_KeyError i opt sched t st m :
  train_model w i opt sched = Return m →
  m !! AVERAGE_PRECISION_STAT_LABEL w = None ∨
  m !! AVERAGE_RECALL_STAT_LABEL w = None →
  ∃ key st', attempt w i opt sched t st = (Raise (KeyError key), st').
Proof.
  intros H Hm. unfold attempt, call_train_model. st_run.
  rewrite !emit_run. cbn [draws events after]. rewrite H.
  unfold record_metrics, metrics_getitem. st_run.
  destruct (m !! AVERAGE_PRECISION_STAT_LABEL w) as [ap|] eqn:Hap.
  - destruct Hm as [|Har]; [done|]. rewrite Har.
    unfold log_and_print. rewrite emit_run. by eexists _, _.
  - by eexists _, _.
Qed.

(** *** The configuration of a trial *)

Lemma St_bind_inv {S A B} (m : St S A) (f : A → St S B) s b s'' :
  (m ≫= f) s = (Return b, s'') →
  ∃ a s', m s = (Return a, s') ∧ f a s' = (Return b, s'').
Proof.
  unfold mbind, St_bind. destruct (m s) as [[a|e] s']; [|done].
  intros H. by exists a, s'.
Qed.

Lemma log_and_print_inv i (msg : message) st (u : ()) st' :
  log_and_print i msg st = (Return u, st') → st' = after st [LogAndPrint i msg].
Proof. unfold log_and_print. rewrite emit_run. by intros [= _ <-]. Qed.

Lemma sample_inv {A} (x : Sampler A) st a st' :
  sample x st = (Return a, st') →
  ∃ k, x (draws st) = (Return a, k) ∧ st' = State k (events st).
Proof.
  unfold sample. destruct (x (draws st)) as [r k]. intros [= -> <-]. by exists k.
Qed.

Lemma sample_run {A} (x : Sampler A) st r k :
  x (draws st) = (r, k) → sample x st = (r, State k (events st)).
Proof. intros H. unfold sample. by rewrite H. Qed.

(** Whatever the search spaces: when the configuration returns, the choices
    and the properties have been logged, those of the scheduler too when one
    was chosen, and nothing else has happened. *)
Lemma configure_from_inv optimizers schedulers i st opt sched st' :
  configure_from w optimizers schedulers i st = (Return (opt, sched), st') →
  ∃ spec kw k1,
    spec ∈ optimizers ∧
    materialize (src w) (torch_optim w) spec i (S (draws st)) = (Return (kw, opt), k1) ∧
    opt = torch_optim w (name spec) i kw ∧
    match sched with
    | None =>
        None ∈ schedulers ∧
        st' = State (S k1) (events st ++ configured_events w i spec opt)
    | Some s =>
        ∃ choice kw' k2,
          Some choice ∈ schedulers ∧
          materialize (src w) (torch_lr_scheduler w) choice opt (S k1)
            = (Return (kw', s), k2) ∧
          st' = State k2 (events st ++ configured_events w i spec opt
                                    ++ scheduler_events w i choice s)
    end.
Proof.
  unfold configure_from. intros H.
  apply St_bind_inv in H as ([] & s1 & H1 & H). apply log_and_print_inv in H1 as ->.
  apply St_bind_inv in H as ([] & s2 & H2 & H). apply log_and_print_inv in H2 as ->.
  apply St_bind_inv in H as (spec & s3 & H3 & H).
  apply sample_inv in H3 as (k0 & [Hspec ->]%choose_inv & ->).
  apply St_bind_inv in H as ([kw opt'] & s4 & H4 & H).
  apply sample_inv in H4 as (k1 & Hmat & ->).
  cbn [after draws events] in Hmat.
  apply St_bind_inv in H as ([] & s5 & H5 & H). apply log_and_print_inv in H5 as ->.
  apply St_bind_inv in H as ([] & s6 & H6 & H). apply log_and_print_inv in H6 as ->.
  apply St_bind_inv in H as (choice & s7 & H7 & H).
  apply sample_inv in H7 as (k2 & [Hchoice ->]%choose_inv & ->).
  cbn [after draws events] in *.
  assert (opt' = torch_optim w (name spec) i kw) as Hopt.
  { unfold materialize in Hmat.
    apply St_bind_inv in Hmat as (kw0 & k' & _ & Hret). by injection Hret as <- <- _. }
  destruct choice as [choice|].
  - apply St_bind_inv in H as ([kw' s] & s8 & H8 & H).
    apply sample_inv in H8 as (k3 & Hmat' & ->).
    cbn [after draws events] in *.
    apply St_bind_inv in H as ([] & s9 & H9 & H). apply log_and_print_inv in H9 as ->.
    apply St_bind_inv in H as ([] & s10 & H10 & H). apply log_and_print_inv in H10 as ->.
    injection H as <- <- <-.
    exists spec, kw, k1. split_and!; [done..|].
    exists choice, kw', k3. split_and!; [done..|].
    unfold after. cbn [draws events]. by rewrite <-!app_assoc.
  - injection H as <- <- <-.
    exists spec, kw, k1. split_and!; [done..|].
    unfold after. cbn [draws events]. by rewrite <-!app_assoc.
Qed.

(** With the search spaces of the script the configuration always returns,
    without a scheduler. *)
Lemma configure_run i st :
  ∃ spec kw opt k1,
    spec ∈ optimizer_choices ∧
    materialize (src w) (torch_optim w) spec i (S (draws st)) = (Return (kw, opt), k1) ∧
    opt = torch_optim w (name spec) i kw ∧
    configure w i st =
      (Return (opt, None), State (S k1) (events st ++ configured_events w i spec opt)).
Proof.
  destruct (choose_returns (src w) optimizer_choices (draws st)) as (spec & Hc & Hspec);
    [done|].
  destruct (resolve_optimizer_choices (src w) spec (S (draws st)) Hspec) as (kw & k1 & Hkw).
  exists spec, kw, (torch_optim w (name spec) i kw), k1.
  assert (materialize (src w) (torch_optim w) spec i (S (draws st))
          = (Return (kw, torch_optim w (name spec) i kw), k1)) as Hmat.
  { unfold materialize. st_run. by rewrite Hkw. }
  split_and!; [done..|].
  unfold configure, configure_from, log_and_print. st_run. rewrite !emit_run.
  unfold sample at 1. cbn [after draws events]. rewrite Hc.
  unfold sample at 1. cbn [draws events]. rewrite Hmat.
  rewrite !emit_run. cbn [after draws events].
  unfold sample at 1. cbn [draws events].
  unfold lr_scheduler_choices, choose, randbelow, getitem. st_run.
  cbn [length]. rewrite Nat.mod_1_r. cbn [lookup list_lookup].
  unfold after, configured_events. cbn [draws events]. by rewrite <-!app_assoc.
Qed.

(** *** One trial, and the loop *)

Lemma trial_configured i t st opt sched stc :
  configure w i st = (Return (opt, sched), stc) →
  trial w i t st = attempt w i opt sched t stc.
Proof. intros H. unfold trial. by rewrite (St_bind_Return _ _ _ _ _ H). Qed.

Lemma for_trials_cons i rest t st :
  for_trials w (i :: rest) t st =
    match trial w i t st with
    | (Return (Break, t'), st') => (Return (Break, t'), st')
    | (Return (_, t'), st') => for_trials w rest t' st'
    | (Raise e, st') => (Raise e, st')
    end.
Proof.
  cbn [for_trials]. unfold mbind at 1, St_bind.
  destruct (trial w i t st) as [[[[] t']|e] st']; done.
Qed.

Lemma attempted_app (es1 es2 : list (@event optimizer lr_scheduler)) :
  attempted (es1 ++ es2) = attempted es1 ++ attempted es2.
Proof. apply omap_app. Qed.

Lemma started_app (es1 es2 : list (@event optimizer lr_scheduler)) :
  started (es1 ++ es2) = started es1 ++ started es2.
Proof. apply omap_app. Qed.

Lemma log_file_app (es1 es2 : list (@event optimizer lr_scheduler)) :
  log_file (es1 ++ es2) = log_file es1 ++ log_file es2.
Proof. apply omap_app. Qed.

(** A trial whose training call does not end the session: the loop goes
    on, with both labels still keys of the totals, and the trial is the one
    more that was started and attempted. *)
Lemma trial_survivable i t st :
  has_labels w t → survivable w i →
  ∃ c t' st',
    trial w i t st = (Return (c, t'), st') ∧ c ≠ Break ∧ has_labels w t' ∧
    attempted (events st') = attempted (events st) ++ [i] ∧
    started (events st') = started (events st) ++ [i].
Proof.
  intros Ht Hi.
  destruct (configure_run i st) as (spec & kw & opt & k1 & _ & _ & _ & Hc).
  rewrite (trial_configured _ _ _ _ _ _ Hc).
  specialize (Hi opt None).
  destruct (train_model w i opt None) as [m|e] eqn:Htrain.
  - destruct Hi as [[ap Hap] [ar Har]].
    rewrite (attempt_Return _ _ _ _ _ _ _ _ Ht Htrain Hap Har).
    eexists _, _, _. split; [done|].
    split_and!; [done|by apply has_labels_recorded|..];
      unfold after; cbn [draws events];
      [rewrite !attempted_app|rewrite !started_app]; by rewrite <-app_assoc.
  - destruct e; try done.
    rewrite (attempt_RuntimeError _ _ _ _ _ _ Htrain).
    eexists _, _, _. split; [done|].
    split_and!; [done|done|..];
      unfold after; cbn [draws events];
      [rewrite !attempted_app|rewrite !started_app]; by rewrite <-app_assoc.
Qed.

(** Over trials none of which ends the session, the loop runs to the end of
    its indices and attempts every one of them. *)
Lemma for_trials_survivable trials t st :
  has_labels w t → (∀ j, j ∈ trials → survivable w j) →
  ∃ t' st',
    for_trials w trials t st = (Return (Next, t'), st') ∧ has_labels w t' ∧
    attempted (events st') = attempted (events st) ++ trials ∧
    started (events st') = started (events st) ++ trials.
Proof.
  revert t st. induction trials as [|i rest IH]; intros t st Ht Hall.
  - exists t, st. by rewrite !app_nil_r.
  - destruct (trial_survivable i t st) as (c & t1 & st1 & Htrial & Hc & Ht1 & Ha & Hs);
      [done|apply Hall; by left|].
    destruct (IH t1 st1) as (t' & st' & Hloop & Ht' & Ha' & Hs');
      [done|intros j Hj; apply Hall; by right|].
    exists t', st'. rewrite for_trials_cons, Htrial.
    split; [by destruct c|]. split; [done|].
    rewrite Ha', Hs', Ha, Hs, <-!app_assoc. done.
Qed.

(** The [try] statement, case by case. *)
Lemma attempt_cases i opt sched t st :
  has_labels w t →
  attempt w i opt sched t st = attempt_outcome w i opt sched t st.
Proof.
  intros Ht. unfold attempt_outcome.
  destruct (train_model w i opt sched) as [m|e] eqn:Htrain.
  - destruct (m !! AVERAGE_PRECISION_STAT_LABEL w) as [ap|] eqn:Hap.
    + destruct (m !! AVERAGE_RECALL_STAT_LABEL w) as [ar|] eqn:Har.
      * by eapply attempt_Return.
      * unfold attempt, call_train_model. st_run. rewrite !emit_run.
        cbn [draws events after]. rewrite Htrain.
        unfold record_metrics, metrics_getitem, log_and_print. rewrite Hap, Har.
        st_run. rewrite emit_run. by rewrite after_after.
    + unfold attempt, call_train_model. st_run. rewrite !emit_run.
      cbn [draws events after]. rewrite Htrain.
      unfold record_metrics, metrics_getitem. by rewrite Hap.
  - destruct (isinstance e "RuntimeError") eqn:He1;
      [by apply attempt_except_RuntimeError|].
    destruct (isinstance e "KeyboardInterrupt") eqn:He2;
      [by apply (attempt_except_KeyboardInterrupt _ _ _ _ _ e)
      |by apply attempt_unhandled].
Qed.

(** The events of the [try] statement: the training call comes first, and
    what follows starts no trial and calls no training. *)
Lemma attempt_outcome_events i opt sched t st :
  ∃ es, (attempt_outcome w i opt sched t st).2 = after st (train_event w i opt sched :: es) ∧
        started es = [] ∧ attempted es = [].
Proof.
  unfold attempt_outcome.
  destruct (train_model w i opt sched) as [m|e].
  - destruct (m !! AVERAGE_PRECISION_STAT_LABEL w);
      [destruct (m !! AVERAGE_RECALL_STAT_LABEL w)|]; by eexists.
  - handlers e; by eexists.
Qed.

Lemma attempt_outcome_has_labels i opt sched t st c t' st' :
  has_labels w t →
  attempt_outcome w i opt sched t st = (Return (c, t'), st') → has_labels w t'.
Proof.
  intros Ht. unfold attempt_outcome.
  destruct (train_model w i opt sched) as [m|e].
  - destruct (m !! AVERAGE_PRECISION_STAT_LABEL w);
      [destruct (m !! AVERAGE_RECALL_STAT_LABEL w)|]; intros [= <- <- <-] || done.
    by apply has_labels_recorded.
  - handlers e; intros [= <- <- <-] || done; done.
Qed.

(** Every trial that begins is started and attempted, whatever comes of
    it. *)
Lemma trial_events i t st :
  has_labels w t →
  ∃ es, events (trial w i t st).2 = events st ++ es ∧
        started es = [i] ∧ attempted es = [i].
Proof.
  intros Ht.
  destruct (configure_run i st) as (spec & kw & opt & k1 & _ & _ & _ & Hc).
  rewrite (trial_configured _ _ _ _ _ _ Hc), attempt_cases by done.
  destruct (attempt_outcome_events i opt None t
              (State (S k1) (events st ++ configured_events w i spec opt)))
    as (es & Hes & Hs & Ha).
  exists (configured_events w i spec opt ++ train_event w i opt None :: es).
  rewrite Hes. unfold after. cbn [draws events].
  split_and!.
  - by rewrite <-app_assoc.
  - rewrite started_app. change (started (train_event w i opt None :: es)) with (started es).
    by rewrite Hs.
  - rewrite attempted_app.
    change (attempted (train_event w i opt None :: es)) with (i :: attempted es).
    by rewrite Ha.
Qed.

Lemma trial_has_labels i t st c t' st' :
  has_labels w t → trial w i t st = (Return (c, t'), st') → has_labels w t'.
Proof.
  intros Ht.
  destruct (configure_run i st) as (spec & kw & opt & k1 & _ & _ & _ & Hc).
  rewrite (trial_configured _ _ _ _ _ _ Hc), attempt_cases by done.
  by apply attempt_outcome_has_labels.
Qed.

(** When the loop returns, the trials it started are those it attempted: a
    prefix of its indices, all of them unless it ended by [break]. *)
Lemma for_trials_events trials t st c t' st' :
  has_labels w t →
  for_trials w trials t st = (Return (c, t'), st') →
  has_labels w t' ∧
  ∃ es done_, events st' = events st ++ es ∧
    started es = done_ ∧ attempted es = done_ ∧
    done_ `prefix_of` trials ∧ (c = Next → done_ = trials) ∧ c ≠ Continue.
Proof.
  revert t st. induction trials as [|i rest IH]; intros t st Ht.
  - intros [= <- <- <-]. split; [done|]. exists [], []. by rewrite app_nil_r.
  - rewrite for_trials_cons.
    destruct (trial_events i t st Ht) as (es1 & Hes1 & Hs1 & Ha1).
    pose proof (trial_has_labels i t st) as Hlab.
    destruct (trial w i t st) as [[[c1 t1]|e] st1]; [|by destruct e].
    specialize (Hlab c1 t1 st1 Ht eq_refl). cbn [snd] in Hes1.
    assert (c1 = Break ∨ c1 ≠ Break) as [->|Hc1] by (destruct c1; auto).
    + intros [= <- <- <-]. split; [done|]. exists es1, [i].
      split_and!; [done..| |done|done]. by exists rest.
    + intros Hloop.
      assert (for_trials w rest t1 st1 = (Return (c, t'), st')) as Hrest
        by (by destruct c1).
      destruct (IH t1 st1 Hlab Hrest) as (Ht' & es & done_ & Hes & Hs & Ha & Hp & Hn & Hc).
      split; [done|]. exists (es1 ++ es), (i :: done_).
      rewrite Hes, Hes1, started_app, attempted_app, Hs1, Ha1, Hs, Ha, <-app_assoc.
      split_and!; [done..|by apply prefix_cons| |done].
      intros ->. by rewrite Hn.
Qed.

Lemma for_trials_app before rest t st t' st' :
  for_trials w before t st = (Return (Next, t'), st') →
  for_trials w (before ++ rest) t st = for_trials w rest t' st'.
Proof.
  revert t st. induction before as [|i before IH]; intros t st.
  - by intros [= <- <-].
  - cbn [app]. rewrite !for_trials_cons.
    destruct (trial w i t st) as [[[[] t1]|e] st1]; try done; apply IH.
Qed.

(** *** The report *)

Lemma plot_items_run items st :
  plot_items items st = (Return (), after st (plot_events items)).
Proof.
  revert st. induction items as [|[k v] items IH]; intros st.
  - by rewrite after_nil.
  - cbn [plot_items]. st_run. rewrite emit_run, IH. by rewrite after_after.
Qed.

(** The report of totals that have both labels runs to its end: it writes
    one line per recorded trial in each of the two plots, saves both and
    closes the log. *)
Lemma report_run t st ap ar :
  t !! AVERAGE_PRECISION_STAT_LABEL w = Some ap →
  t !! AVERAGE_RECALL_STAT_LABEL w = Some ar →
  report w (use_s3 w) t st = (Return (), after st (report_events w ap ar)).
Proof.
  intros Hap Har. unfold report, create_plot. rewrite Hap, Har. st_run.
  rewrite !emit_run, plot_items_run, !emit_run, plot_items_run, !emit_run.
  unfold report_events. rewrite !after_after.
  destruct (use_s3 w); [rewrite emit_run, after_after|]; by rewrite <-?app_assoc.
Qed.

Lemma prologue_run st : prologue w st = (Return (), after st (prologue_events w)).
Proof.
  unfold prologue, prologue_events. destruct (use_s3 w); [done|].
  by rewrite after_nil.
Qed.

(** [main] is the loop, then the report of what the loop leaves; an
    exception that leaves the loop leaves [main], and nothing is reported. *)
Lemma main_run :
  main w initial =
    match trial_loop w (after initial (prologue_events w)) with
    | (Return (_, t), st) =>
        (Return t,
         after st (report_events w (default [] (t !! AVERAGE_PRECISION_STAT_LABEL w))
                                   (default [] (t !! AVERAGE_RECALL_STAT_LABEL w))))
    | (Raise e, st) => (Raise e, st)
    end.
Proof.
  unfold main. st_run. rewrite prologue_run.
  pose proof (for_trials_events (range (num_trials (args w))) (empty_totals w)
                (after initial (prologue_events w))) as Hloop.
  unfold trial_loop.
  destruct (for_trials w _ _ _) as [[[c t]|e] st]; [|done].
  destruct (Hloop c t st has_labels_empty eq_refl) as [[[ap Hap] [ar Har]] _].
  rewrite (report_run t st ap ar Hap Har), Hap, Har. done.
Qed.

Lemma main_reaches before i rest t st :
  reaches w before i rest t st →
  main w initial =
    match for_trials w (i :: rest) t st with
    | (Return (_, t'), st') =>
        (Return t',
         after st' (report_events w (default [] (t' !! AVERAGE_PRECISION_STAT_LABEL w))
                                    (default [] (t' !! AVERAGE_RECALL_STAT_LABEL w))))
    | (Raise e, st') => (Raise e, st')
    end.
Proof.
  intros [Hrange Hbefore]. rewrite main_run. unfold trial_loop.
  by rewrite Hrange, (for_trials_app _ _ _ _ _ _ Hbefore).
Qed.

Lemma reaches_inv before i rest t st :
  reaches w before i rest t st →
  has_labels w t ∧
  started (events st) = before ∧ attempted (events st) = before.
Proof.
  intros [_ Hbefore].
  apply for_trials_events in Hbefore as (Ht & es & done_ & Hes & Hs & Ha & _ & Hn & _);
    [|apply has_labels_empty].
  split; [done|]. rewrite Hes. cbn [after initial events app].
  rewrite started_app, attempted_app, Hs, Ha, Hn by done.
  unfold prologue_events. by destruct (use_s3 w).
Qed.

Lemma range_split n before i rest :
  range n = before ++ i :: rest → before = seq 0 i ∧ rest = seq (S i) (length rest).
Proof.
  unfold range. intros H.
  assert (length before = i) as Hlen.
  { assert (seq 0 (Z.to_nat n) !! length before = Some i) as Hi
      by (rewrite H; apply list_lookup_middle; done).
    apply lookup_seq in Hi as [-> _]. done. }
  assert (Z.to_nat n = i + S (length rest))%nat as Hn.
  { apply (f_equal length) in H. rewrite length_seq, length_app in H. simpl in H. lia. }
  rewrite Hn, seq_app in H. cbn [seq] in H.
  apply app_inj_1 in H as [H1 H2]; [|by rewrite length_seq].
  injection H2 as H2. by split.
Qed.

(** *** The claims about the loop *)

(** C1.  In every session, for every trial [i] that the session reaches:
    when the training call of the trial raises a [RuntimeError], the loop
    logs the reason under the index of the trial and goes on with the
    trials that remain, with the totals as they were; the next trial, when
    there is one, is started and attempted; and when none of the trials
    that remain ends the session by itself, every index up to the last is
    attempted and [main] returns after its report. *)
Theorem runtime_error_continues before i rest t st opt sched stc err :
  reaches w before i rest t st →
  configure w i st = (Return (opt, sched), stc) →
  train_model w i opt sched = Raise (RuntimeError err) →
  let st' := after stc [train_event w i opt sched; LogAndPrint i (TrainingFailed err)] in
  trial w i t st = (Return (Continue, t), st') ∧
  log_file (events st') = log_file (events stc) ++ [(i, TrainingFailed err)] ∧
  for_trials w (i :: rest) t st = for_trials w rest t st' ∧
  (∀ j rest', rest = j :: rest' →
     ∃ es, events (trial w j t st').2 = events st' ++ es ∧
           started es = [j] ∧ attempted es = [j]) ∧
  ((∀ j, j ∈ rest → survivable w j) →
     ∃ t' st'' reported,
       for_trials w rest t st' = (Return (Next, t'), st'') ∧
       attempted (events st'') = range (num_trials (args w)) ∧
       main w initial = (Return t', after st'' reported)).
Proof.
  intros Hreach Hc Htrain st'.
  destruct (reaches_inv _ _ _ _ _ Hreach) as (Ht & Hstarted & Hattempted).
  assert (trial w i t st = (Return (Continue, t), st')) as Htrial.
  { rewrite (trial_configured _ _ _ _ _ _ Hc). by apply attempt_RuntimeError. }
  assert (for_trials w (i :: rest) t st = for_trials w rest t st') as Hloop
    by (by rewrite for_trials_cons, Htrial).
  split_and!; [done| |done|..].
  - unfold st', after. cbn [events]. by rewrite log_file_app.
  - intros j rest' _. by apply trial_events.
  - intros Hrest.
    destruct (for_trials_survivable rest t st' Ht Hrest) as (t' & st'' & Hrest' & Ht' & Ha & _).
    destruct Ht' as [[ap Hap] [ar Har]].
    exists t', st'', (report_events w ap ar). split_and!; [done|..].
    + destruct (trial_events i t st Ht) as (es & Hes & _ & Hai).
      rewrite Htrial in Hes. cbn [snd] in Hes.
      rewrite Ha, Hes, attempted_app, Hai, Hattempted, <-app_assoc.
      by destruct Hreach as [-> _].
    + rewrite (main_reaches _ _ _ _ _ Hreach), Hloop, Hrest', Hap, Har. done.
Qed.

(** C2.  In every session, for every trial [i] that the session reaches:
    when the training call of the trial raises [KeyboardInterrupt], the loop
    ends there; the trials started are those before [i] and [i] itself, so
    none with a greater index; and [main] reports the totals of the trials
    before [i] as they were: one line per recorded trial in each plot, both
    plots saved, the log closed. *)
Theorem keyboard_interrupt_stops_and_reports before i rest t st opt sched stc :
  reaches w before i rest t st →
  configure w i st = (Return (opt, sched), stc) →
  train_model w i opt sched = Raise KeyboardInterrupt →
  let st' := after stc [train_event w i opt sched;
                        LogAndPrint i UserInitiatedTermination] in
  ∃ ap ar,
    t !! AVERAGE_PRECISION_STAT_LABEL w = Some ap ∧
    t !! AVERAGE_RECALL_STAT_LABEL w = Some ar ∧
    for_trials w (i :: rest) t st = (Return (Break, t), st') ∧
    main w initial = (Return t, after st' (report_events w ap ar)) ∧
    started (events (after st' (report_events w ap ar))) = seq 0 (S i) ∧
    attempted (events (after st' (report_events w ap ar))) = seq 0 (S i) ∧
    (∀ j, (i < j)%nat → j ∉ started (events (after st' (report_events w ap ar)))) ∧
    (∀ k v, (k, v) ∈ ap → PltPlot v k ∈ report_events w ap ar) ∧
    (∀ k v, (k, v) ∈ ar → PltPlot v k ∈ report_events w ap ar) ∧
    PltSavefig AP ∈ report_events w ap ar ∧
    PltSavefig AR ∈ report_events w ap ar ∧
    LogFileClose ∈ report_events w ap ar.
Proof.
  intros Hreach Hc Htrain st'.
  destruct (reaches_inv _ _ _ _ _ Hreach) as (Ht & Hstarted & Hattempted).
  destruct (Ht) as [[ap Hap] [ar Har]]. exists ap, ar.
  assert (trial w i t st = (Return (Break, t), st')) as Htrial.
  { rewrite (trial_configured _ _ _ _ _ _ Hc). by apply attempt_KeyboardInterrupt. }
  assert (for_trials w (i :: rest) t st = (Return (Break, t), st')) as Hloop
    by (by rewrite for_trials_cons, Htrial).
  destruct (trial_events i t st Ht) as (es & Hes & Hsi & Hai).
  rewrite Htrial in Hes. cbn [snd] in Hes.
  pose proof Hreach as [Hrange _]. apply range_split in Hrange as [Hbefore _].
  assert (Hrep_s : started (report_events w ap ar) = []).
  { unfold report_events, plot_events. rewrite !started_app.
    assert (∀ items : list (nat * list float),
              started ((λ kv, @PltPlot optimizer lr_scheduler kv.2 kv.1) <$> items) = [])
      as Hplots by (intros items; induction items; done).
    rewrite !Hplots. by destruct (use_s3 w). }
  assert (Hrep_a : attempted (report_events w ap ar) = []).
  { unfold report_events, plot_events. rewrite !attempted_app.
    assert (∀ items : list (nat * list float),
              attempted ((λ kv, @PltPlot optimizer lr_scheduler kv.2 kv.1) <$> items) = [])
      as Hplots by (intros items; induction items; done).
    rewrite !Hplots. by destruct (use_s3 w). }
  assert (Hs : started (events (after st' (report_events w ap ar))) = seq 0 (S i)).
  { cbn [after events]. rewrite started_app, Hrep_s, app_nil_r, Hes, started_app.
    rewrite Hsi, Hstarted, Hbefore. by rewrite seq_S. }
  split_and!; try done.
  - by rewrite (main_reaches before i rest t st Hreach), Hloop, Hap, Har.
  - cbn [after events]. rewrite attempted_app, Hrep_a, app_nil_r, Hes, attempted_app.
    rewrite Hai, Hattempted, Hbefore. by rewrite seq_S.
  - intros j Hj. rewrite Hs, elem_of_seq. lia.
  - intros k v Hkv. unfold report_events. rewrite !elem_of_app. right. left.
    apply list_elem_of_fmap. by exists (k, v).
  - intros k v Hkv. unfold report_events. rewrite !elem_of_app. do 3 right. left.
    apply list_elem_of_fmap. by exists (k, v).
  - unfold report_events. rewrite !elem_of_app. right. right. left.
    rewrite !elem_of_cons. tauto.
  - unfold report_events. rewrite !elem_of_app. do 4 right. left.
    rewrite !elem_of_cons. tauto.
  - unfold report_events. rewrite !elem_of_app. do 4 right. left.
    rewrite !elem_of_cons. tauto.
Qed.

(** C3, as the script has it.  In every session, for every trial [i] that
    the session reaches: an exception raised by the training call that is
    an instance of [RuntimeError], of the class or of a subclass, is
    contained: its text is logged under [i] and the loop goes on with the
    trials that remain; one that is an instance of [KeyboardInterrupt] is
    caught too, and ends the loop early, [main] then reports; an exception
    [e] that is an instance of neither matches no handler: it leaves the
    loop and [main] with no later trial and no report; and so does the
    [KeyError] of the statements after the [try] when the metrics returned
    lack one of the two series. *)
Theorem only_handled_errors_contained before i rest t st opt sched stc :
  reaches w before i rest t st →
  configure w i st = (Return (opt, sched), stc) →
  match train_model w i opt sched with
  | Raise e =>
      if isinstance e "RuntimeError" then
        ∃ st', for_trials w (i :: rest) t st = for_trials w rest t st' ∧
               (i, TrainingFailed (exn_str e)) ∈ log_file (events st')
      else if isinstance e "KeyboardInterrupt" then
        ∃ st' reported,
          for_trials w (i :: rest) t st = (Return (Break, t), st') ∧
          main w initial = (Return t, after st' reported)
      else
        for_trials w (i :: rest) t st
          = (Raise e, after stc [train_event w i opt sched]) ∧
        main w initial = (Raise e, after stc [train_event w i opt sched])
  | Return m =>
      match m !! AVERAGE_PRECISION_STAT_LABEL w, m !! AVERAGE_RECALL_STAT_LABEL w with
      | Some ap, Some ar =>
          ∃ st', for_trials w (i :: rest) t st = for_trials w rest (recorded w i ap ar t) st'
      | Some ap, None =>
          ∃ st', main w initial = (Raise (KeyError (AVERAGE_RECALL_STAT_LABEL w)), st')
      | None, _ =>
          ∃ st', main w initial = (Raise (KeyError (AVERAGE_PRECISION_STAT_LABEL w)), st')
      end
  end.
Proof.
  intros Hreach Hc.
  destruct (reaches_inv _ _ _ _ _ Hreach) as (Ht & _ & _).
  pose proof (main_reaches _ _ _ _ _ Hreach) as Hmain.
  rewrite for_trials_cons, (trial_configured _ _ _ _ _ _ Hc), attempt_cases in Hmain by done.
  rewrite for_trials_cons, (trial_configured _ _ _ _ _ _ Hc), attempt_cases by done.
  unfold attempt_outcome in *.
  destruct (train_model w i opt sched) as [m|e].
  - destruct (m !! AVERAGE_PRECISION_STAT_LABEL w) as [ap|];
      [destruct (m !! AVERAGE_RECALL_STAT_LABEL w) as [ar|]|]; by eexists.
  - handlers e; [|by eexists _, _|by split].
    eexists. split; [done|]. cbn [after events].
    rewrite log_file_app, elem_of_app. right. cbn. rewrite !elem_of_cons. auto.
Qed.

(** C5, as the script has it.  For every trial, with the optimizer chosen
    for it: the optimizer is constructed from the values sampled for its
    options, and the properties recorded in the log are the [defaults] that
    this optimizer reports about itself; the messages of the configuration
    are the start time, the model, the name of the choice and these
    properties, in this order.  For a scheduler it is likewise what the
    scheduler has as attributes, without the one named "optimizer". *)
Theorem logged_properties_are_reported_defaults i st :
  ∃ spec kw k1,
    spec ∈ optimizer_choices ∧
    materialize (src w) (torch_optim w) spec i (S (draws st))
      = (Return (kw, torch_optim w (name spec) i kw), k1) ∧
    (configure w i st).1 = Return (torch_optim w (name spec) i kw, None) ∧
    log_file (events (configure w i st).2) =
      log_file (events st) ++
      [(i, StartTime (time_time w i));
       (i, ModelIs (network (args w)));
       (i, OptimizerChoice (name spec));
       (i, OptimizerProperties (optimizer_defaults w (torch_optim w (name spec) i kw)))] ∧
    ∀ optimizers schedulers opt s st',
      configure_from w optimizers schedulers i st = (Return (opt, Some s), st') →
      ∃ spec' choice,
        log_file (events st') =
          log_file (events st) ++
          [(i, StartTime (time_time w i));
           (i, ModelIs (network (args w)));
           (i, OptimizerChoice (name spec'));
           (i, OptimizerProperties (optimizer_defaults w opt));
           (i, LRSchedulerChoice (name choice));
           (i, LRSchedulerProperties
                 (filter (λ p, p.1 ≠ "optimizer") (scheduler_dict w s)))].
Proof.
  destruct (configure_run i st) as (spec & kw & opt & k1 & Hspec & Hmat & -> & Hc).
  exists spec, kw, k1. rewrite Hc. cbn [fst snd events].
  split_and!; [done..| |].
  - by rewrite log_file_app.
  - intros optimizers schedulers opt s st' H.
    apply configure_from_inv in H
      as (spec' & kw' & k1' & _ & _ & _ & choice & kw'' & k2 & _ & _ & ->).
    exists spec', choice. cbn [events]. by rewrite !log_file_app.
Qed.


(** C7.  A session of no trial: [main] returns after its report; the
    totals are the two empty maps; no trial is started and no training is
    called; and the report, which has no line to plot, sets the legend,
    title and axis of each of the two plots, saves both and closes the
    log. *)
Theorem empty_session_reports :
  num_trials (args w) = 0 →
  main w initial =
    (Return (empty_totals w),
     after initial (prologue_events w ++ report_events w [] [])) ∧
  empty_totals w !! AVERAGE_PRECISION_STAT_LABEL w = Some [] ∧
  empty_totals w !! AVERAGE_RECALL_STAT_LABEL w = Some [] ∧
  started (prologue_events w ++ report_events w [] []) = [] ∧
  attempted (prologue_events w ++ report_events w [] []) = [] ∧
  report_events w [] [] =
    [Print "Training session complete"; CreateOutputDir;
     PltLegend; PltTitle (AVERAGE_PRECISION_STAT_LABEL w); PltXlabel "Epoch";
     PltSavefig AP; PltClf;
     PltLegend; PltTitle (AVERAGE_RECALL_STAT_LABEL w); PltXlabel "Epoch";
     PltSavefig AR; LogFileClose; PltClose]
    ++ (if use_s3 w then [S3UploadFiles] else []).
Proof.
  intros Hn.
  assert (empty_totals w !! AVERAGE_PRECISION_STAT_LABEL w = Some []) as Hap.
  { unfold empty_totals. rewrite !lookup_insert. repeat case_decide; congruence. }
  assert (empty_totals w !! AVERAGE_RECALL_STAT_LABEL w = Some []) as Har.
  { unfold empty_totals. rewrite !lookup_insert. repeat case_decide; congruence. }
  split_and!; [|done|done|..].
  - rewrite main_run. unfold trial_loop. rewrite Hn.
    change (for_trials w (range 0) (empty_totals w) (after initial (prologue_events w)))
      with (@Return (control * totals) (Next, empty_totals w),
            after initial (prologue_events w)).
    cbn beta iota. by rewrite Hap, Har, after_after.
  - unfold prologue_events, report_events. by destruct (use_s3 w).
  - unfold prologue_events, report_events. by destruct (use_s3 w).
  - done.
Qed.

(** *** The totals *)

Lemma train_calls_app (es1 es2 : list (@event optimizer lr_scheduler)) :
  train_calls (es1 ++ es2) = train_calls es1 ++ train_calls es2.
Proof. apply omap_app. Qed.

Lemma attempted_train_calls (es : list (@event optimizer lr_scheduler)) :
  attempted es = (λ c, c.1.1) <$> train_calls es.
Proof.
  induction es as [|e es IH]; [done|].
  destruct e as [|? ?|j o sc n b nw| | | | | | | | | | |]; try done.
  change (attempted (TrainModel j o sc n b nw :: es)) with (j :: attempted es).
  by rewrite IH.
Qed.

Lemma train_calls_attempted (es : list (@event optimizer lr_scheduler)) i opt sched :
  (i, opt, sched) ∈ train_calls es → i ∈ attempted es.
Proof.
  intros H. rewrite attempted_train_calls. apply list_elem_of_fmap.
  by exists (i, opt, sched).
Qed.

(** What follows the training call in a trial logs, and calls nothing. *)
Lemma attempt_outcome_train_calls i opt sched t st :
  train_calls (events (attempt_outcome w i opt sched t st).2)
    = train_calls (events st) ++ [(i, opt, sched)].
Proof.
  unfold attempt_outcome.
  destruct (train_model w i opt sched) as [m|e].
  - destruct (m !! AVERAGE_PRECISION_STAT_LABEL w);
      [destruct (m !! AVERAGE_RECALL_STAT_LABEL w)|];
      cbn [snd after events]; by rewrite train_calls_app.
  - handlers e; cbn [snd after events]; by rewrite train_calls_app.
Qed.

Lemma train_calls_report_events ap ar : train_calls (report_events w ap ar) = [].
Proof.
  unfold report_events, plot_events. rewrite !train_calls_app.
  assert (∀ items : list (nat * list float),
            train_calls ((λ kv, @PltPlot optimizer lr_scheduler kv.2 kv.1) <$> items) = [])
    as Hplots by (intros items; induction items; done).
  rewrite !Hplots. by destruct (use_s3 w).
Qed.

(** The series under a label after the two assignments of trial [i]. *)
Lemma recorded_series_recorded i ap ar t label j :
  has_labels w t →
  label = AVERAGE_PRECISION_STAT_LABEL w ∧ (label = AVERAGE_RECALL_STAT_LABEL w → ap = ar)
  ∨ label = AVERAGE_RECALL_STAT_LABEL w →
  recorded_series (recorded w i ap ar t) label j =
    if decide (j = i)
    then Some (if decide (label = AVERAGE_RECALL_STAT_LABEL w) then ar else ap)
    else recorded_series t label j.
Proof.
  intros [[pap Hpap] [par Hpar]] Hlabel. unfold recorded_series, recorded.
  rewrite Hpap. cbn [default from_option Datatypes.id].
  destruct (decide (label = AVERAGE_RECALL_STAT_LABEL w)) as [->|Hne].
  - rewrite lookup_insert_eq. cbn [mbind option_bind].
    rewrite lookup_insert.
    destruct (decide (AVERAGE_PRECISION_STAT_LABEL w = AVERAGE_RECALL_STAT_LABEL w))
      as [Heq|Hne].
    + cbn [default from_option Datatypes.id].
      destruct (decide (j = i)) as [->|Hji].
      * by rewrite dict_get_setitem_eq.
      * rewrite !dict_get_setitem_ne by done. rewrite <-Heq, Hpap. done.
    + rewrite Hpar. cbn [default from_option Datatypes.id mbind option_bind].
      destruct (decide (j = i)) as [->|Hji].
      * by rewrite dict_get_setitem_eq.
      * by rewrite !dict_get_setitem_ne by done.
  - destruct Hlabel as [[-> _]|]; [|done].
    rewrite lookup_insert_ne, lookup_insert_eq by done. cbn [mbind option_bind].
    rewrite Hpap. cbn [mbind option_bind].
    destruct (decide (j = i)) as [->|Hji].
    + by rewrite dict_get_setitem_eq.
    + by rewrite dict_get_setitem_ne by done.
Qed.

Lemma totals_inv_start : totals_inv w (empty_totals w) (prologue_events w).
Proof.
  assert (train_calls (prologue_events w) = []) as Hcalls
    by (unfold prologue_events; by destruct (use_s3 w)).
  split_and!.
  - apply has_labels_empty.
  - rewrite attempted_train_calls, Hcalls. constructor.
  - intros i opt sched m Hin. rewrite Hcalls in Hin. by apply elem_of_nil in Hin.
  - intros label Hlabel i series. split.
    + unfold recorded_series, empty_totals. rewrite !lookup_insert.
      repeat case_decide; done.
    + intros (opt & sched & m & Hin & _). rewrite Hcalls in Hin.
      by apply elem_of_nil in Hin.
Qed.

(** A training call that raised leaves the totals and the invariant as they
    were. *)
Lemma totals_inv_raised t es i opt sched e :
  totals_inv w t es → i ∉ attempted es →
  train_model w i opt sched = Raise e →
  ∀ es', train_calls es' = train_calls es ++ [(i, opt, sched)] →
  totals_inv w t es'.
Proof.
  intros (Ht & Hnd & Hkeys & Hiff) Hfresh Htrain es' Hcalls.
  assert (∀ j o s, (j, o, s) ∈ train_calls es' ↔
                   (j, o, s) ∈ train_calls es ∨ (j, o, s) = (i, opt, sched)) as Hin.
  { intros j o s. by rewrite Hcalls, elem_of_app, list_elem_of_singleton. }
  split_and!; [done|..].
  - rewrite attempted_train_calls, Hcalls, fmap_app, <-attempted_train_calls.
    apply NoDup_app. split_and!; [done| |apply NoDup_singleton].
    intros j Hj ->%list_elem_of_singleton. done.
  - intros j o s m [Hold|[= -> -> ->]]%Hin Hm; [by eapply Hkeys|congruence].
  - intros label Hlabel j series. rewrite (Hiff label Hlabel). unfold returned_series.
    split; intros (o & s & m & Hc & Hm & Hs); exists o, s, m.
    + split_and!; [|done..]. apply Hin. by left.
    + split_and!; [|done..]. apply Hin in Hc as [Hold|[= -> -> ->]]; [done|congruence].
Qed.

(** A training call that returned both series: after the two assignments
    the totals hold them under the index of the trial. *)
Lemma totals_inv_returned t es i opt sched m ap ar :
  totals_inv w t es → i ∉ attempted es →
  train_model w i opt sched = Return m →
  m !! AVERAGE_PRECISION_STAT_LABEL w = Some ap →
  m !! AVERAGE_RECALL_STAT_LABEL w = Some ar →
  ∀ es', train_calls es' = train_calls es ++ [(i, opt, sched)] →
  totals_inv w (recorded w i ap ar t) es'.
Proof.
  intros (Ht & Hnd & Hkeys & Hiff) Hfresh Htrain Hap Har es' Hcalls.
  assert (∀ j o s, (j, o, s) ∈ train_calls es' ↔
                   (j, o, s) ∈ train_calls es ∨ (j, o, s) = (i, opt, sched)) as Hin.
  { intros j o s. by rewrite Hcalls, elem_of_app, list_elem_of_singleton. }
  split_and!.
  - by apply has_labels_recorded.
  - rewrite attempted_train_calls, Hcalls, fmap_app, <-attempted_train_calls.
    apply NoDup_app. split_and!; [done| |apply NoDup_singleton].
    intros j Hj ->%list_elem_of_singleton. done.
  - intros j o s m' [Hold|[= -> -> ->]]%Hin Hm; [by eapply Hkeys|].
    assert (m' = m) as -> by congruence. by rewrite Hap, Har.
  - intros label Hlabel j series.
    rewrite recorded_series_recorded; [|done|].
    2:{ destruct Hlabel as [-> | ->]; [left|by right].
        split; [done|]. intros Heq. rewrite Heq in Hap. congruence. }
    assert (m !! label = Some (if decide (label = AVERAGE_RECALL_STAT_LABEL w)
                               then ar else ap)) as Hm.
    { case_decide as Hl; [by rewrite Hl|]. by destruct Hlabel as [-> | ->]. }
    destruct (decide (j = i)) as [->|Hji].
    + split.
      * intros [= <-]. exists opt, sched, m. split_and!; [|done..].
        apply Hin. by right.
      * intros (o & s & m' & [Hold|[= -> ->]]%Hin & Hm' & Hs).
        -- by apply train_calls_attempted in Hold.
        -- congruence.
    + rewrite (Hiff label Hlabel). unfold returned_series.
      split; intros (o & s & m' & Hc & Hm' & Hs); exists o, s, m'.
      * split_and!; [|done..]. apply Hin. by left.
      * split_and!; [|done..]. apply Hin in Hc as [Hold|[= -> -> ->]]; done.
Qed.

Lemma trial_totals_inv i t st c t' st' :
  totals_inv w t (events st) → i ∉ attempted (events st) →
  trial w i t st = (Return (c, t'), st') →
  totals_inv w t' (events st') ∧ attempted (events st') = attempted (events st) ++ [i].
Proof.
  intros Hinv Hfresh Htrial. pose proof Hinv as (Ht & _).
  destruct (configure_run i st) as (spec & kw & opt & k1 & _ & _ & _ & Hc).
  rewrite (trial_configured _ _ _ _ _ _ Hc), attempt_cases in Htrial by done.
  pose proof (attempt_outcome_train_calls i opt None t
                (State (S k1) (events st ++ configured_events w i spec opt))) as Hcalls.
  rewrite Htrial in Hcalls. cbn [snd events] in Hcalls.
  rewrite train_calls_app in Hcalls.
  change (train_calls (configured_events w i spec opt)) with
    (@nil (nat * optimizer * option lr_scheduler)) in Hcalls.
  rewrite app_nil_r in Hcalls.
  split; [|by rewrite !attempted_train_calls, Hcalls, fmap_app].
  unfold attempt_outcome in Htrial.
  destruct (train_model w i opt None) as [m|e] eqn:Htrain.
  - destruct (m !! AVERAGE_PRECISION_STAT_LABEL w) as [ap|] eqn:Hap; [|done].
    destruct (m !! AVERAGE_RECALL_STAT_LABEL w) as [ar|] eqn:Har; [|done].
    injection Htrial as <- <- <-. by eapply totals_inv_returned.
  - handlers e; try done; injection Htrial as <- <- <-; by eapply totals_inv_raised.
Qed.

Lemma for_trials_totals_inv trials t st c t' st' :
  totals_inv w t (events st) → NoDup trials →
  (∀ j, j ∈ trials → j ∉ attempted (events st)) →
  for_trials w trials t st = (Return (c, t'), st') →
  totals_inv w t' (events st').
Proof.
  revert t st. induction trials as [|i rest IH]; intros t st Hinv Hnd Hfresh.
  - by intros [= <- <- <-].
  - rewrite for_trials_cons.
    pose proof (trial_totals_inv i t st) as Hstep.
    apply NoDup_cons in Hnd as [Hi Hnd].
    destruct (trial w i t st) as [[[c1 t1]|e] st1]; [|by destruct e].
    destruct (Hstep c1 t1 st1 Hinv) as [Hinv1 Ha1]; [apply Hfresh; by left|done|].
    assert (c1 = Break ∨ c1 ≠ Break) as [->|Hc1] by (destruct c1; auto).
    + by intros [= <- <- <-].
    + intros Hloop.
      assert (for_trials w rest t1 st1 = (Return (c, t'), st')) as Hrest
        by (by destruct c1).
      apply (IH t1 st1); [done..| |done].
      intros j Hj. rewrite Ha1, not_elem_of_app, list_elem_of_singleton.
      split; [apply Hfresh; by right|]. by intros ->.
Qed.

(** C4.  When [main] returns, under each of the two labels and for every
    index [i]: the totals hold a series for [i] exactly when the training
    call of trial [i] was made and returned normally, and the series is the
    one it returned under that label; every training call that returned has
    its entry, and a trial whose training call raised, or was never made,
    has none. *)
Theorem totals_iff_training_returned t stf :
  main w initial = (Return t, stf) →
  ∀ label,
    label = AVERAGE_PRECISION_STAT_LABEL w ∨ label = AVERAGE_RECALL_STAT_LABEL w →
    ∀ i,
      (∀ series,
         recorded_series t label i = Some series ↔
         ∃ opt sched m,
           (i, opt, sched) ∈ train_calls (events stf) ∧
           train_model w i opt sched = Return m ∧
           m !! label = Some series) ∧
      (∀ opt sched m,
         (i, opt, sched) ∈ train_calls (events stf) →
         train_model w i opt sched = Return m →
         recorded_series t label i = m !! label ∧ is_Some (m !! label)) ∧
      (∀ opt sched e,
         (i, opt, sched) ∈ train_calls (events stf) →
         train_model w i opt sched = Raise e →
         recorded_series t label i = None) ∧
      (i ∉ attempted (events stf) → recorded_series t label i = None).
Proof.
  intros Hmain label Hlabel i.
  rewrite main_run in Hmain. unfold trial_loop in Hmain.
  destruct (for_trials w _ _ _) as [[[c t0]|e] st] eqn:Hloop; [|done].
  injection Hmain as <- <-.
  apply for_trials_totals_inv in Hloop as Hinv;
    [|apply totals_inv_start|apply NoDup_seq|].
  2:{ intros j _. cbn [after initial events app].
      rewrite attempted_train_calls.
      assert (train_calls (prologue_events w) = []) as ->
        by (unfold prologue_events; by destruct (use_s3 w)).
      apply not_elem_of_nil. }
  assert (train_calls (events (after st (report_events w
            (default [] (t0 !! AVERAGE_PRECISION_STAT_LABEL w))
            (default [] (t0 !! AVERAGE_RECALL_STAT_LABEL w))))) = train_calls (events st))
    as Hcalls.
  { cbn [after events]. by rewrite train_calls_app, train_calls_report_events, app_nil_r. }
  rewrite attempted_train_calls, Hcalls, <-attempted_train_calls.
  destruct Hinv as (Ht & Hnd & Hkeys & Hiff).
  assert (∀ o s o' s', (i, o, s) ∈ train_calls (events st) →
                       (i, o', s') ∈ train_calls (events st) → o = o' ∧ s = s') as Huniq.
  { intros o s o' s' H1 H2.
    rewrite attempted_train_calls in Hnd.
    apply list_elem_of_lookup in H1 as [k1 H1]. apply list_elem_of_lookup in H2 as [k2 H2].
    assert (k1 = k2) as ->.
    { eapply NoDup_lookup; [exact Hnd|..]; rewrite list_lookup_fmap.
      - by rewrite H1. - by rewrite H2. }
    split; congruence. }
  split_and!.
  - intros series. apply (Hiff label Hlabel).
  - intros opt sched m Hin Hm.
    destruct (Hkeys i opt sched m Hin Hm) as [Hap Har].
    assert (is_Some (m !! label)) as [series Hs] by (by destruct Hlabel as [-> | ->]).
    split; [|by rewrite Hs]. rewrite Hs. apply (Hiff label Hlabel).
    by exists opt, sched, m.
  - intros opt sched e Hin He.
    destruct (recorded_series t0 label i) as [series|] eqn:Hrec; [|done].
    apply (Hiff label Hlabel) in Hrec as (o & s & m & Hin' & Hm & _).
    destruct (Huniq _ _ _ _ Hin Hin') as [-> ->]. congruence.
  - intros Hnot.
    destruct (recorded_series t0 label i) as [series|] eqn:Hrec; [|done].
    apply (Hiff label Hlabel) in Hrec as (o & s & m & Hin' & _).
    by apply train_calls_attempted in Hin'.
Qed.

End SearchFacts.

(** ** The claims on a concrete session *)

Section DemoFacts.
Import Hparams HparamSearch.

(** In the demo world every trial but the bad one returns both series. *)
Lemma demo_survivable n bad err j :
  survivable (Demo.world n bad (RuntimeError err)) j.
Proof.
  intros opt sched. cbn. unfold Demo.train_model.
  case_bool_decide; [done|]. split; by eexists.
Qed.

Lemma demo_reaches_first n bad e rest :
  range n = 0%nat :: rest →
  reaches (Demo.world n bad e) [] 0 rest
    (empty_totals (Demo.world n bad e)) initial.
Proof. intros Hn. split; [done|reflexivity]. Qed.

End DemoFacts.

(** Two trials, the first of which runs out of memory: the loop goes on
    with the second. *)
Lemma runtime_error_continues_witness :
  ∃ st',
    HparamSearch.for_trials (Demo.world 2 0 (RuntimeError "CUDA out of memory")) [0; 1]%nat
      (HparamSearch.empty_totals (Demo.world 2 0 (RuntimeError "CUDA out of memory")))
      HparamSearch.initial
    = HparamSearch.for_trials (Demo.world 2 0 (RuntimeError "CUDA out of memory")) [1%nat]
        (HparamSearch.empty_totals (Demo.world 2 0 (RuntimeError "CUDA out of memory")))
        st'.
Proof.
  pose (w := Demo.world 2 0 (RuntimeError "CUDA out of memory")).
  destruct (configure_run w 0 HparamSearch.initial)
    as (spec & kw & opt & k1 & _ & _ & _ & Hc).
  destruct (runtime_error_continues w [] 0%nat [1%nat] (HparamSearch.empty_totals w)
              HparamSearch.initial opt None _ "CUDA out of memory"
              (demo_reaches_first 2 0 _ [1%nat] eq_refl) Hc eq_refl)
    as (_ & _ & Hloop & _).
  eexists. exact Hloop.
Defined.

(** Three trials, the first of which is interrupted: the loop ends there
    and [main] returns the totals. *)
Lemma keyboard_interrupt_stops_and_reports_witness :
  ∃ st,
    HparamSearch.main (Demo.world 3 0 KeyboardInterrupt) HparamSearch.initial
    = (Return (HparamSearch.empty_totals (Demo.world 3 0 KeyboardInterrupt)), st).
Proof.
  pose (w := Demo.world 3 0 KeyboardInterrupt).
  destruct (configure_run w 0 HparamSearch.initial)
    as (spec & kw & opt & k1 & _ & _ & _ & Hc).
  destruct (keyboard_interrupt_stops_and_reports w [] 0%nat [1; 2]%nat
              (HparamSearch.empty_totals w) HparamSearch.initial opt None _
              (demo_reaches_first 3 0 _ [1; 2]%nat eq_refl) Hc eq_refl)
    as (ap & ar & _ & _ & _ & Hmain & _).
  eexists. exact Hmain.
Defined.

(** C3 as stated fails: in a session of two trials whose first training
    call raises a [ValueError], the error leaves the loop and [main]; the
    second trial is never attempted and nothing is reported. *)
Lemma value_error_escapes_the_loop :
  (Demo.session 2 0 (ValueError "targets are empty")).1
    = Raise (ValueError "targets are empty") ∧
  HparamSearch.attempted
    (HparamSearch.events (Demo.session 2 0 (ValueError "targets are empty")).2) = [0%nat] ∧
  HparamSearch.started
    (HparamSearch.events (Demo.session 2 0 (ValueError "targets are empty")).2) = [0%nat] ∧
  HparamSearch.PltSavefig HparamSearch.AP
    ∉ HparamSearch.events (Demo.session 2 0 (ValueError "targets are empty")).2.
Proof.
  split_and!; [reflexivity..|].
  intros Hin. apply list_elem_of_lookup in Hin as [k Hk].
  do 6 (destruct k as [|k]; [discriminate Hk|]). discriminate Hk.
Qed.

Lemma only_handled_errors_contained_witness :
  ∃ st,
    HparamSearch.main (Demo.world 2 0 (ValueError "targets are empty")) HparamSearch.initial
    = (Raise (ValueError "targets are empty"), st).
Proof.
  pose (w := Demo.world 2 0 (ValueError "targets are empty")).
  destruct (configure_run w 0 HparamSearch.initial)
    as (spec & kw & opt & k1 & _ & _ & _ & Hc).
  pose proof (only_handled_errors_contained w [] 0%nat [1%nat]
                (HparamSearch.empty_totals w) HparamSearch.initial opt None _
                (demo_reaches_first 2 0 _ [1%nat] eq_refl) Hc) as H.
  cbn in H. destruct H as [_ Hmain].
  eexists. exact Hmain.
Defined.

(** Two trials, the first of which fails: [main] returns, and the totals
    hold a series for trial 0 exactly when its training call returned. *)
Lemma totals_iff_training_returned_witness :
  ∃ t stf,
    HparamSearch.main (Demo.world 2 0 (RuntimeError "CUDA out of memory")) HparamSearch.initial
      = (Return t, stf) ∧
    ∀ series,
      HparamSearch.recorded_series t Demo.precision 0 = Some series ↔
      ∃ opt sched m,
        (0%nat, opt, sched) ∈ HparamSearch.train_calls (HparamSearch.events stf) ∧
        Demo.train_model 0 (RuntimeError "CUDA out of memory") 0 opt sched = Return m ∧
        m !! Demo.precision = Some series.
Proof.
  pose (w := Demo.world 2 0 (RuntimeError "CUDA out of memory")).
  destruct (for_trials_survivable w (range 2) (HparamSearch.empty_totals w)
              (HparamSearch.after HparamSearch.initial (HparamSearch.prologue_events w))
              (has_labels_empty w) (λ j _, demo_survivable 2 0 _ j))
    as (t & st & Hloop & _).
  pose proof (main_run w) as Hmain. unfold HparamSearch.trial_loop in Hmain.
  change (HparamSearch.num_trials (HparamSearch.args w)) with 2 in Hmain.
  rewrite Hloop in Hmain.
  eexists t, _. split; [exact Hmain|].
  exact (proj1 (totals_iff_training_returned w t _ Hmain Demo.precision
                  (or_introl eq_refl) 0%nat)).
Defined.

(** C5 as stated fails: with an optimizer that, like [torch.optim.SGD],
    reports the defaults of its constructor next to the arguments it was
    given, the properties logged for trial 0 are the sampled values followed
    by two entries that were never sampled. *)
Lemma logged_properties_are_not_the_sampled_values :
  ∃ kw opt k1,
    Hparams.materialize Demo.src Demo.torch_optim HparamSearch.sgd 0%nat 1%nat
      = (Return (kw, opt), k1) ∧
    length kw = 3%nat ∧
    Hparams.lookup_kw "dampening" kw = None ∧
    HparamSearch.log_file (HparamSearch.events (Demo.session 1 1 KeyboardInterrupt).2)
      !! 3%nat
      = Some (0%nat,
              HparamSearch.OptimizerProperties
                (kw ++ [("dampening", Hparams.Int 0); ("nesterov", Hparams.Bool false)])) ∧
    kw ++ [("dampening", Hparams.Int 0); ("nesterov", Hparams.Bool false)] ≠ kw.
Proof.
  eexists _, _, _. split; [reflexivity|].
  split_and!; [reflexivity..|].
  intros H. apply (f_equal length) in H. discriminate H.
Qed.



(** A session of no trial. *)
Lemma empty_session_reports_witness :
  HparamSearch.main (Demo.world 0 0 KeyboardInterrupt) HparamSearch.initial
  = (Return (HparamSearch.empty_totals (Demo.world 0 0 KeyboardInterrupt)),
     HparamSearch.after HparamSearch.initial
       (HparamSearch.prologue_events (Demo.world 0 0 KeyboardInterrupt)
        ++ HparamSearch.report_events (Demo.world 0 0 KeyboardInterrupt) [] [])).
Proof.
  exact (proj1 (empty_session_reports (Demo.world 0 0 KeyboardInterrupt) eq_refl)).
Defined.

(** The scenario of five trials whose third training call fails: all five
    are attempted, and the totals hold the precision series of the four
    others. *)
Example five_trials_third_fails :
  HparamSearch.attempted
    (HparamSearch.events (Demo.session 5 2 (RuntimeError "loss is NaN")).2)
    = [0; 1; 2; 3; 4]%nat ∧
  match (Demo.session 5 2 (RuntimeError "loss is NaN")).1 with
  | Return t =>
      (λ i, HparamSearch.recorded_series t Demo.precision i) <$> [0; 1; 2; 3; 4]%nat
      = [Some [0.5; 0.75]%float; Some [0.5; 0.75]%float; None;
         Some [0.5; 0.75]%float; Some [0.5; 0.75]%float]
  | Raise _ => False
  end.
Proof. split; vm_compute; reflexivity. Qed.

(** The scenario of ten trials interrupted during the fourth: trials 0 to 3
    are started and none after, and the totals hold the recall series of the
    three trials that completed. *)
Example ten_trials_fourth_interrupted :
  HparamSearch.started
    (HparamSearch.events (Demo.session 10 3 KeyboardInterrupt).2)
    = [0; 1; 2; 3]%nat ∧
  match (Demo.session 10 3 KeyboardInterrupt).1 with
  | Return t =>
      (λ i, HparamSearch.recorded_series t Demo.recall i) <$> [0; 1; 2; 3; 4]%nat
      = [Some [0.25; 0.5]%float; Some [0.25; 0.5]%float; Some [0.25; 0.5]%float;
         None; None]
  | Raise _ => False
  end.
Proof. split; vm_compute; reflexivity. Qed.

(** * Further properties of the three scripts *)

(** ** Dictionaries in insertion order *)

Section DictFacts.

Lemma dict_setitem_fresh {V} (k : nat) (v : V) d :
  k ∉ d.*1 → dict_setitem k v d = d ++ [(k, v)].
Proof.
  induction d as [|[k' v'] d IH]; [done|].
  cbn [fmap list_fmap fst]. rewrite not_elem_of_cons. intros [Hk Hd].
  cbn [dict_setitem]. rewrite bool_decide_eq_false_2 by done.
  by rewrite IH.
Qed.

(** Assigning again to the key that was inserted last keeps its place. *)
Lemma dict_setitem_last {V} (k : nat) (v v' : V) d :
  k ∉ d.*1 → dict_setitem k v (d ++ [(k, v')]) = d ++ [(k, v)].
Proof.
  induction d as [|[k0 v0] d IH].
  - intros _. cbn. by rewrite bool_decide_eq_true_2.
  - cbn [fmap list_fmap fst]. rewrite not_elem_of_cons. intros [Hk Hd].
    cbn [app dict_setitem]. rewrite bool_decide_eq_false_2 by done.
    by rewrite IH.
Qed.

End DictFacts.

(** ** hparam_search.py: the trace of a session *)

Section SearchTraceFacts.
Import Hparams HparamSearch SearchTrace.

Context {optimizer lr_scheduler : Type}.
Variable w : @World optimizer lr_scheduler.

Implicit Types (st : @state optimizer lr_scheduler) (t : totals) (i : nat).

Lemma attempt_outcome_shape i opt t st :
  ∃ es, (attempt_outcome w i opt None t st).2 = after st es ∧
        Forall (trial_event i) es.
Proof.
  unfold attempt_outcome.
  destruct (train_model w i opt None) as [m|e].
  - destruct (m !! AVERAGE_PRECISION_STAT_LABEL w);
      [destruct (m !! AVERAGE_RECALL_STAT_LABEL w)|];
      eexists; (split; [reflexivity|]); repeat constructor.
  - handlers e; eexists; (split; [reflexivity|]); repeat constructor.
Qed.

(** The events of a trial are messages logged under its index and its
    training call, without a scheduler. *)
Lemma trial_shape i t st :
  has_labels w t →
  ∃ es, events (trial w i t st).2 = events st ++ es ∧ Forall (trial_event i) es.
Proof.
  intros Ht.
  destruct (configure_run w i st) as (spec & kw & opt & k1 & _ & _ & _ & Hc).
  rewrite (trial_configured _ _ _ _ _ _ _ Hc), attempt_cases by done.
  destruct (attempt_outcome_shape i opt t
              (State (S k1) (events st ++ configured_events w i spec opt)))
    as (es & Hes & Hshape).
  exists (configured_events w i spec opt ++ es).
  rewrite Hes. cbn [after events]. split; [by rewrite app_assoc|].
  apply Forall_app. split; [|done]. repeat constructor.
Qed.

(** The events of the loop, however it ends: trial by trial, in the order
    of the indices. *)
Lemma for_trials_shape trials t st :
  has_labels w t →
  ∃ es, events (for_trials w trials t st).2 = events st ++ es ∧
        Forall (λ e, ∃ i, i ∈ trials ∧ trial_event i e) es ∧
        (StronglySorted lt trials → StronglySorted le (omap event_trial es)).
Proof.
  revert t st. induction trials as [|i rest IH]; intros t st Ht.
  - exists []. cbn. rewrite app_nil_r. split_and!; [done|constructor|constructor].
  - destruct (trial_shape i t st Ht) as (es1 & Hes1 & Hshape1).
    assert (Forall (λ e, ∃ j, j ∈ i :: rest ∧ trial_event j e) es1) as Hin1.
    { eapply Forall_impl; [exact Hshape1|]. intros e He. exists i. split; [by left|done]. }
    assert (Forall (λ j, j = i) (omap event_trial es1)) as Hidx1.
    { apply Forall_forall. intros j [e [He Hj]]%list_elem_of_omap.
      rewrite Forall_forall in Hshape1. specialize (Hshape1 e He).
      destruct e as [|? m|? ? [] ? ? ?| | | | | | | | | | |]; try done.
      - injection Hj as <-. by destruct m.
      - by injection Hj as <-. }
    assert (StronglySorted le (omap event_trial es1)) as Hsorted1.
    { clear -Hidx1. induction Hidx1 as [|j l -> Hl IHl]; constructor; [done|].
      eapply Forall_impl; [exact Hl|]. by intros ? ->. }
    rewrite for_trials_cons.
    pose proof (trial_has_labels w i t st) as Hlab.
    destruct (trial w i t st) as [[[c1 t1]|e] st1]; cbn [snd] in Hes1.
    + specialize (Hlab c1 t1 st1 Ht eq_refl).
      destruct (IH t1 st1 Hlab) as (es2 & Hes2 & Hin2 & Hsorted2).
      assert (c1 = Break ∨ c1 ≠ Break) as [->|Hc1] by (destruct c1; auto).
      * exists es1. split_and!; done.
      * exists (es1 ++ es2).
        assert (events (for_trials w rest t1 st1).2 = events st ++ es1 ++ es2) as Heq
          by (by rewrite Hes2, Hes1, app_assoc).
        split_and!.
        -- by destruct c1.
        -- apply Forall_app. split; [done|].
           eapply Forall_impl; [exact Hin2|]. intros e (j & Hj & He).
           exists j. split; [by right|done].
        -- intros [Hlt Hrest]%StronglySorted_cons.
           rewrite omap_app. apply StronglySorted_app_2; [|done|by apply Hsorted2].
           intros j1 j2 Hj1 Hj2.
           rewrite Forall_forall in Hidx1. rewrite (Hidx1 j1 Hj1).
           apply list_elem_of_omap in Hj2 as (e & He & Hj2).
           rewrite Forall_forall in Hin2. destruct (Hin2 e He) as (j & Hj & Hev).
           rewrite Forall_forall in Hlt. specialize (Hlt j Hj).
           destruct e as [|? m|? ? [] ? ? ?| | | | | | | | | | |]; try done.
           ++ injection Hj2 as <-. destruct m; cbn in Hev; try done; lia.
           ++ injection Hj2 as <-. cbn in Hev. lia.
    + exists es1. split_and!; done.
Qed.

(** *** The totals as ordered lists *)

Lemma contributions_app label (es1 es2 : list (@event optimizer lr_scheduler)) :
  contributions w label (es1 ++ es2) = contributions w label es1 ++ contributions w label es2.
Proof. unfold contributions. by rewrite train_calls_app, omap_app. Qed.

Lemma contributions_keys label (es : list (@event optimizer lr_scheduler)) i :
  i ∈ (contributions w label es).*1 → i ∈ attempted es.
Proof.
  unfold contributions. intros [[j series] [-> Hin]]%list_elem_of_fmap.
  apply list_elem_of_omap in Hin as ([[j' opt] sched] & Hin & Hc).
  unfold contribution in Hc. cbn [fst snd] in Hc.
  destruct (train_model w j' opt sched) as [m|]; [|done].
  destruct (m !! label); [|done]. injection Hc as <- _.
  by eapply train_calls_attempted.
Qed.

Lemma recorded_items i ap ar t pap par :
  t !! AVERAGE_PRECISION_STAT_LABEL w = Some pap →
  t !! AVERAGE_RECALL_STAT_LABEL w = Some par →
  i ∉ pap.*1 → i ∉ par.*1 →
  (AVERAGE_PRECISION_STAT_LABEL w = AVERAGE_RECALL_STAT_LABEL w → ap = ar) →
  recorded w i ap ar t !! AVERAGE_PRECISION_STAT_LABEL w = Some (pap ++ [(i, ap)]) ∧
  recorded w i ap ar t !! AVERAGE_RECALL_STAT_LABEL w = Some (par ++ [(i, ar)]).
Proof.
  intros Hpap Hpar Hip Hir Heq. unfold recorded.
  rewrite Hpap. cbn [default from_option Datatypes.id].
  destruct (decide (AVERAGE_PRECISION_STAT_LABEL w = AVERAGE_RECALL_STAT_LABEL w))
    as [Hl|Hl].
  - rewrite <-Hl in *. rewrite lookup_insert_eq. cbn [default from_option Datatypes.id].
    rewrite lookup_insert_eq.
    assert (par = pap) as -> by congruence. rewrite (Heq eq_refl).
    cbn [default from_option Datatypes.id].
    rewrite (dict_setitem_fresh i ar pap) by done.
    by rewrite dict_setitem_last by done.
  - rewrite (lookup_insert_ne _ (AVERAGE_PRECISION_STAT_LABEL w)
               (AVERAGE_RECALL_STAT_LABEL w)) by done.
    rewrite Hpar. cbn [default from_option Datatypes.id].
    rewrite lookup_insert_ne, !lookup_insert_eq by done.
    by rewrite !dict_setitem_fresh by done.
Qed.

Lemma trial_items i t st c t' st' :
  totals_inv w t (events st) → items_inv w t (events st) →
  i ∉ attempted (events st) →
  trial w i t st = (Return (c, t'), st') →
  items_inv w t' (events st').
Proof.
  intros Hinv Hitems Hfresh Htrial. pose proof Hinv as (Ht & _).
  destruct (configure_run w i st) as (spec & kw & opt & k1 & _ & _ & _ & Hc).
  rewrite (trial_configured _ _ _ _ _ _ _ Hc), attempt_cases in Htrial by done.
  pose proof (attempt_outcome_train_calls w i opt None t
                (State (S k1) (events st ++ configured_events w i spec opt))) as Hcalls.
  rewrite Htrial in Hcalls. cbn [snd events] in Hcalls.
  rewrite train_calls_app in Hcalls.
  change (train_calls (configured_events w i spec opt)) with
    (@nil (nat * optimizer * option lr_scheduler)) in Hcalls.
  rewrite app_nil_r in Hcalls.
  assert (∀ label, contributions w label (events st') =
            contributions w label (events st)
            ++ from_option (λ x, [x]) [] (contribution w label (i, opt, None))) as Hnew.
  { intros label. unfold contributions. rewrite Hcalls, omap_app.
    f_equal; cbn; by destruct (contribution w label (i, opt, None)). }
  unfold attempt_outcome in Htrial. unfold contribution in Hnew. cbn [fst snd] in Hnew.
  destruct (train_model w i opt None) as [m|e] eqn:Htrain.
  - destruct (m !! AVERAGE_PRECISION_STAT_LABEL w) as [ap|] eqn:Hap; [|done].
    destruct (m !! AVERAGE_RECALL_STAT_LABEL w) as [ar|] eqn:Har; [|done].
    injection Htrial as <- <- <-.
    destruct (recorded_items i ap ar t
                (contributions w (AVERAGE_PRECISION_STAT_LABEL w) (events st))
                (contributions w (AVERAGE_RECALL_STAT_LABEL w) (events st)))
      as [Hrap Hrar].
    + apply Hitems. by left.
    + apply Hitems. by right.
    + intros Hin. by apply contributions_keys in Hin.
    + intros Hin. by apply contributions_keys in Hin.
    + intros Heq. rewrite Heq in Hap. congruence.
    + intros label [-> | ->]; rewrite Hnew.
      * by rewrite Hap.
      * by rewrite Har.
  - assert (t' = t) as ->
      by (handlers e; try done; by injection Htrial as <- <- <-).
    intros label Hlabel. rewrite Hnew. cbn. rewrite app_nil_r. by apply Hitems.
Qed.

Lemma for_trials_items trials t st c t' st' :
  totals_inv w t (events st) → items_inv w t (events st) →
  NoDup trials → (∀ j, j ∈ trials → j ∉ attempted (events st)) →
  for_trials w trials t st = (Return (c, t'), st') →
  items_inv w t' (events st').
Proof.
  revert t st. induction trials as [|i rest IH]; intros t st Hinv Hitems Hnd Hfresh.
  - by intros [= <- <- <-].
  - rewrite for_trials_cons.
    pose proof (trial_totals_inv w i t st) as Hstep.
    pose proof (trial_items i t st) as Hstep'.
    apply NoDup_cons in Hnd as [Hi Hnd].
    destruct (trial w i t st) as [[[c1 t1]|e] st1]; [|by destruct e].
    destruct (Hstep c1 t1 st1 Hinv) as [Hinv1 Ha1]; [apply Hfresh; by left|done|].
    assert (items_inv w t1 (events st1)) as Hitems1
      by (apply (Hstep' c1); [done..|apply Hfresh; by left|done]).
    assert (c1 = Break ∨ c1 ≠ Break) as [->|Hc1] by (destruct c1; auto).
    + by intros [= <- <- <-].
    + intros Hloop.
      assert (for_trials w rest t1 st1 = (Return (c, t'), st')) as Hrest
        by (by destruct c1).
      apply (IH t1 st1); [done..| |done].
      intros j Hj. rewrite Ha1, not_elem_of_app, list_elem_of_singleton.
      split; [apply Hfresh; by right|]. by intros ->.
Qed.

Lemma items_inv_start : items_inv w (empty_totals w) (prologue_events w).
Proof.
  assert (∀ label, contributions w label (prologue_events w) = []) as Hnil.
  { intros label. unfold contributions, prologue_events. by destruct (use_s3 w). }
  intros label Hlabel. rewrite Hnil. unfold empty_totals.
  rewrite !lookup_insert. destruct Hlabel as [-> | ->]; repeat case_decide; congruence.
Qed.

(** What the loop of a session that reports leaves: its state, the totals
    with their invariants, the trials it attempted. *)
Lemma main_returns_inv t stf :
  main w initial = (Return t, stf) →
  ∃ c st,
    trial_loop w (after initial (prologue_events w)) = (Return (c, t), st) ∧
    totals_inv w t (events st) ∧ items_inv w t (events st) ∧
    attempted (events st) `prefix_of` range (num_trials (args w)) ∧
    ∃ ap ar,
      t !! AVERAGE_PRECISION_STAT_LABEL w = Some ap ∧
      t !! AVERAGE_RECALL_STAT_LABEL w = Some ar ∧
      stf = after st (report_events w ap ar).
Proof.
  intros Hmain. rewrite main_run in Hmain. unfold trial_loop in *.
  destruct (for_trials w _ _ _) as [[[c t0]|e] st] eqn:Hloop; [|done].
  injection Hmain as <- <-. exists c, st.
  assert (∀ j, j ∈ range (num_trials (args w)) →
               j ∉ attempted (events (after initial (prologue_events w)))) as Hfresh.
  { intros j _. cbn [after initial events app]. rewrite attempted_train_calls.
    assert (train_calls (prologue_events w) = []) as ->
      by (unfold prologue_events; by destruct (use_s3 w)).
    apply not_elem_of_nil. }
  pose proof Hloop as Hinv.
  apply for_trials_totals_inv in Hinv; [|apply totals_inv_start|apply NoDup_seq|done].
  pose proof Hloop as Hitems.
  apply for_trials_items in Hitems;
    [|apply totals_inv_start|apply items_inv_start|apply NoDup_seq|done].
  pose proof Hloop as Hev.
  apply for_trials_events in Hev as (_ & es & done_ & Hes & _ & Ha & Hpre & _);
    [|apply has_labels_empty].
  split_and!; [done..| |].
  - rewrite Hes, attempted_app, Ha. cbn [after initial events app].
    rewrite attempted_train_calls.
    assert (train_calls (prologue_events w) = []) as ->
      by (unfold prologue_events; by destruct (use_s3 w)).
    done.
  - destruct Hinv as ([[ap Hap] [ar Har]] & _).
    exists ap, ar. by rewrite Hap, Har.
Qed.

(** *** The trace of [main] *)

Lemma StronglySorted_seq a n : StronglySorted lt (seq a n).
Proof.
  revert a. induction n as [|n IH]; intros a; cbn; constructor; [apply IH|].
  apply Forall_seq. intros j Hj. lia.
Qed.

Lemma report_events_reporting ap ar : Forall reporting_event (report_events w ap ar).
Proof.
  unfold report_events, plot_events. rewrite !Forall_app.
  assert (∀ items : list (nat * list float),
            Forall reporting_event
              ((λ kv, @PltPlot optimizer lr_scheduler kv.2 kv.1) <$> items)) as Hplots.
  { intros items. apply Forall_fmap, Forall_forall. by intros. }
  split_and!; try apply Hplots; repeat constructor.
  destruct (use_s3 w); repeat constructor.
Qed.

Lemma prologue_events_reporting : Forall reporting_event (prologue_events w).
Proof. unfold prologue_events. destruct (use_s3 w); repeat constructor. Qed.

(** Events of the report and of the transfers carry no trial. *)
Lemma reporting_no_trial (es : list (@event optimizer lr_scheduler)) :
  Forall reporting_event es →
  omap event_trial es = [] ∧ log_file es = [] ∧ train_calls es = [].
Proof.
  induction 1 as [|e es He _ (IH1 & IH2 & IH3)]; [done|].
  destruct e; try done.
Qed.

Lemma trial_events_not_reporting (es : list (@event optimizer lr_scheduler)) :
  Forall (λ e, ∃ i, trial_event i e) es →
  plotted es = [] ∧ Forall (λ e, ¬ reporting_event e) es.
Proof.
  induction 1 as [|e es [i He] _ [IH1 IH2]]; [by split|].
  destruct e; try done. all: split; [done|]; constructor; [by intros []|done].
Qed.

(** The trace of [main], however it ends: the statements before the loop,
    then the trials in the order of their indices, then, unless an exception
    left the loop, the report of the totals. *)
Lemma main_shape :
  ∃ es,
    Forall (λ e, ∃ i, i ∈ range (num_trials (args w)) ∧ trial_event i e) es ∧
    StronglySorted le (omap event_trial es) ∧
    match (main w initial).1 with
    | Return t =>
        ∃ ap ar,
          t !! AVERAGE_PRECISION_STAT_LABEL w = Some ap ∧
          t !! AVERAGE_RECALL_STAT_LABEL w = Some ar ∧
          events (main w initial).2 = prologue_events w ++ es ++ report_events w ap ar
    | Raise _ => events (main w initial).2 = prologue_events w ++ es
    end.
Proof.
  destruct (for_trials_shape (range (num_trials (args w))) (empty_totals w)
              (after initial (prologue_events w)) (has_labels_empty w))
    as (es & Hes & Hin & Hsorted).
  exists es. split; [done|]. split; [apply Hsorted, StronglySorted_seq|].
  rewrite main_run. unfold trial_loop.
  pose proof (for_trials_events w (range (num_trials (args w))) (empty_totals w)
                (after initial (prologue_events w))) as Hret.
  destruct (for_trials w _ _ _) as [[[c t]|e] st]; cbn [fst snd] in *.
  - destruct (Hret c t st (has_labels_empty w) eq_refl) as [[[ap Hap] [ar Har]] _].
    exists ap, ar. rewrite Hap, Har. cbn [default from_option Datatypes.id after events].
    by rewrite Hes, <-app_assoc.
  - done.
Qed.

Lemma contributions_keys_same (calls : list (nat * optimizer * option lr_scheduler)) :
  (∀ i opt sched m,
     (i, opt, sched) ∈ calls → train_model w i opt sched = Return m →
     is_Some (m !! AVERAGE_PRECISION_STAT_LABEL w) ∧
     is_Some (m !! AVERAGE_RECALL_STAT_LABEL w)) →
  (omap (contribution w (AVERAGE_PRECISION_STAT_LABEL w)) calls).*1
  = (omap (contribution w (AVERAGE_RECALL_STAT_LABEL w)) calls).*1.
Proof.
  unfold contribution.
  induction calls as [|[[i opt] sched] calls IH]; intros Hkeys; [done|].
  cbn [omap list_omap fst snd].
  specialize (Hkeys i opt sched) as Hi.
  destruct (train_model w i opt sched) as [m|e].
  - destruct (Hi m) as [[ap Hap] [ar Har]]; [by left|done|].
    rewrite Hap, Har. cbn. f_equal. apply IH.
    intros j o s m' Hin. apply Hkeys. by right.
  - apply IH. intros j o s m' Hin. apply Hkeys. by right.
Qed.

Lemma contributions_keys_sorted label (calls : list (nat * optimizer * option lr_scheduler)) :
  StronglySorted lt ((λ c, c.1.1) <$> calls) →
  StronglySorted lt (omap (contribution w label) calls).*1.
Proof.
  unfold contribution.
  induction calls as [|[[i opt] sched] calls IH]; [constructor|].
  cbn [fmap list_fmap fst]. intros [Hlt Hs]%StronglySorted_cons.
  cbn [omap list_omap fst snd].
  match goal with
  | |- context [omap ?f calls] =>
      assert (Forall (lt i) (omap f calls).*1) as Hall
  end.
  { apply Forall_forall. intros j [[j' series] [-> Hin]]%list_elem_of_fmap.
    apply list_elem_of_omap in Hin as ([[j'' o] s] & Hin & Hc).
    cbn [fst snd] in Hc.
    destruct (train_model w j'' o s) as [m|]; [|done].
    destruct (m !! label); [|done]. injection Hc as <- _.
    rewrite Forall_forall in Hlt. apply Hlt.
    apply list_elem_of_fmap. by exists (j'', o, s). }
  destruct (train_model w i opt sched) as [m|e]; [|by apply IH].
  destruct (m !! label); [|by apply IH].
  cbn. apply StronglySorted_cons. split; [done|by apply IH].
Qed.

(** *** What a session leaves behind *)

(** X1.  When [main] returns, [stat_totals] holds under each of the two
    labels, as an ordered dictionary, exactly the series that the training
    calls of the session returned under that label, each keyed by its trial,
    in the order in which the calls were made. *)
Theorem totals_are_the_returned_series_in_order t stf :
  main w initial = (Return t, stf) →
  t !! AVERAGE_PRECISION_STAT_LABEL w
    = Some (contributions w (AVERAGE_PRECISION_STAT_LABEL w) (events stf)) ∧
  t !! AVERAGE_RECALL_STAT_LABEL w
    = Some (contributions w (AVERAGE_RECALL_STAT_LABEL w) (events stf)).
Proof.
  intros (c & st & _ & _ & Hitems & _ & ap & ar & _ & _ & ->)%main_returns_inv.
  assert (∀ label, contributions w label (events (after st (report_events w ap ar)))
                   = contributions w label (events st)) as Heq.
  { intros label. cbn [after events]. rewrite contributions_app.
    unfold contributions at 2. rewrite train_calls_report_events. cbn.
    by rewrite app_nil_r. }
  rewrite !Heq. split; apply Hitems; [by left|by right].
Qed.

(** X2.  When [main] returns, the two dictionaries of [stat_totals] have the
    same keys in the same order; the keys are trial indices below the
    requested count, in strictly increasing order; and the lines of the two
    plots are drawn in this order, labelled by these keys. *)
Theorem plots_are_in_trial_order t stf :
  main w initial = (Return t, stf) →
  ∃ ap ar,
    t !! AVERAGE_PRECISION_STAT_LABEL w = Some ap ∧
    t !! AVERAGE_RECALL_STAT_LABEL w = Some ar ∧
    ap.*1 = ar.*1 ∧
    StronglySorted lt ap.*1 ∧
    Forall (λ i, Z.of_nat i < num_trials (args w)) ap.*1 ∧
    plotted (events stf) = ap.*1 ++ ar.*1.
Proof.
  intros Hmain.
  pose proof (main_returns_inv t stf Hmain)
    as (c & st & Hloop & Hinv & Hitems & Hpre & ap & ar & Hap & Har & ->).
  exists ap, ar. split; [done|]. split; [done|].
  pose proof (Hitems _ (or_introl eq_refl)) as Hap'.
  pose proof (Hitems _ (or_intror eq_refl)) as Har'.
  assert (ap = contributions w (AVERAGE_PRECISION_STAT_LABEL w) (events st)) as Hap''
    by congruence.
  assert (ar = contributions w (AVERAGE_RECALL_STAT_LABEL w) (events st)) as Har''
    by congruence.
  destruct Hinv as (_ & _ & Hkeys & _).
  assert (StronglySorted lt (attempted (events st))) as Hsorted.
  { destruct Hpre as [k Hk]. pose proof (StronglySorted_seq 0 (Z.to_nat (num_trials (args w))))
      as Hseq. unfold range in Hk. rewrite Hk in Hseq.
    by apply StronglySorted_app_1_l in Hseq. }
  split_and!.
  - rewrite Hap'', Har''. unfold contributions. apply contributions_keys_same.
    intros i opt sched m. apply Hkeys.
  - rewrite Hap''. unfold contributions. apply contributions_keys_sorted.
    by rewrite <-attempted_train_calls.
  - apply Forall_forall. intros i Hi. rewrite Hap'' in Hi.
    apply contributions_keys in Hi.
    assert (i ∈ range (num_trials (args w))) as Hin.
    { destruct Hpre as [k ->]. apply elem_of_app. by left. }
    unfold range in Hin. apply elem_of_seq in Hin. lia.
  - unfold trial_loop in Hloop.
    destruct (for_trials_shape (range (num_trials (args w))) (empty_totals w)
                (after initial (prologue_events w)) (has_labels_empty w))
      as (es & Hes & Hin & _).
    rewrite Hloop in Hes. cbn [snd after initial events app] in Hes.
    cbn [after events]. rewrite Hes. unfold plotted. rewrite !omap_app.
    assert (omap (λ e : @event optimizer lr_scheduler,
                    match e with PltPlot _ k => Some k | _ => None end)
                 (prologue_events w) = []) as ->
      by (unfold prologue_events; by destruct (use_s3 w)).
    assert (Forall (λ e, ∃ i, trial_event i e) es) as Hin'
      by (eapply Forall_impl; [exact Hin|]; intros e (i & _ & He); by exists i).
    apply trial_events_not_reporting in Hin' as [Hplotted _].
    unfold plotted in Hplotted. rewrite Hplotted. cbn [app].
    unfold report_events, plot_events. rewrite !omap_app.
    assert (∀ items : list (nat * list float),
              omap (λ e : @event optimizer lr_scheduler,
                      match e with PltPlot _ k => Some k | _ => None end)
                   ((λ kv, PltPlot kv.2 kv.1) <$> items) = items.*1) as Hplots.
    { intros items. induction items as [|[k v] items IH]; [done|]. cbn. by rewrite <-IH. }
    rewrite !Hplots. cbn. destruct (use_s3 w); cbn; by rewrite ?app_nil_r.
Qed.

Lemma plotted_loop_events (l : list (@event optimizer lr_scheduler)) :
  Forall (λ ev, ev = SyncS3 ∨ ∃ i, trial_event i ev) l → plotted l = [].
Proof.
  unfold plotted. induction 1 as [|ev l Hev _ IH]; [done|].
  destruct Hev as [->|[i He]]; [exact IH|].
  destruct ev; try done; exact IH.
Qed.

(** X3.  When, in a trial that the session reaches, the training call
    raises an exception that is an instance of neither [RuntimeError] nor
    [KeyboardInterrupt], or returns metrics that lack one of the two
    series, the exception leaves [main] and the report is skipped: the
    trace holds nothing but the synchronisation before the loop, messages
    logged under a trial and training calls; nothing was plotted, no figure
    was saved, the log file was not closed and nothing was uploaded. *)
Theorem escaping_exception_skips_the_report before i rest t st opt stc e :
  reaches w before i rest t st →
  configure w i st = (Return (opt, None), stc) →
  raises_past_handlers w i opt e →
  (main w initial).1 = Raise e ∧
  Forall (λ ev, ev = SyncS3 ∨ ∃ i, trial_event i ev) (events (main w initial).2) ∧
  plotted (events (main w initial).2) = [] ∧
  (PltSavefig AP ∉ events (main w initial).2) ∧
  (PltSavefig AR ∉ events (main w initial).2) ∧
  (LogFileClose ∉ events (main w initial).2) ∧
  (S3UploadFiles ∉ events (main w initial).2).
Proof.
  intros Hreach Hc He.
  assert ((main w initial).1 = Raise e) as Hraise.
  { destruct (reaches_inv _ _ _ _ _ _ Hreach) as (Ht & _ & _).
    rewrite (main_reaches _ _ _ _ _ _ Hreach).
    rewrite for_trials_cons, (trial_configured _ _ _ _ _ _ _ Hc), attempt_cases by done.
    unfold attempt_outcome, raises_past_handlers in *.
    destruct (train_model w i opt None) as [m|e'].
    - destruct (m !! AVERAGE_PRECISION_STAT_LABEL w);
        [destruct (m !! AVERAGE_RECALL_STAT_LABEL w)|]; by subst.
    - destruct He as [-> [-> ->]]. done. }
  split; [done|].
  destruct main_shape as (es & Hin & _ & Hmain).
  rewrite Hraise in Hmain. rewrite Hmain.
  assert (Forall (λ ev, ev = SyncS3 ∨ ∃ i, trial_event i ev) (prologue_events w ++ es))
    as Hall.
  { apply Forall_app. split.
    - unfold prologue_events. destruct (use_s3 w); repeat constructor.
    - eapply Forall_impl; [exact Hin|]. intros ev (j & _ & Hev). right. by exists j. }
  split; [done|].
  assert (∀ ev, ev ∈ prologue_events w ++ es → ev = SyncS3 ∨ ∃ i, trial_event i ev) as Hev
    by (by apply Forall_forall).
  split_and!.
  - by apply plotted_loop_events.
  - intros [[=]|[j Hj]]%Hev. done.
  - intros [[=]|[j Hj]]%Hev. done.
  - intros [[=]|[j Hj]]%Hev. done.
  - intros [[=]|[j Hj]]%Hev. done.
Qed.

(** X4.  The script never uses a learning-rate scheduler: however a session
    ends, every training call in its trace was made without one, and no
    message about a scheduler is in its log. *)
Theorem no_scheduler_is_ever_used :
  Forall (λ c, c.2 = None) (train_calls (events (main w initial).2)) ∧
  Forall (λ l, match l.2 with
               | LRSchedulerChoice _ | LRSchedulerProperties _ => False
               | _ => True
               end) (log_file (events (main w initial).2)).
Proof.
  destruct main_shape as (es & Hin & _ & Hmain).
  assert (Forall (λ e, ∃ i, trial_event i e) es) as Hin'
    by (eapply Forall_impl; [exact Hin|]; intros e (i & _ & He); by exists i).
  assert (Forall (λ c, c.2 = None) (train_calls es) ∧
          Forall (λ l, match l.2 with
                       | LRSchedulerChoice _ | LRSchedulerProperties _ => False
                       | _ => True
                       end) (log_file es)) as [Hcalls Hlog].
  { clear -Hin'. induction Hin' as [|ev l [i He] _ [IH1 IH2]]; [by split|].
    destruct ev as [|? m|? ? [] ? ? ?| | | | | | | | | | |]; try done.
    - split; [done|]. constructor; [by destruct m|done].
    - split; [|done]. by constructor. }
  pose proof (reporting_no_trial _ prologue_events_reporting) as (_ & Hl0 & Hc0).
  destruct (main w initial).1 as [t|e].
  - destruct Hmain as (ap & ar & _ & _ & ->).
    pose proof (reporting_no_trial _ (report_events_reporting ap ar)) as (_ & Hl1 & Hc1).
    rewrite !train_calls_app, !log_file_app, Hl0, Hc0, Hl1, Hc1, !app_nil_r. by split.
  - rewrite Hmain, !train_calls_app, !log_file_app, Hl0, Hc0. by split.
Qed.

(** X5.  However a session ends, its log is grouped by trial: the trial
    indices of the messages, in the order in which they were written, never
    decrease, and each is an index of [range(num_trials)]. *)
Theorem log_is_grouped_by_trial :
  StronglySorted le (log_file (events (main w initial).2)).*1 ∧
  Forall (λ i, i ∈ range (num_trials (args w))) (log_file (events (main w initial).2)).*1.
Proof.
  destruct main_shape as (es & Hin & Hsorted & Hmain).
  assert ((log_file (events (main w initial).2)) = log_file es) as ->.
  { pose proof (reporting_no_trial _ prologue_events_reporting) as (_ & Hl0 & _).
    destruct (main w initial).1 as [t|e].
    - destruct Hmain as (ap & ar & _ & _ & ->).
      pose proof (reporting_no_trial _ (report_events_reporting ap ar)) as (_ & Hl1 & _).
      by rewrite !log_file_app, Hl0, Hl1, app_nil_r.
    - by rewrite Hmain, log_file_app, Hl0. }
  split.
  - clear Hin Hmain. induction es as [|e es IH]; [constructor|].
    destruct e as [|j m|? ? ? ? ? ?| | | | | | | | | | |];
      cbn [omap list_omap event_trial] in Hsorted;
      try (by apply IH).
    + apply StronglySorted_cons in Hsorted as [Hle Hs].
      change (log_file (LogAndPrint j m :: es)) with ((j, m) :: log_file es).
      cbn [fmap list_fmap fst]. apply StronglySorted_cons. split; [|by apply IH].
      apply Forall_forall. intros k [[k' m'] [-> Hk]]%list_elem_of_fmap.
      apply list_elem_of_omap in Hk as (e & He & Hk).
      rewrite Forall_forall in Hle. apply Hle.
      apply list_elem_of_omap. exists e. split; [done|].
      destruct e; try done. by injection Hk as <- _.
    + apply StronglySorted_cons in Hsorted as [_ Hs]. by apply IH.
  - apply Forall_forall. intros k [[k' m'] [-> Hk]]%list_elem_of_fmap.
    apply list_elem_of_omap in Hk as (e & He & Hk).
    rewrite Forall_forall in Hin. destruct (Hin e He) as (i & Hi & Hev).
    destruct e as [|j m|? ? ? ? ? ?| | | | | | | | | | |]; try done.
    injection Hk as <- <-. cbn [fst]. by destruct m; cbn in Hev; subst.
Qed.

Lemma report_events_transfers ap ar :
  ∃ core,
    report_events w ap ar = core ++ (if use_s3 w then [S3UploadFiles] else []) ∧
    Forall (λ e, e ≠ SyncS3 ∧ e ≠ S3UploadFiles) core.
Proof.
  unfold report_events, plot_events.
  exists ([Print "Training session complete"; CreateOutputDir]
          ++ ((λ kv, PltPlot kv.2 kv.1) <$> ap)
          ++ [PltLegend; PltTitle (AVERAGE_PRECISION_STAT_LABEL w); PltXlabel "Epoch";
              PltSavefig AP; PltClf]
          ++ ((λ kv, PltPlot kv.2 kv.1) <$> ar)
          ++ [PltLegend; PltTitle (AVERAGE_RECALL_STAT_LABEL w); PltXlabel "Epoch";
              PltSavefig AR; LogFileClose; PltClose]).
  split; [by rewrite <-!app_assoc|].
  assert (∀ items : list (nat * list float),
            Forall (λ e, e ≠ SyncS3 ∧ e ≠ S3UploadFiles)
              ((λ kv, @PltPlot optimizer lr_scheduler kv.2 kv.1) <$> items)) as Hplots.
  { intros items. apply Forall_fmap, Forall_forall. by intros. }
  rewrite !Forall_app. split_and!; try apply Hplots; by repeat constructor.
Qed.

(** X6.  The two S3 transfers of a session go together.  They happen when
    a bucket was named and exists, and only then; a session that reports
    then begins with the synchronisation and ends with the upload, and has
    neither anywhere in between; a session without a usable bucket has
    neither at all. *)
Theorem s3_transfers_frame_the_session t stf :
  main w initial = (Return t, stf) →
  (use_s3 w = true ↔ is_Some (s3_bucket_name (args w)) ∧ s3_bucket_exists w = true) ∧
  if use_s3 w
  then ∃ between,
         events stf = SyncS3 :: between ++ [S3UploadFiles] ∧
         Forall (λ e, e ≠ SyncS3 ∧ e ≠ S3UploadFiles) between
  else Forall (λ e, e ≠ SyncS3 ∧ e ≠ S3UploadFiles) (events stf).
Proof.
  intros Hmain. split.
  { unfold use_s3. destruct (s3_bucket_name (args w)); split.
    - intros ->. split; [by eexists|done].
    - by intros [_ ->].
    - done.
    - by intros [[? [=]] _]. }
  destruct main_shape as (es & Hin & _ & Hshape).
  rewrite Hmain in Hshape. cbn [fst snd] in Hshape.
  destruct Hshape as (ap & ar & _ & _ & ->).
  destruct (report_events_transfers ap ar) as (core & -> & Hcore).
  assert (Forall (λ e : @event optimizer lr_scheduler, e ≠ SyncS3 ∧ e ≠ S3UploadFiles) es)
    as Hes.
  { eapply Forall_impl; [exact Hin|]. intros e (i & _ & He).
    split; intros ->; done. }
  unfold prologue_events. destruct (use_s3 w).
  - exists (es ++ core). split; [by rewrite <-app_assoc|]. by apply Forall_app.
  - rewrite app_nil_r. cbn [app]. by apply Forall_app.
Qed.

(** X7.  A trial count that is zero or negative is no error: the loop runs
    no trial, the totals are the two empty maps, and [main] returns after a
    report without a plotted line. *)
Theorem nonpositive_trial_count_runs_no_trial :
  num_trials (args w) ≤ 0 →
  main w initial =
    (Return (empty_totals w),
     after initial (prologue_events w ++ report_events w [] [])) ∧
  attempted (events (main w initial).2) = [] ∧
  started (events (main w initial).2) = [] ∧
  plotted (events (main w initial).2) = [].
Proof.
  intros Hn.
  assert (main w initial =
            (Return (empty_totals w),
             after initial (prologue_events w ++ report_events w [] []))) as Hmain.
  { assert (empty_totals w !! AVERAGE_PRECISION_STAT_LABEL w = Some []) as Hap.
    { unfold empty_totals. rewrite !lookup_insert. repeat case_decide; congruence. }
    assert (empty_totals w !! AVERAGE_RECALL_STAT_LABEL w = Some []) as Har.
    { unfold empty_totals. rewrite !lookup_insert. repeat case_decide; congruence. }
    rewrite main_run. unfold trial_loop, range.
    replace (Z.to_nat (num_trials (args w))) with 0%nat by lia.
    change (for_trials w (seq 0 0) (empty_totals w) (after initial (prologue_events w)))
      with (@Return (control * totals) (Next, empty_totals w),
            after initial (prologue_events w)).
    cbn beta iota. by rewrite Hap, Har, after_after. }
  rewrite Hmain. cbn [snd after initial events app].
  split; [done|].
  unfold prologue_events, report_events. by destruct (use_s3 w).
Qed.

End SearchTraceFacts.

(** *** The same on a concrete session *)

Section SearchTraceDemo.
Import Hparams HparamSearch SearchTrace.

(** A demo session whose bad trial fails with a [RuntimeError] reports. *)
Lemma demo_main_returns n bad err :
  ∃ t stf, main (Demo.world n bad (RuntimeError err)) initial = (Return t, stf).
Proof.
  set (w := Demo.world n bad (RuntimeError err)).
  destruct (for_trials_survivable w (range n) (empty_totals w)
              (after initial (prologue_events w))
              (has_labels_empty w) (λ j _, demo_survivable n bad err j))
    as (t & st & Hloop & _).
  pose proof (main_run w) as Hmain. unfold trial_loop in Hmain.
  change (num_trials (args w)) with n in Hmain.
  rewrite Hloop in Hmain. by eexists _, _.
Qed.

End SearchTraceDemo.

(** Three trials, the second of which fails. *)
Lemma totals_are_the_returned_series_in_order_witness :
  ∃ t stf,
    HparamSearch.main (Demo.world 3 1 (RuntimeError "loss is NaN")) HparamSearch.initial
      = (Return t, stf) ∧
    t !! Demo.precision
      = Some (SearchTrace.contributions (Demo.world 3 1 (RuntimeError "loss is NaN"))
                Demo.precision (HparamSearch.events stf)).
Proof.
  destruct (demo_main_returns 3 1 "loss is NaN") as (t & stf & Hmain).
  exists t, stf. split; [exact Hmain|].
  exact (proj1 (totals_are_the_returned_series_in_order _ t stf Hmain)).
Defined.

Lemma plots_are_in_trial_order_witness :
  ∃ t stf ap,
    HparamSearch.main (Demo.world 3 1 (RuntimeError "loss is NaN")) HparamSearch.initial
      = (Return t, stf) ∧
    t !! Demo.precision = Some ap ∧
    StronglySorted lt ap.*1.
Proof.
  destruct (demo_main_returns 3 1 "loss is NaN") as (t & stf & Hmain).
  destruct (plots_are_in_trial_order _ t stf Hmain)
    as (ap & ar & Hap & _ & _ & Hsorted & _).
  exists t, stf, ap. split; [exact Hmain|]. split; [exact Hap|exact Hsorted].
Defined.

(** Two trials, the first of which raises a [ValueError]. *)
Lemma escaping_exception_skips_the_report_witness :
  HparamSearch.LogFileClose
    ∉ HparamSearch.events
        (HparamSearch.main (Demo.world 2 0 (ValueError "targets are empty"))
           HparamSearch.initial).2.
Proof.
  pose (w := Demo.world 2 0 (ValueError "targets are empty")).
  destruct (configure_run w 0 HparamSearch.initial)
    as (spec & kw & opt & k1 & _ & _ & _ & Hc).
  refine (proj1 (proj2 (proj2 (proj2 (proj2 (proj2
    (escaping_exception_skips_the_report w [] 0%nat [1%nat]
       (HparamSearch.empty_totals w) HparamSearch.initial opt _
       (ValueError "targets are empty")
       (demo_reaches_first 2 0 _ [1%nat] eq_refl) Hc _))))))).
  split; [reflexivity|]. split; reflexivity.
Defined.

Lemma s3_transfers_frame_the_session_witness :
  ∃ t stf,
    HparamSearch.main (Demo.world 3 1 (RuntimeError "loss is NaN")) HparamSearch.initial
      = (Return t, stf) ∧
    Forall (λ e, e ≠ HparamSearch.SyncS3 ∧ e ≠ HparamSearch.S3UploadFiles)
      (HparamSearch.events stf).
Proof.
  destruct (demo_main_returns 3 1 "loss is NaN") as (t & stf & Hmain).
  exists t, stf. split; [exact Hmain|].
  exact (proj2 (s3_transfers_frame_the_session _ t stf Hmain)).
Defined.

(** A session asked for minus two trials. *)
Lemma nonpositive_trial_count_runs_no_trial_witness :
  HparamSearch.attempted
    (HparamSearch.events
       (HparamSearch.main (Demo.world (-2) 0 KeyboardInterrupt) HparamSearch.initial).2)
  = [].
Proof.
  refine (proj1 (proj2 (nonpositive_trial_count_runs_no_trial
                          (Demo.world (-2) 0 KeyboardInterrupt) _))).
  cbn. lia.
Defined.

(** ** The display loops: malformed outputs and the exits of the scripts *)

Section MalformedFacts.
Import Inference Malformed.

Lemma filtered_at_cases o threshold j :
  (j < length (boxes o))%nat →
  if missing_at o threshold j
  then filtered_at o threshold j = Raise IndexError
  else ∃ d, filtered_at o threshold j = Return d.
Proof.
  intros Hj. unfold missing_at, filtered_at, getitem.
  destruct (scores o !! j) as [s|]; [|done]. cbn.
  destruct (tensor_gt s threshold); cbn; [|by eexists].
  destruct (labels o !! j) as [l|]; cbn; [|done].
  destruct (0 <? l); cbn; [|by eexists].
  destruct (lookup_lt_is_Some_2 (boxes o) j Hj) as [b ->]. by eexists.
Qed.

Lemma comprehension_cases o threshold js :
  Forall (λ j, (j < length (boxes o))%nat) js →
  if existsb (missing_at o threshold) js
  then comprehension o threshold js = Raise IndexError
  else ∃ kept, comprehension o threshold js = Return kept.
Proof.
  induction 1 as [|j js Hj _ IH]; [by eexists|].
  cbn [existsb comprehension].
  pose proof (filtered_at_cases o threshold j Hj) as Hat.
  destruct (missing_at o threshold j); cbn [orb].
  - by rewrite Hat.
  - destruct Hat as [d ->]. cbn.
    destruct (existsb (missing_at o threshold) js).
    + by rewrite IH.
    + destruct IH as [kept ->]. by eexists.
Qed.

End MalformedFacts.

(** X8.  The comprehension of the display loops on any model output,
    malformed or not: it raises exactly when some index of a box has no
    score, or has no label and a score that passes the threshold as torch
    compares the two, in [float32] after the conversion of the threshold;
    what it raises is then an [IndexError], and otherwise it returns.  A
    missing label is not noticed where the score does not pass. *)
Theorem filtered_output_raises_on_unreadable_index
    (o : Inference.detections) (threshold : float) :
  (Inference.filtered_output o threshold = Raise IndexError ↔
   ∃ j, (j < length (Inference.boxes o))%nat ∧ Malformed.missing_at o threshold j = true) ∧
  (returns (Inference.filtered_output o threshold) ↔
   ∀ j, (j < length (Inference.boxes o))%nat → Malformed.missing_at o threshold j = false) ∧
  (returns (Inference.filtered_output o threshold) ∨
   Inference.filtered_output o threshold = Raise IndexError).
Proof.
  pose proof (comprehension_cases o threshold (seq 0 (length (Inference.boxes o)))) as H.
  unfold Inference.filtered_output, range. rewrite Nat2Z.id.
  specialize (H ltac:(apply Forall_seq; intros; lia)).
  destruct (existsb _ _) eqn:Hex.
  - apply existsb_exists in Hex as (j & Hj%list_elem_of_In%elem_of_seq & Hm).
    rewrite H. split_and!.
    + split; [|done]. intros _. exists j. split; [lia|done].
    + split; [by intros [? [=]]|]. intros Hall. rewrite Hall in Hm by lia. done.
    + by right.
  - destruct H as [kept ->].
    assert (∀ j, (j < length (Inference.boxes o))%nat →
                 Malformed.missing_at o threshold j = false) as Hall.
    { intros j Hj. destruct (Malformed.missing_at o threshold j) eqn:Hm; [|done].
      assert (existsb (Malformed.missing_at o threshold)
                (seq 0 (length (Inference.boxes o))) = true) as Hex'.
      { apply existsb_exists. exists j. split; [|done].
        apply list_elem_of_In, elem_of_seq. lia. }
      congruence. }
    split_and!.
    + split; [done|]. intros (j & Hj & Hm). by rewrite Hall in Hm.
    + split; [done|]. intros _. by eexists.
    + left. by eexists.
Qed.

(** X9.  The exits of [main] in predict_spin.py, in the order of its
    checks: it reports a missing file exactly when there is no label file;
    no label category exactly when the file is empty; no saved model exactly
    when the labels are there, no model path was given and no saved model is
    found; and not enough cameras exactly when labels and a model are there
    and no camera is detected. *)
Theorem predict_main_exits (args : PredictSpin.Args) (env : PredictSpin.Env) :
  (PredictSpin.main args env = Return PredictSpin.MissingFile ↔
   PredictSpin.label_file env = None) ∧
  (PredictSpin.main args env = Return PredictSpin.NoLabelCategories ↔
   PredictSpin.label_file env = Some []) ∧
  (PredictSpin.main args env = Return PredictSpin.NoSavedModel ↔
   ∃ text, PredictSpin.label_file env = Some text ∧ text ≠ [] ∧
           PredictSpin.model_path args = None ∧
           PredictSpin.newest_saved_model_path env = None) ∧
  (PredictSpin.main args env = Return PredictSpin.NotEnoughCameras ↔
   ∃ text, PredictSpin.label_file env = Some text ∧ text ≠ [] ∧
           (is_Some (PredictSpin.model_path args) ∨
            is_Some (PredictSpin.newest_saved_model_path env)) ∧
           PredictSpin.num_cameras env = 0%nat).
Proof.
  unfold PredictSpin.main.
  destruct (PredictSpin.label_file env) as [text|].
  2:{ split_and!; split; try done; by intros (? & [=] & _). }
  assert (length (splitlines text) = 0%nat ↔ text = []) as Hlen.
  { split; [|by intros ->]. intros H. apply splitlines_nil_inv.
    by destruct (splitlines text). }
  case_bool_decide as Htext.
  { apply Hlen in Htext as ->.
    split_and!; split; try done; by intros (? & [= <-] & ? & _). }
  assert (text ≠ []) as Hne by (intros ->; by apply Htext).
  assert (∀ r : result PredictSpin.outcome,
            (∃ x, r = (x ≫= λ '(model, drawn),
                         mret (PredictSpin.Exiting (background :: splitlines text)
                                 model drawn))) →
            r ≠ Return PredictSpin.MissingFile ∧
            r ≠ Return PredictSpin.NoLabelCategories ∧
            r ≠ Return PredictSpin.NoSavedModel ∧
            r ≠ Return PredictSpin.NotEnoughCameras) as Hshow.
  { intros r [[[m d]|e] ->]; by cbn. }
  destruct (PredictSpin.model_path args) as [p|];
    [|destruct (PredictSpin.newest_saved_model_path env) as [p|]].
  - case_bool_decide as Hcam.
    + split_and!; split; try done.
      * intros [= ->]. done.
      * by intros (? & _ & _ & [=] & _).
      * intros _. exists text. split_and!; [done..|left; by eexists|done].
    + edestruct Hshow as (H1 & H2 & H3 & H4); [by eexists|].
      split_and!; split; try done.
      * intros [= ->]. done.
      * by intros (? & _ & _ & [=] & _).
      * by intros (? & _ & _ & _ & ?).
  - case_bool_decide as Hcam.
    + split_and!; split; try done.
      * intros [= ->]. done.
      * by intros (? & _ & _ & _ & [=]).
      * intros _. exists text. split_and!; [done..|right; by eexists|done].
    + edestruct Hshow as (H1 & H2 & H3 & H4); [by eexists|].
      split_and!; split; try done.
      * intros [= ->]. done.
      * by intros (? & _ & _ & _ & [=]).
      * by intros (? & _ & _ & _ & ?).
  - split_and!; split; try done.
    + intros [= ->]. done.
    + intros _. by exists text.
    + by intros (? & _ & _ & [[? [=]]|[? [=]]] & _).
Qed.

(** X10.  The exits of [main] in visualize.py, in the order of its checks:
    a missing label file, an empty one, no manifest (the labels are there,
    no manifest path was given and none is found), no saved model (labels
    and manifest are there, no model path was given and no saved model is
    found). *)
Theorem visualize_main_exits (args : Visualize.Args) (env : Visualize.Env) :
  (Visualize.main args env = Return Visualize.MissingFile ↔
   Visualize.label_file env = None) ∧
  (Visualize.main args env = Return Visualize.NoLabelCategories ↔
   Visualize.label_file env = Some []) ∧
  (Visualize.main args env = Return Visualize.NoManifest ↔
   ∃ text, Visualize.label_file env = Some text ∧ text ≠ [] ∧
           Visualize.manifest_path args = None ∧
           Visualize.newest_manifest_path env = None) ∧
  (Visualize.main args env = Return Visualize.NoSavedModel ↔
   ∃ text, Visualize.label_file env = Some text ∧ text ≠ [] ∧
           (is_Some (Visualize.manifest_path args) ∨
            is_Some (Visualize.newest_manifest_path env)) ∧
           Visualize.model_path args = None ∧
           Visualize.newest_saved_model_path env = None).
Proof.
  unfold Visualize.main.
  destruct (Visualize.label_file env) as [text|].
  2:{ split_and!; split; try done; by intros (? & [=] & _). }
  assert (length (splitlines text) = 0%nat ↔ text = []) as Hlen.
  { split; [|by intros ->]. intros H. apply splitlines_nil_inv.
    by destruct (splitlines text). }
  case_bool_decide as Htext.
  { apply Hlen in Htext as ->.
    split_and!; split; try done; by intros (? & [= <-] & ? & _). }
  assert (text ≠ []) as Hne by (intros ->; by apply Htext).
  assert (∀ (x : result (list (Inference.draw_call * Inference.draw_call))) m,
            let r := x ≫= λ drawn,
                       mret (Visualize.Complete (background :: splitlines text) m drawn) in
            r ≠ Return Visualize.MissingFile ∧
            r ≠ Return Visualize.NoLabelCategories ∧
            r ≠ Return Visualize.NoManifest ∧
            r ≠ Return Visualize.NoSavedModel) as Hshow.
  { intros [d|e] m; by cbn. }
  assert (∀ A (x y : option A), (is_Some x ∨ is_Some y) ↔
            is_Some (match x with Some p => Some p | None => y end)) as Hsome.
  { intros A [a|] y; [|by split; [intros [[? [=]]|]|right]].
    split; [by eexists|]. intros _. left. by eexists. }
  pose proof (Hshow (Visualize.for_dataset (background :: splitlines text)
                       (Visualize.threshold args)
                       (Visualize.dataset env (background :: splitlines text)))
                (ModelRequest (Visualize.network args)
                   (length (background :: splitlines text))
                   (Visualize.threshold args) 600 800 0.3%float))
    as (H1 & H2 & H3 & H4).
  clear Hshow Hsome Hlen.
  destruct (Visualize.manifest_path args) as [mp|] eqn:Hmp;
    [|destruct (Visualize.newest_manifest_path env) as [mp|] eqn:Hmp'];
    (destruct (Visualize.model_path args) as [sp|] eqn:Hsp;
     [|destruct (Visualize.newest_saved_model_path env) as [sp|] eqn:Hsp']);
    unfold mret, result_ret;
    (split_and!; (split; [intros H|intros H]));
    try done; try (by simplify_eq); naive_solver.
Qed.

(** ** Labels and drawings *)

Section LabelLineFacts.
Import Inference.

Lemma splitlines_from_no_linebreak n s line :
  (length s ≤ n)%nat →
  Forall (λ c, is_linebreak c = false) line →
  Forall (Forall (λ c, is_linebreak c = false)) (splitlines_from line s).
Proof.
  revert s line. induction n as [|n IH]; intros s line Hlen Hline.
  - destruct s; [|cbn in Hlen; lia]. cbn.
    destruct line; [constructor|constructor; [done|constructor]].
  - destruct s as [|c s]; cbn [splitlines_from].
    + destruct line; [constructor|constructor; [done|constructor]].
    + cbn in Hlen. destruct (is_linebreak c) eqn:Hc.
      * constructor; [done|].
        destruct s as [|c' s']; [by constructor|]. cbn in Hlen.
        destruct ((c =? 13) && (c' =? 10))%N; apply IH; try constructor; cbn; lia.
      * apply IH; [lia|]. apply Forall_app. split; [done|]. by repeat constructor.
Qed.

(** No line of [splitlines] holds a line boundary. *)
Lemma splitlines_no_linebreak s :
  Forall (Forall (λ c, is_linebreak c = false)) (splitlines s).
Proof. by apply (splitlines_from_no_linebreak (length s)). Qed.

Lemma background_no_linebreak : Forall (λ c, is_linebreak c = false) background.
Proof. by repeat constructor. Qed.

Lemma render_draws label_names o threshold :
  well_formed o →
  ∃ call,
    render label_names o threshold = Return call ∧
    draw_label_names call = label_names ∧
    Forall (λ l, 0 < l) (draw_labels call) ∧
    Forall (λ s, tensor_gt s threshold = true) (draw_scores call) ∧
    length (draw_boxes call) = length (draw_labels call) ∧
    length (draw_labels call) = length (draw_scores call) ∧
    (length (draw_boxes call) ≤ length (boxes o))%nat.
Proof.
  intros Hwf. rewrite render_returns by done. cbn zeta.
  eexists. split; [done|]. cbn [draw_label_names draw_labels draw_scores draw_boxes].
  split_and!; [done|..].
  - apply Forall_fmap, Forall_forall. intros d [Hd _]%list_elem_of_filter.
    by apply passes_spec in Hd as [_ ?].
  - apply Forall_fmap, Forall_forall. intros d [Hd _]%list_elem_of_filter.
    by apply passes_spec in Hd as [? _].
  - by rewrite !length_fmap.
  - by rewrite !length_fmap.
  - rewrite length_fmap, <-(length_outputs_of o Hwf). apply length_filter.
Qed.

End LabelLineFacts.

(** X11.  In both scripts, whenever [main] constructs a model: it is for at
    least two classes, the background and one label of the file; and no
    label holds a line boundary, each is the text of a single line. *)
Theorem labels_are_single_lines
    (pargs : PredictSpin.Args) (penv : PredictSpin.Env)
    (vargs : Visualize.Args) (venv : Visualize.Env)
    (labels : list str) (m : model_request) :
  PredictSpin.constructs (PredictSpin.main pargs penv) labels m ∨
  Visualize.constructs (Visualize.main vargs venv) labels m →
  (2 ≤ request_num_classes m)%nat ∧
  Forall (Forall (λ c, is_linebreak c = false)) labels.
Proof.
  intros H.
  assert (∃ text, text ≠ [] ∧ labels = background :: splitlines text ∧
                  request_num_classes m = S (length (splitlines text)))
    as (text & Hne & -> & Hm).
  { destruct H as [H|H];
      [apply predict_main_constructs in H|apply visualize_main_constructs in H];
      destruct H as (text & _ & ? & ? & ?); by exists text. }
  pose proof (splitlines_nonempty text Hne) as Hlines.
  split.
  - rewrite Hm. destruct (splitlines text); [done|cbn; lia].
  - constructor; [apply background_no_linebreak|apply splitlines_no_linebreak].
Qed.

(** The labels of a file with the lines "cat" and "dog", the second one
    ended by a carriage return and a line feed. *)
Lemma labels_are_single_lines_witness :
  Forall (Forall (λ c, is_linebreak c = false))
    [background; str_of_string "cat"; str_of_string "dog"].
Proof.
  pose (text := str_of_string "cat" ++ [10%N] ++ str_of_string "dog" ++ [13; 10]%N).
  pose (pargs := {| PredictSpin.s3_bucket_name := None;
                    PredictSpin.model_path := Some "model.pt";
                    PredictSpin.network := "fasterrcnn";
                    PredictSpin.threshold := 0.5%float |}).
  pose (penv := {| PredictSpin.label_file := Some text;
                   PredictSpin.newest_saved_model_path := None;
                   PredictSpin.num_cameras := 1; PredictSpin.frames := [] |}).
  pose (vargs := {| Visualize.s3_bucket_name := None;
                    Visualize.manifest_path := None;
                    Visualize.model_path := None;
                    Visualize.network := "fasterrcnn";
                    Visualize.threshold := 0.5%float |}).
  pose (venv := {| Visualize.label_file := None;
                   Visualize.newest_manifest_path := None;
                   Visualize.newest_saved_model_path := None;
                   Visualize.dataset := λ _, [] |}).
  refine (proj2
    (labels_are_single_lines pargs penv vargs venv
       [background; str_of_string "cat"; str_of_string "dog"]
       (ModelRequest "fasterrcnn" 3 0.5%float 600 800 0.3%float) _)).
  left. by exists [].
Defined.

(** X12.  The loop of the visualisation over a data set whose model outputs
    each have one label and one score per box: it completes and draws one
    pair of calls per item, in the order of the items; the first of a pair
    shows the ground truth of the item as it is, without scores; the second
    is the rendering of the output of the item, and shows detections only
    with a label above 0 and a score that passes the threshold as torch
    compares the two, in [float32] after the conversion of the threshold,
    as three sequences of one length. *)
Theorem visualize_draws_every_item
    (labels : list str) (threshold : float) (ds : list Visualize.item) :
  Forall (λ d, Inference.well_formed (Visualize.outputs d)) ds →
  ∃ drawn,
    Visualize.for_dataset labels threshold ds = Return drawn ∧
    Forall2 (λ d p,
        p.1 = Inference.DrawBboxes (Visualize.target_boxes d) (Visualize.target_labels d)
                labels [] ∧
        Inference.render labels (Visualize.outputs d) threshold = Return p.2 ∧
        Inference.draw_label_names p.2 = labels ∧
        Forall (λ l, 0 < l) (Inference.draw_labels p.2) ∧
        Forall (λ s, Inference.tensor_gt s threshold = true) (Inference.draw_scores p.2) ∧
        length (Inference.draw_boxes p.2) = length (Inference.draw_labels p.2) ∧
        length (Inference.draw_labels p.2) = length (Inference.draw_scores p.2) ∧
        (length (Inference.draw_boxes p.2)
           ≤ length (Inference.boxes (Visualize.outputs d)))%nat)
      ds drawn.
Proof.
  induction 1 as [|d ds Hd _ (drawn & Hdrawn & Hall)].
  - exists []. split; [done|constructor].
  - destruct (render_draws labels (Visualize.outputs d) threshold Hd)
      as (call & Hcall & Hprops).
    exists ((Inference.DrawBboxes (Visualize.target_boxes d) (Visualize.target_labels d)
               labels [], call) :: drawn).
    split.
    + cbn [Visualize.for_dataset]. unfold Visualize.show. rewrite Hcall. cbn.
      by rewrite Hdrawn.
    + constructor; [|done]. cbn [fst snd].
      destruct Hprops as (? & ? & ? & ? & ? & ?). by split_and!.
Qed.

(** An item with one confident detection and one background box. *)
Lemma visualize_draws_every_item_witness :
  ∃ drawn,
    Visualize.for_dataset [background] 0.5%float
      [{| Visualize.target_boxes := [];
          Visualize.target_labels := [];
          Visualize.outputs :=
            Inference.Detections [(0, 0, 10, 10)%float; (5, 5, 9, 9)%float] [2; 0]
              [0.9; 0.8]%float |}]
    = Return drawn ∧ length drawn = 1%nat.
Proof.
  destruct (visualize_draws_every_item [background] 0.5%float
              [{| Visualize.target_boxes := [];
                  Visualize.target_labels := [];
                  Visualize.outputs :=
                    Inference.Detections [(0, 0, 10, 10)%float; (5, 5, 9, 9)%float] [2; 0]
                      [0.9; 0.8]%float |}])
    as (drawn & Hdrawn & Hall).
  - repeat constructor.
  - exists drawn. split; [exact Hdrawn|].
    apply Forall2_length in Hall. by rewrite <-Hall.
Defined.

(** ** The camera of predict_spin.py *)

Section SpinFacts.
Import Inference Spin.

Lemma spin_emit_run e tr : emit e tr = (Return (), tr ++ [e]).
Proof. done. Qed.

Lemma holds_app acquire release h tr1 tr2 :
  holds acquire release h (tr1 ++ tr2) =
    holds acquire release h tr1 ≫= λ h', holds acquire release h' tr2.
Proof.
  revert h. induction tr1 as [|e tr1 IH]; intros h; [done|].
  cbn [app holds]. destruct (same acquire e); [by destruct h|].
  destruct (same release e); [by destruct h|]. apply IH.
Qed.

Lemma same_loop_event k e :
  loop_event e = true → loop_event k = false → same k e = false.
Proof. by destruct k, e. Qed.

(** The loop neither takes nor gives back what the script holds around
    it. *)
Lemma holds_loop_events acquire release h evs :
  Forall (λ e, loop_event e = true) evs →
  loop_event acquire = false → loop_event release = false →
  holds acquire release h evs = Some h.
Proof.
  intros Hevs Ha Hr. induction Hevs as [|e evs He _ IH]; [done|].
  cbn [holds]. by rewrite !same_loop_event.
Qed.

Lemma drawn_app tr1 tr2 : drawn (tr1 ++ tr2) = drawn tr1 ++ drawn tr2.
Proof. apply omap_app. Qed.

Lemma frame_rates_app tr1 tr2 : frame_rates (tr1 ++ tr2) = frame_rates tr1 ++ frame_rates tr2.
Proof. apply omap_app. Qed.

Lemma drawn_not_draw evs :
  Forall (λ e, match e with DrawBboxesOnAxes _ => False | _ => True end) evs →
  drawn evs = [].
Proof. induction 1 as [|e evs He _ IH]; [done|]. by destruct e. Qed.

Lemma frame_rates_loop_events evs :
  Forall (λ e, loop_event e = true) evs → frame_rates evs = [].
Proof. induction 1 as [|e evs He _ IH]; [done|]. by destruct e. Qed.

(** The flag after the keys of a pause: escape clears it and no key sets
    it again. *)
Lemma key_press_foldl keys c :
  foldl (λ c key, key_press key c) c keys = c && negb (bool_decide ("escape" ∈ keys)).
Proof.
  revert c. induction keys as [|key keys IH]; intros c.
  - by rewrite andb_true_r.
  - cbn [foldl]. rewrite IH. unfold key_press.
    destruct (decide (key = "escape")) as [->|Hkey].
    + rewrite (bool_decide_true ("escape" ∈ "escape" :: keys)) by left.
      by rewrite andb_false_r.
    + rewrite (bool_decide_false (key = "escape")) by done.
      destruct (decide ("escape" ∈ keys)) as [Hin|Hnin].
      * rewrite !bool_decide_true; [done|by right|done].
      * rewrite !bool_decide_false; [done| |done].
        by intros [?|?]%elem_of_cons.
Qed.

Lemma get_newest_image_run a tr :
  get_newest_image a tr =
    match a with
    | GetNextImageRaises e =>
        if isinstance e "ValueError"
        then (Return None, tr ++ [PrintErr (exn_str e)])
        else (Raise e, tr)
    | RGB8ImageRaises e =>
        if isinstance e "ValueError"
        then (Return None, (tr ++ [GetNextImage]) ++ [PrintErr (exn_str e)])
        else (Raise e, tr ++ [GetNextImage])
    | Retrieved o keys =>
        (Return (Some (o, keys)), (tr ++ [GetNextImage]) ++ [ImageRelease])
    end.
Proof.
  unfold get_newest_image. st_run. unfold emit.
  destruct a as [e|e|o keys]; [..|done]; cbn beta iota;
    by destruct (isinstance e "ValueError").
Qed.

End SpinFacts.

Section SpinStream.
Import Inference Spin.

(** A run of the loop adds events to the trace, and they are as
    [loop_trace] has them. *)
Lemma stream_spec labels th acqs tr :
  ∃ r evs,
    stream labels th acqs tr = (r, tr ++ evs) ∧ loop_trace labels th acqs r evs.
Proof.
  revert tr. induction acqs as [|a acqs IH]; intros tr.
  { exists (Return false), []. rewrite app_nil_r. split; [done|].
    split_and!; [constructor|by exists false|constructor|constructor|].
    left. by split_and!. }
  cbn [stream]. unfold mbind at 1, St_bind. rewrite get_newest_image_run.
  destruct a as [e|e|o keys].
  - destruct (isinstance e "ValueError") eqn:He.
    + exists (Return true), [PrintErr (exn_str e)]. split; [done|].
      split_and!; [by repeat constructor|by exists false|constructor|constructor|].
      right; right. split; [constructor|]. eexists. split; [done|].
      cbn [stops]. by rewrite He.
    + exists (Raise e), []. rewrite app_nil_r. split; [done|].
      split_and!; [constructor|by exists false|constructor|constructor|].
      right; right. split; [constructor|]. eexists. split; [done|].
      cbn [stops]. by rewrite He.
  - destruct (isinstance e "ValueError") eqn:He.
    + exists (Return true), [GetNextImage; PrintErr (exn_str e)]. rewrite <-app_assoc.
      split; [done|].
      split_and!; [by repeat constructor|by exists true|constructor|constructor|].
      right; right. split; [constructor|]. eexists. split; [done|].
      cbn [stops]. by rewrite He.
    + exists (Raise e), [GetNextImage]. split; [done|].
      split_and!; [by repeat constructor|by exists true|constructor|constructor|].
      right; right. split; [constructor|]. eexists. split; [done|].
      cbn [stops]. by rewrite He.
  - cbn beta iota. unfold mbind at 1, St_bind, lift.
    destruct (render labels o th) as [call|e] eqn:Hcall.
    + unfold mbind at 1, St_bind. rewrite spin_emit_run.
      rewrite key_press_foldl, andb_true_l.
      destruct (decide ("escape" ∈ keys)) as [Hin|Hnin].
      * rewrite bool_decide_true by done. cbn [negb].
        exists (Return true), [GetNextImage; ImageRelease; DrawBboxesOnAxes call].
        rewrite <-!app_assoc. split; [done|].
        split_and!; [by repeat constructor|by exists false| |constructor|].
        -- constructor; [by exists o, keys|constructor].
        -- right; left. split; [done|]. exists o, keys. cbn. split_and!; [done|lia|done].
      * rewrite bool_decide_false by done. cbn [negb].
        destruct (IH (((tr ++ [GetNextImage]) ++ [ImageRelease]) ++ [DrawBboxesOnAxes call]))
          as (r & evs & Htr & Hloop & (b & Hb & Hbr) & Hdrawn & Hesc & Hres).
        exists r, ([GetNextImage; ImageRelease; DrawBboxesOnAxes call] ++ evs).
        split; [by rewrite Htr, <-!app_assoc|].
        unfold loop_trace. rewrite !drawn_app, holds_app.
        change (drawn [GetNextImage; ImageRelease; DrawBboxesOnAxes call]) with [call].
        change (holds GetNextImage ImageRelease false
                  [GetNextImage; ImageRelease; DrawBboxesOnAxes call]) with (Some false).
        cbn [app length take pred mbind option_bind].
        split_and!.
        -- by repeat (constructor; [done|]).
        -- by exists b.
        -- constructor; [by exists o, keys|done].
        -- destruct (drawn evs) as [|c cs] eqn:Hcs; [constructor|].
           cbn. by constructor.
        -- destruct Hres as [(-> & Hlen & Hall)|[(-> & o' & keys' & Hlast & Hpos & Hin)
                             |(Hall & a & Ha & Hstops)]].
           ++ left. split_and!; [done|by rewrite Hlen|by constructor].
           ++ right; left. split; [done|]. exists o', keys'.
              split_and!; [|lia|done].
              destruct (length (drawn evs)); [lia|done].
           ++ right; right. split; [by constructor|]. by exists a.
    + exists (Raise e), [GetNextImage; ImageRelease]. rewrite <-!app_assoc.
      split; [done|].
      split_and!; [by repeat constructor|by exists false|constructor|constructor|].
      right; right. split; [constructor|]. eexists. split; [done|].
      cbn. by rewrite Hcall.
Qed.

(** The runs of [main], by how far they get. *)
Lemma spin_main_cases args env :
  ∃ s3,
    (s3 = [] ∨
     ∃ bucket, s3_bucket_name args = Some bucket ∧
               s3_bucket_exists env bucket = true ∧
               s3 = [S3DownloadHighestNumberedFile bucket]) ∧
    ((∃ o, (o = MissingFile ∨ o = NoLabelCategories ∨ o = NoSavedModel) ∧
           main args env [] = (Return o, s3)) ∨
     main args env [] =
       (Return NotEnoughCameras,
        s3 ++ [SystemGetInstance; SystemGetCameras; CamListClear;
               SystemReleaseInstance; Input]) ∨
     ∃ text path r evs,
       label_file env = Some text ∧
       let labels := background :: splitlines text in
       let pre :=
         s3 ++ [SystemGetInstance; SystemGetCameras; CamInit;
                StreamBufferHandlingMode "NewestOnly";
                StreamBufferCountMode "Manual";
                StreamBufferCountManual 3;
                AcquisitionFrameRateEnable true;
                AcquisitionFrameRate
                  (py_min 30.0%float (acquisition_frame_rate_max env));
                LoadModel (ModelRequest (network args) (length labels)
                             (threshold args) 600 800 0.3%float) path;
                AcquisitionModeContinuous; BeginAcquisition] in
       path = default path (model_path args) ∧
       stream labels (threshold args) (acquisitions env) pre = (r, pre ++ evs) ∧
       loop_trace labels (threshold args) (acquisitions env) r evs ∧
       main args env [] =
         match r with
         | Return true =>
             (Return Exiting,
              pre ++ evs ++ [EndAcquisition; CamDeInit; CamListClear;
                             SystemReleaseInstance])
         | Return false => (Return Streaming, pre ++ evs)
         | Raise e => (Raise e, pre ++ evs)
         end).
Proof.
  remember (main args env []) as run eqn:Hrun.
  unfold main in Hrun. unfold mbind at 1, St_bind in Hrun.
  assert (∃ s3, match s3_bucket_name args with
                | Some bucket =>
                    if s3_bucket_exists env bucket
                    then emit (S3DownloadHighestNumberedFile bucket)
                    else mret ()
                | None => mret ()
                end [] = (Return (), s3) ∧
            (s3 = [] ∨
             ∃ bucket, s3_bucket_name args = Some bucket ∧
                       s3_bucket_exists env bucket = true ∧
                       s3 = [S3DownloadHighestNumberedFile bucket]))
    as (s3 & Hfirst & Hs3).
  { destruct (s3_bucket_name args) as [bucket|]; [|exists []; by split; [|left]].
    destruct (s3_bucket_exists env bucket) eqn:Hb; [|exists []; by split; [|left]].
    eexists. split; [done|]. right. by exists bucket. }
  rewrite Hfirst in Hrun. clear Hfirst. exists s3. split; [done|].
  destruct (label_file env) as [text|]; [|left; exists MissingFile; auto].
  case_bool_decide as Hlen; [left; exists NoLabelCategories; auto|].
  destruct (match model_path args with
            | Some p => Some p
            | None => newest_saved_model_path env
            end) as [path|] eqn:Hpath; [|left; exists NoSavedModel; auto].
  right.
  unfold mbind at 1, St_bind in Hrun; rewrite spin_emit_run in Hrun.
  unfold mbind at 1, St_bind in Hrun; rewrite spin_emit_run in Hrun.
  case_bool_decide as Hcam.
  { left. unfold mbind, St_bind in Hrun. rewrite !spin_emit_run in Hrun.
    cbn in Hrun. by rewrite <-!app_assoc in Hrun. }
  right. exists text, path.
  unfold apply_camera_settings, display_images in Hrun.
  unfold mbind, St_bind in Hrun. rewrite !spin_emit_run in Hrun. cbn beta iota in Hrun.
  match type of Hrun with
  | context [stream ?l ?t ?a ?p] =>
      destruct (stream_spec l t a p) as (r & evs & Hs & Ht); rewrite Hs in Hrun
  end.
  exists r, evs. split; [done|].
  split; [by destruct (model_path args); simplify_eq|].
  split; [rewrite <-!app_assoc in Hs; rewrite <-app_assoc; exact Hs|].
  split; [done|]. subst run.
  destruct r as [[]|e]; rewrite ?spin_emit_run; cbn beta iota;
    rewrite ?spin_emit_run; cbn beta iota; unfold mret, St_ret;
    f_equal; by rewrite <-!app_assoc.
Qed.

Ltac spin_eval :=
  cbn [holds same app mbind option_bind drawn frame_rates omap length take pred
       fst snd].

Ltac spin_cases args env :=
  let s3 := fresh "s3" in
  let Hs3 := fresh "Hs3" in
  let Hmain := fresh "Hmain" in
  destruct (spin_main_cases args env)
    as (s3 & Hs3 &
        [(? & [?|[?|?]] & Hmain)
        |[Hmain|(text & path & r & evs & Htext & ? & ? & Hloop & Hmain)]]);
  [..|destruct r as [[]|?]]; rewrite Hmain in *; clear Hmain;
  cbn [fst snd] in *; simplify_eq;
  destruct Hs3 as [->|(? & ? & ? & ->)].

(** X13.  When [main] returns, the loop having ended, it holds nothing of
    the camera system: the system instance, the camera list, the
    initialised camera and the acquisition were each given back, after
    having been taken and not twice; and the images were released one by
    one, the last one perhaps not.  When it returns after streaming, each of
    the four was taken. *)
Theorem camera_given_back_on_return (args : Spin.Args) (env : Spin.Env)
    (o : Spin.outcome) :
  (Spin.main args env []).1 = Return o →
  o ≠ Spin.Streaming →
  let tr := (Spin.main args env []).2 in
  Spin.holds Spin.SystemGetInstance Spin.SystemReleaseInstance false tr = Some false ∧
  Spin.holds Spin.SystemGetCameras Spin.CamListClear false tr = Some false ∧
  Spin.holds Spin.CamInit Spin.CamDeInit false tr = Some false ∧
  Spin.holds Spin.BeginAcquisition Spin.EndAcquisition false tr = Some false ∧
  is_Some (Spin.holds Spin.GetNextImage Spin.ImageRelease false tr) ∧
  (o = Spin.Exiting →
   Spin.SystemGetInstance ∈ tr ∧ Spin.SystemGetCameras ∈ tr ∧
   Spin.CamInit ∈ tr ∧ Spin.BeginAcquisition ∈ tr).
Proof.
  intros Ho Hne tr. subst tr. revert Ho.
  spin_cases args env; intros Ho; simplify_eq; try (by split_and!).
  - destruct Hloop as (Hev & (b & Hb & _) & _).
    rewrite !holds_app. spin_eval.
    rewrite !holds_app, !(holds_loop_events _ _ _ evs), Hb by done. spin_eval.
    split_and!; try done. intros _.
    rewrite !elem_of_cons, !elem_of_app, !elem_of_cons. naive_solver.
  - destruct Hloop as (Hev & (b & Hb & _) & _).
    rewrite !holds_app. spin_eval.
    rewrite !holds_app, !(holds_loop_events _ _ _ evs), Hb by done. spin_eval.
    split_and!; try done. intros _.
    rewrite !elem_of_cons, !elem_of_app, !elem_of_cons. naive_solver.
Qed.

(** X14.  The stream is not guarded by a [finally]: when an exception
    leaves [main] while the camera is acquiring, the acquisition begun and
    not ended, nothing of the camera system has been given back: the system
    instance, the camera list and the initialised camera are each held at
    that point, taken once; and so is at most one image. *)
Theorem exception_leaves_camera_acquiring (args : Spin.Args) (env : Spin.Env)
    (e : exn) :
  (Spin.main args env []).1 = Raise e →
  Spin.holds Spin.BeginAcquisition Spin.EndAcquisition false (Spin.main args env []).2
    = Some true →
  let tr := (Spin.main args env []).2 in
  Spin.holds Spin.SystemGetInstance Spin.SystemReleaseInstance false tr = Some true ∧
  Spin.holds Spin.SystemGetCameras Spin.CamListClear false tr = Some true ∧
  Spin.holds Spin.CamInit Spin.CamDeInit false tr = Some true ∧
  is_Some (Spin.holds Spin.GetNextImage Spin.ImageRelease false tr).
Proof.
  intros He _ tr. subst tr. revert He.
  spin_cases args env; intros He; simplify_eq.
  all: destruct Hloop as (Hev & (b & Hb & _) & _).
  all: rewrite !holds_app; spin_eval.
  all: rewrite ?holds_app, !(holds_loop_events _ _ _ evs), Hb by done; spin_eval.
  all: by split_and!.
Qed.

(** X15.  However a run of [main] ends, the frames it has drawn are the
    first turns of the loop, in their order, one [draw_bboxes] call per
    turn: each of these turns retrieved an image, and the call shows the
    filtered output for it; and escape was pressed in none of them, the
    last one apart. *)
Theorem frames_are_drawn_in_order (args : Spin.Args) (env : Spin.Env) :
  let tr := (Spin.main args env []).2 in
  let labels := background :: splitlines (default [] (Spin.label_file env)) in
  Forall2 (λ a call, ∃ o keys, a = Spin.Retrieved o keys ∧
                               render labels o (Spin.threshold args) = Return call)
    (take (length (Spin.drawn tr)) (Spin.acquisitions env)) (Spin.drawn tr) ∧
  Forall Spin.no_escape (take (pred (length (Spin.drawn tr))) (Spin.acquisitions env)).
Proof.
  intros tr labels. subst tr labels.
  spin_cases args env; try (split; constructor).
  all: destruct Hloop as (_ & _ & Hdrawn & Hesc & _).
  all: rewrite Htext; cbn [default from_option Datatypes.id].
  all: rewrite !drawn_app; spin_eval; rewrite ?app_nil_r; by split.
Qed.

(** X16.  [main] returns after streaming only when the loop was left in one
    of its two ways: escape was pressed during the pause of the last frame
    drawn, or the turn after the last frame drawn met, in
    [get_newest_image], an exception that is an instance of [ValueError],
    of the class or of a subclass. *)
Theorem exits_on_escape_or_value_error (args : Spin.Args) (env : Spin.Env) :
  (Spin.main args env []).1 = Return Spin.Exiting →
  let n := length (Spin.drawn (Spin.main args env []).2) in
  ((0 < n)%nat ∧
   ∃ o keys, Spin.acquisitions env !! pred n = Some (Spin.Retrieved o keys) ∧
             "escape" ∈ keys) ∨
  (Forall Spin.no_escape (take n (Spin.acquisitions env)) ∧
   ∃ e, isinstance e "ValueError" = true ∧
        (Spin.acquisitions env !! n = Some (Spin.GetNextImageRaises e) ∨
         Spin.acquisitions env !! n = Some (Spin.RGB8ImageRaises e))).
Proof.
  intros He n. subst n. revert He.
  spin_cases args env; intros He; simplify_eq.
  all: destruct Hloop as (_ & _ & _ & _ & Hend).
  all: rewrite !drawn_app; spin_eval; rewrite ?app_nil_r.
  all: destruct Hend as [(? & _)|[(_ & o & keys & Hlast & Hpos & Hin)
                                 |(Hall & a & Ha & Hstops)]]; [done|..].
  all: try (left; split; [done|]; by exists o, keys).
  all: right; split; [done|].
  all: destruct a as [e'|e'|o keys]; cbn [stops] in Hstops.
  all: try (destruct (isinstance e' "ValueError") eqn:He'; [|done];
            exists e'; split; [done|]; first [by left|by right]).
  all: destruct (render _ o _); by simplify_eq.
Qed.

(** X17.  The [frame_rate] argument has no effect: two runs whose arguments
    differ at most in it are the same, and a frame rate that a run sets is
    30.0, or the highest rate of the camera when that is below 30.0. *)
Theorem frame_rate_argument_is_ignored (args args' : Spin.Args) (env : Spin.Env) :
  Spin.s3_bucket_name args = Spin.s3_bucket_name args' →
  Spin.model_path args = Spin.model_path args' →
  Spin.network args = Spin.network args' →
  Spin.threshold args = Spin.threshold args' →
  Spin.main args env [] = Spin.main args' env [] ∧
  Forall (λ r, r = if PrimFloat.ltb (Spin.acquisition_frame_rate_max env) 30.0
                   then Spin.acquisition_frame_rate_max env else 30.0%float)
    (Spin.frame_rates (Spin.main args env []).2).
Proof.
  intros Hs3 Hpath Hnet Hth. split.
  - unfold main. by rewrite Hs3, Hpath, Hnet, Hth.
  - clear. spin_cases args env; try by repeat constructor.
    all: destruct Hloop as (Hev & _).
    all: rewrite !frame_rates_app, (frame_rates_loop_events evs) by done; spin_eval.
    all: by repeat constructor.
Qed.

(** One turn of the loop. *)
Lemma stream_cons labels th a acqs tr :
  stream labels th (a :: acqs) tr =
    match get_newest_image a tr with
    | (Return None, tr') => (Return true, tr')
    | (Return (Some (o, keys)), tr') =>
        match render labels o th with
        | Return call =>
            if bool_decide ("escape" ∈ keys)
            then (Return true, tr' ++ [DrawBboxesOnAxes call])
            else stream labels th acqs (tr' ++ [DrawBboxesOnAxes call])
        | Raise e => (Raise e, tr')
        end
    | (Raise e, tr') => (Raise e, tr')
    end.
Proof.
  cbn [stream]. unfold mbind, St_bind, lift.
  destruct (get_newest_image a tr) as [[[[o keys]|]|e] tr']; [|done..].
  destruct (render labels o th) as [call|e]; [|done].
  rewrite spin_emit_run, key_press_foldl, andb_true_l.
  by case_bool_decide.
Qed.

(** The loop draws what the loop of [PredictSpin] draws, when no
    acquisition raises anything but a [ValueError]. *)
Lemma stream_agrees labels th acqs tr :
  Forall only_value_error acqs →
  match PredictSpin.stream labels th (frame_of <$> acqs) with
  | Return ds =>
      ∃ ended evs, stream labels th acqs tr = (Return ended, tr ++ evs) ∧
                   drawn evs = ds
  | Raise e => (stream labels th acqs tr).1 = Raise e
  end.
Proof.
  intros Hacqs. revert tr. induction Hacqs as [|a acqs Ha _ IH]; intros tr.
  { exists false, []. by rewrite app_nil_r. }
  rewrite !stream_cons, !get_newest_image_run.
  cbn [fmap list_fmap PredictSpin.stream].
  destruct a as [e|e|o keys]; cbn [frame_of].
  - cbn [only_value_error] in Ha. rewrite Ha.
    by exists true, [PrintErr (exn_str e)].
  - cbn [only_value_error] in Ha. rewrite Ha.
    exists true, [GetNextImage; PrintErr (exn_str e)]. by rewrite <-app_assoc.
  - unfold mbind, result_bind.
    destruct (render labels o th) as [call|e]; [|done].
    case_bool_decide as Hesc.
    + exists true, [GetNextImage; ImageRelease; DrawBboxesOnAxes call].
      by rewrite <-!app_assoc.
    + specialize (IH (((tr ++ [GetNextImage]) ++ [ImageRelease]) ++
                        [DrawBboxesOnAxes call])).
      destruct (PredictSpin.stream labels th (frame_of <$> acqs)) as [ds|e]; [|done].
      destruct IH as (ended & evs & -> & <-).
      exists ended, ([GetNextImage; ImageRelease; DrawBboxesOnAxes call] ++ evs).
      by rewrite <-!app_assoc.
Qed.

(** X18.  The account of [main] with the camera and the one without it
    agree when no acquisition raises anything but a [ValueError]: the runs
    leave [main] at the same place, with the same exception if any; and
    where the one constructs a model and draws boxes, the other loads that
    model and draws the same boxes in the same order, the loop having ended
    or still running. *)
Theorem camera_run_agrees_with_outline (args : Spin.Args) (env : Spin.Env) :
  Forall Spin.only_value_error (Spin.acquisitions env) →
  let run := Spin.main args env [] in
  match PredictSpin.main (Spin.args_of args) (Spin.env_of env) with
  | Return PredictSpin.MissingFile => run.1 = Return Spin.MissingFile
  | Return PredictSpin.NoLabelCategories => run.1 = Return Spin.NoLabelCategories
  | Return PredictSpin.NoSavedModel => run.1 = Return Spin.NoSavedModel
  | Return PredictSpin.NotEnoughCameras => run.1 = Return Spin.NotEnoughCameras
  | Return (PredictSpin.Exiting labels m ds) =>
      (run.1 = Return Spin.Exiting ∨ run.1 = Return Spin.Streaming) ∧
      Spin.drawn run.2 = ds ∧
      ∃ path, Spin.LoadModel m path ∈ run.2
  | Raise e => run.1 = Raise e
  end.
Proof.
  intros Hacqs run. subst run.
  remember (main args env []) as run eqn:Hrun.
  unfold main in Hrun. unfold mbind at 1, St_bind in Hrun.
  assert (∃ s3, match s3_bucket_name args with
                | Some bucket =>
                    if s3_bucket_exists env bucket
                    then emit (S3DownloadHighestNumberedFile bucket)
                    else mret ()
                | None => mret ()
                end [] = (Return (), s3) ∧
                drawn s3 = []) as (s3 & Hfirst & Hs3).
  { destruct (s3_bucket_name args) as [bucket|]; [|by exists []].
    destruct (s3_bucket_exists env bucket); [|by exists []]. by eexists. }
  rewrite Hfirst in Hrun. clear Hfirst.
  unfold PredictSpin.main, args_of, env_of.
  cbn [PredictSpin.label_file PredictSpin.model_path PredictSpin.newest_saved_model_path
       PredictSpin.num_cameras PredictSpin.frames PredictSpin.network
       PredictSpin.threshold].
  destruct (label_file env) as [text|]; [|by subst].
  case_bool_decide as Hlen; [by subst|].
  destruct (match model_path args with
            | Some p => Some p
            | None => newest_saved_model_path env
            end) as [path|]; [|by subst].
  unfold mbind at 1, St_bind in Hrun; rewrite spin_emit_run in Hrun.
  unfold mbind at 1, St_bind in Hrun; rewrite spin_emit_run in Hrun.
  case_bool_decide as Hcam.
  { unfold mbind, St_bind in Hrun. rewrite !spin_emit_run in Hrun. by subst. }
  unfold apply_camera_settings, display_images, PredictSpin.display_images in *.
  unfold mbind, St_bind in Hrun.
  rewrite !spin_emit_run in Hrun. cbn beta iota in Hrun.
  match type of Hrun with
  | context [stream ?l ?t ?a ?p] =>
      pose proof (stream_agrees l t a p Hacqs) as Hagree
  end.
  unfold mbind, result_bind.
  destruct (PredictSpin.stream _ _ _) as [ds|e].
  - destruct Hagree as (ended & evs & Hs & <-).
    rewrite Hs in Hrun.
    unfold mret, result_ret. cbn beta iota.
    destruct ended;
      repeat first [rewrite spin_emit_run in Hrun
                   |progress cbn beta iota in Hrun
                   |progress unfold mret, St_ret in Hrun];
      subst run; cbn [fst snd]; (split; [auto|]);
      rewrite !drawn_app, Hs3; (split; [by rewrite ?app_nil_r|]);
      exists path; rewrite !elem_of_app, !list_elem_of_singleton; naive_solver.
  - destruct (stream _ _ _ _) as [r tr']. cbn [fst] in Hagree. subst r.
    by subst run.
Qed.

End SpinStream.

(** A session of two frames, left with escape. *)
Lemma camera_given_back_on_return_witness :
  Spin.holds Spin.SystemGetInstance Spin.SystemReleaseInstance false
    (Spin.main (SpinDemo.args 60)
       (SpinDemo.env [Spin.Retrieved SpinDemo.detected ["a"];
                      Spin.Retrieved SpinDemo.detected ["escape"]]) []).2
  = Some false.
Proof.
  refine (proj1 (camera_given_back_on_return (SpinDemo.args 60)
            (SpinDemo.env [Spin.Retrieved SpinDemo.detected ["a"];
                           Spin.Retrieved SpinDemo.detected ["escape"]])
            Spin.Exiting _ _)).
  - vm_compute. reflexivity.
  - discriminate.
Defined.

(** A session whose second frame has a confident score without a label. *)
Lemma exception_leaves_camera_acquiring_witness :
  Spin.holds Spin.SystemGetInstance Spin.SystemReleaseInstance false
    (Spin.main (SpinDemo.args 60)
       (SpinDemo.env [Spin.Retrieved SpinDemo.detected [];
                      Spin.Retrieved SpinDemo.unlabelled []]) []).2
  = Some true.
Proof.
  refine (proj1 (exception_leaves_camera_acquiring (SpinDemo.args 60)
            (SpinDemo.env [Spin.Retrieved SpinDemo.detected [];
                           Spin.Retrieved SpinDemo.unlabelled []])
            IndexError _ _)).
  - vm_compute. reflexivity.
  - vm_compute. reflexivity.
Defined.

(** A session whose second image cannot be converted. *)
Lemma exits_on_escape_or_value_error_witness :
  ((0 < 1)%nat ∧
   ∃ o keys,
     [Spin.Retrieved SpinDemo.detected [];
      Spin.RGB8ImageRaises (ValueError "format")] !! 0%nat
       = Some (Spin.Retrieved o keys) ∧
     "escape" ∈ keys) ∨
  (Forall Spin.no_escape
     (take 1 [Spin.Retrieved SpinDemo.detected [];
              Spin.RGB8ImageRaises (ValueError "format")]) ∧
   ∃ e,
     isinstance e "ValueError" = true ∧
     ([Spin.Retrieved SpinDemo.detected [];
       Spin.RGB8ImageRaises (ValueError "format")] !! 1%nat
        = Some (Spin.GetNextImageRaises e) ∨
      [Spin.Retrieved SpinDemo.detected [];
       Spin.RGB8ImageRaises (ValueError "format")] !! 1%nat
        = Some (Spin.RGB8ImageRaises e))).
Proof.
  refine (exits_on_escape_or_value_error (SpinDemo.args 60)
            (SpinDemo.env [Spin.Retrieved SpinDemo.detected [];
                           Spin.RGB8ImageRaises (ValueError "format")]) _).
  vm_compute. reflexivity.
Defined.

(** Sixty frames a second asked for, and fifteen. *)
Lemma frame_rate_argument_is_ignored_witness :
  Spin.frame_rates
    (Spin.main (SpinDemo.args 60)
       (SpinDemo.env [Spin.Retrieved SpinDemo.detected ["escape"]]) []).2
  = [24.0%float] ∧
  Spin.main (SpinDemo.args 60)
    (SpinDemo.env [Spin.Retrieved SpinDemo.detected ["escape"]]) []
  = Spin.main (SpinDemo.args 15)
      (SpinDemo.env [Spin.Retrieved SpinDemo.detected ["escape"]]) [].
Proof.
  split; [vm_compute; reflexivity|].
  refine (proj1 (frame_rate_argument_is_ignored (SpinDemo.args 60) (SpinDemo.args 15)
                   (SpinDemo.env [Spin.Retrieved SpinDemo.detected ["escape"]])
                   _ _ _ _)); reflexivity.
Defined.

(** A session of one frame, after which no image comes. *)
Lemma camera_run_agrees_with_outline_witness :
  Spin.drawn
    (Spin.main (SpinDemo.args 60)
       (SpinDemo.env [Spin.Retrieved SpinDemo.detected [];
                      Spin.GetNextImageRaises (ValueError "timeout")]) []).2
  = [Inference.DrawBboxes [(0, 0, 10, 10)%float] [2]
       [background; str_of_string "cat"; str_of_string "dog"] [0.9%float]].
Proof.
  assert (Forall Spin.only_value_error
            [Spin.Retrieved SpinDemo.detected [];
             Spin.GetNextImageRaises (ValueError "timeout")]) as Hacqs.
  { constructor; [exact I|]. constructor; [reflexivity|constructor]. }
  pose proof (camera_run_agrees_with_outline (SpinDemo.args 60)
                (SpinDemo.env [Spin.Retrieved SpinDemo.detected [];
                               Spin.GetNextImageRaises (ValueError "timeout")])
                Hacqs) as H.
  vm_compute in H. destruct H as (_ & H & _). vm_compute. exact H.
Defined.
